(** * audio-cropper: the chunk model, the sample-buffer edits, the
      time-to-pixel mapping, the player, the undo history and the WAV
      export, embedded from the JavaScript sources.

    Number model.  The code is embedded twice.

    In the first embedding (modules [ChunkManager] to [WavExport]) a
    JavaScript number that holds a time (seconds) or a pixel coordinate is
    a rational [Q] and its arithmetic is exact.  The statements made over
    it involve only copies, comparisons and integers, or name each value
    by the operations that the code evaluates.  Frame indices
    ([Math.floor] of a time multiplied by the sample rate) are integers
    [Z].  Chunk ids and the id counter are integers [Z] (the counter is
    only ever incremented by one, and stays exact far beyond any reachable
    number of splits).  Equality of times is [Qeq] ([==]) unless a value is
    produced literally.

    In the second embedding (module [Machine]) the same functions take the
    arithmetic of the machine as a parameter: a rounding [rnd] is applied
    to the result of every [+], [-], [*] and [/] on times,
    [createBuffer] ends with the host's [NotSupportedError] when the frame
    count is below 1, and a sample is a real number or NaN whose
    operations are rounded to binary64, whose stores are rounded to
    binary32, and whose [Math.cos], [Math.sqrt], [Math.pow] and [Math.PI]
    are those of the arithmetic.  The statements made over it hold for
    every such arithmetic; module [Double] gives the rounding of binary64
    on the rationals, with which the examples are computed.

    Samples.  The copying operations (range deletion, concatenation) never
    compute with a sample, so they are stated for any sample type that has
    the value 0, a NaN and JavaScript's truthiness.  In the first embedding
    the fade and the normalisation compute with real numbers [R] (no
    rounding), and [Math.sqrt], [Math.pow], [Math.cos] and [Math.PI] are
    [sqrt], [Rpower], [cos] and [PI]; they serve the bounds on the cosine
    ease and the statements on what an edit leaves of the editor.  The WAV
    export clamps and rounds samples; there a
    sample is a rational or NaN. *)

From Stdlib Require Import QArith Qround Qminmax Qabs ZArith List Bool Lia Psatz.
From Stdlib Require Import Reals String Sorted.
Import ListNotations.

Open Scope Q_scope.

(** ** JavaScript comparisons on numbers, as boolean tests *)

Definition Qleb (x y : Q) : bool := Qle_bool x y.
Definition Qltb (x y : Q) : bool := negb (Qle_bool y x).
Definition Qgeb (x y : Q) : bool := Qle_bool y x.
Definition Qgtb (x y : Q) : bool := negb (Qle_bool x y).

Declare Scope js_scope.
Delimit Scope js_scope with js.
Notation "x <=? y" := (Qleb x y) (at level 70, no associativity) : js_scope.
Notation "x <? y" := (Qltb x y) (at level 70, no associativity) : js_scope.
Notation "x >=? y" := (Qgeb x y) (at level 70, no associativity) : js_scope.
Notation "x >? y" := (Qgtb x y) (at level 70, no associativity) : js_scope.
Open Scope js_scope.

(** [array.map(f).filter(x => x !== null)]: the entries that are not null,
    in order. *)
Fixpoint filterNull {A : Type} (l : list (option A)) : list A :=
  match l with
  | [] => []
  | Some x :: l' => x :: filterNull l'
  | None :: l' => filterNull l'
  end.

(** ** Loops *)

(** The integers [a, a+1, ..., b-1]. *)
Definition zrange (a b : Z) : list Z :=
  map (fun k => (a + Z.of_nat k)%Z) (seq 0 (Z.to_nat (b - a))).

(** [for (let i = a; i < b; i++) body], threading the mutated state. *)
Definition forRange {S : Type} (a b : Z) (body : Z -> S -> S) (s : S) : S :=
  fold_left (fun s i => body i s) (zrange a b) s.

(** ** Samples and typed arrays *)

(** The sample value [0] a fresh [Float32Array] is filled with. *)
Class Zero (A : Type) : Type := zero : A.

(** What a copy can observe of a sample: the value NaN (what storing
    [undefined] into a [Float32Array] writes) and truthiness (false for 0,
    -0 and NaN). *)
Class Falsy (A : Type) : Type := {
  NaN : A;
  truthy : A -> bool
}.

(** Real-valued samples. *)
#[export] Instance Zero_R : Zero R := 0%R.

Module TypedArray.

(** [data[i]]: [None] is [undefined], the result for an index outside the
    array. *)
Definition get {A : Type} (data : list A) (i : Z) : option A :=
  if (i <? 0)%Z then None else nth_error data (Z.to_nat i).

Fixpoint set_nat {A : Type} (data : list A) (n : nat) (v : A) : list A :=
  match data, n with
  | [], _ => []
  | _ :: rest, O => v :: rest
  | x :: rest, S n' => x :: set_nat rest n' v
  end.

(** [data[i] = v]: a store outside the array is dropped, the array never
    grows. *)
Definition set {A : Type} (data : list A) (i : Z) (v : A) : list A :=
  if (i <? 0)%Z then data else set_nat data (Z.to_nat i) v.

(** The number written by [data[i] = x] when [x] may be [undefined]. *)
Definition ofUndefined {A : Type} `{Falsy A} (x : option A) : A :=
  match x with
  | Some v => v
  | None => NaN
  end.

(** [x || 0]. *)
Definition orZero {A : Type} `{Zero A} `{Falsy A} (x : option A) : A :=
  match x with
  | Some v => if truthy v then v else zero
  | None => zero
  end.

End TypedArray.

(** ** The Web Audio [AudioBuffer] *)

Module AudioBuffer.

Record t (A : Type) : Type := mk {
  sampleRate : Q;
  length : nat;
  channelData : list (list A)
}.
Arguments mk {A} _ _ _.
Arguments sampleRate {A} _.
Arguments length {A} _.
Arguments channelData {A} _.

Definition numberOfChannels {A : Type} (b : t A) : nat :=
  List.length (channelData b).

(** [buffer.duration], in seconds. *)
Definition duration {A : Type} (b : t A) : Q :=
  inject_Z (Z.of_nat (length b)) / sampleRate b.

(** [buffer.getChannelData(channel)], for a channel the buffer has. *)
Definition getChannelData {A : Type} (b : t A) (channel : Z) : list A :=
  match TypedArray.get (channelData b) channel with
  | Some data => data
  | None => []
  end.

(** The effect on the buffer of mutating the array that
    [getChannelData(channel)] returned. *)
Definition setChannelData {A : Type} (b : t A) (channel : Z) (data : list A)
  : t A :=
  mk (sampleRate b) (length b) (TypedArray.set (channelData b) channel data).

(** [audioContext.createBuffer(channels, length, sampleRate)]: [channels]
    arrays of [length] zeros.  (The host refuses a frame count below 1; the
    model allocates an empty buffer there.) *)
Definition createBuffer {A : Type} `{Zero A} (channels : nat) (length : Z)
  (sampleRate : Q) : t A :=
  mk sampleRate (Z.to_nat length)
     (repeat (repeat zero (Z.to_nat length)) channels).

(** Every channel holds [length] frames. *)
Definition wf {A : Type} (b : t A) : Prop :=
  Forall (fun data => List.length data = length b) (channelData b).

End AudioBuffer.

(** ** js/chunk-manager.js *)

Module ChunkManager.

(** A chunk object [{ start, end, id }]. *)
Record Chunk : Type := mkChunk {
  start : Q;
  end_ : Q;
  id : Z
}.

(** The fields of a [ChunkManager] that carry state of the model (the DOM
    overlays are display only). *)
Record t : Type := mkManager {
  chunks : list Chunk;
  selectedChunk : option Chunk;
  nextChunkId : Z
}.

(** [constructor]. *)
Definition new : t :=
  {| chunks := [ {| start := 0; end_ := 0; id := 0 |} ];
     selectedChunk := None;
     nextChunkId := 1 |}.

(** [initializeChunks(audioBuffer)], given [audioBuffer.duration]. *)
Definition initializeChunks (duration : Q) (m : t) : t :=
  {| chunks := [ {| start := 0; end_ := duration; id := 0 |} ];
     selectedChunk := None;
     nextChunkId := 1 |}.

(** [chunks.findIndex(pred)], with [None] for -1. *)
Fixpoint findIndex {A : Type} (pred : A -> bool) (l : list A) : option nat :=
  match l with
  | [] => None
  | x :: l' =>
      if pred x then Some O
      else match findIndex pred l' with
           | Some i => Some (S i)
           | None => None
           end
  end.

(** [array.splice(index, 1, a, b)] for an index inside the array. *)
Definition splice1 {A : Type} (l : list A) (index : nat) (a b : A) : list A :=
  firstn index l ++ a :: b :: skipn (S index) l.

(** [splitAtPosition(splitTime)]: the returned boolean and the new state. *)
Definition splitAtPosition (splitTime : Q) (m : t) : bool * t :=
  match findIndex (fun chunk => (splitTime >? start chunk) && (splitTime <? end_ chunk))
                  (chunks m) with
  | None => (false, m)
  | Some chunkIndex =>
      match nth_error (chunks m) chunkIndex with
      | None => (false, m)
      | Some originalChunk =>
          let leftChunk :=
            {| start := start originalChunk; end_ := splitTime;
               id := nextChunkId m |} in
          let rightChunk :=
            {| start := splitTime; end_ := end_ originalChunk;
               id := (nextChunkId m + 1)%Z |} in
          (true,
           {| chunks := splice1 (chunks m) chunkIndex leftChunk rightChunk;
              selectedChunk := None;
              nextChunkId := (nextChunkId m + 2)%Z |})
      end
  end.

(** The callback of [this.chunks.map(...)] in [deleteTimeRange]; [None] is
    the [null] that marks a chunk for removal. *)
Definition deleteTimeRange_chunk (startTime endTime : Q) (chunk : Chunk)
  : option Chunk :=
  let deleteDuration := endTime - startTime in
  if start chunk >=? endTime then
    Some {| start := start chunk - deleteDuration;
            end_ := end_ chunk - deleteDuration;
            id := id chunk |}
  else if end_ chunk <=? startTime then
    Some chunk
  else if (start chunk >=? startTime) && (end_ chunk <=? endTime) then
    None
  else if (start chunk <? startTime) && (end_ chunk >? endTime) then
    Some {| start := start chunk;
            end_ := end_ chunk - deleteDuration;
            id := id chunk |}
  else if (start chunk <? startTime) && (end_ chunk >? startTime) then
    Some {| start := start chunk; end_ := startTime; id := id chunk |}
  else if (start chunk <? endTime) && (end_ chunk >? endTime) then
    Some {| start := startTime;
            end_ := end_ chunk - deleteDuration;
            id := id chunk |}
  else Some chunk.

(** [deleteTimeRange(startTime, endTime)]. *)
Definition deleteTimeRange (startTime endTime : Q) (m : t) : t :=
  let chunks' :=
    filterNull (map (deleteTimeRange_chunk startTime endTime) (chunks m)) in
  let selected' :=
    match selectedChunk m with
    | Some sel =>
        if existsb (fun c => (id c =? id sel)%Z) chunks' then Some sel else None
    | None => None
    end in
  {| chunks := chunks'; selectedChunk := selected'; nextChunkId := nextChunkId m |}.

(** [chunks.reduce((sum, chunk) => sum + (chunk.end - chunk.start), 0)], the
    total covered duration. *)
Definition totalChunkDuration (cs : list Chunk) : Q :=
  fold_left (fun sum chunk => sum + (end_ chunk - start chunk)) cs 0.

(** *** Well-formedness of a chunk list *)

(** Every later chunk starts at or after the end of [c]. *)
Definition before_all (c : Chunk) (cs : list Chunk) : Prop :=
  Forall (fun c' => end_ c <= start c') cs.

(** Increasing time order with pairwise non-overlapping [[start, end)]. *)
Fixpoint ordered (cs : list Chunk) : Prop :=
  match cs with
  | [] => True
  | c :: cs' => before_all c cs' /\ ordered cs'
  end.

Definition chunk_ok (c : Chunk) : Prop := 0 <= start c /\ start c < end_ c.

Definition well_formed (cs : list Chunk) : Prop :=
  Forall chunk_ok cs /\ ordered cs.

(** Each chunk ends where the next one starts, from time [a] to time [b]. *)
Fixpoint contiguous (a : Q) (cs : list Chunk) (b : Q) : Prop :=
  match cs with
  | [] => a == b
  | c :: cs' => start c == a /\ start c <= end_ c /\ contiguous (end_ c) cs' b
  end.

(** Every id in the list is below the counter. *)
Definition ids_below (m : t) : Prop :=
  Forall (fun c => (id c < nextChunkId m)%Z) (chunks m).

(** The callback of the second [chunks.forEach] of [createCombinedBuffer]:
    the state is the buffer being filled and [currentFrame]. *)
Definition copyChunk {A : Type} `{Zero A} `{Falsy A}
  (originalBuffer : AudioBuffer.t A) (sampleRate : Q) (channels : nat)
  (totalFrames : Z) (st : AudioBuffer.t A * Z) (chunk : Chunk)
  : AudioBuffer.t A * Z :=
  let '(combinedBuffer, currentFrame) := st in
  let startFrame := Qfloor (start chunk * sampleRate) in
  let endFrame := Qfloor (end_ chunk * sampleRate) in
  let chunkFrames := (endFrame - startFrame)%Z in
  (forRange 0 (Z.of_nat channels)
     (fun channel combinedBuffer =>
        let oldData := AudioBuffer.getChannelData originalBuffer channel in
        let newData := AudioBuffer.getChannelData combinedBuffer channel in
        AudioBuffer.setChannelData combinedBuffer channel
          (forRange 0 chunkFrames
             (fun i newData =>
                if (currentFrame + i <? totalFrames)%Z then
                  TypedArray.set newData (currentFrame + i)
                    (TypedArray.orZero
                       (TypedArray.get oldData (startFrame + i)))
                else newData)
             newData))
     combinedBuffer,
   (currentFrame + chunkFrames)%Z).

(** [createCombinedBuffer(audioContext, originalBuffer, chunksToInclude)];
    [None] for [chunksToInclude] is the default [null], and the result
    [None] is the returned [null]. *)
Definition createCombinedBuffer {A : Type} `{Zero A} `{Falsy A} (m : t)
  (originalBuffer : AudioBuffer.t A) (chunksToInclude : option (list Chunk))
  : option (AudioBuffer.t A) :=
  let chunks := match chunksToInclude with
                | Some l => l
                | None => chunks m
                end in
  if (List.length chunks =? 0)%nat then None
  else
    let sampleRate := AudioBuffer.sampleRate originalBuffer in
    let channels := AudioBuffer.numberOfChannels originalBuffer in
    let totalDuration :=
      fold_left (fun totalDuration chunk =>
                   totalDuration + (end_ chunk - start chunk)) chunks 0 in
    let totalFrames := Qfloor (totalDuration * sampleRate) in
    let combinedBuffer :=
      AudioBuffer.createBuffer channels totalFrames sampleRate in
    Some (fst (fold_left
                 (copyChunk originalBuffer sampleRate channels totalFrames)
                 chunks (combinedBuffer, 0%Z))).

(** The [for (const chunk of this.chunks)] loop of [selectChunkAtPosition]
    with the [return null] after it: the chunk whose span contains the
    pixel. *)
Fixpoint selectWalk (pixelX totalChunkDuration availableWidth : Q)
  (chunks : list Chunk) (currentX : Q) : option Chunk :=
  match chunks with
  | [] => None
  | chunk :: rest =>
      let chunkDuration := end_ chunk - start chunk in
      let chunkWidthRatio := chunkDuration / totalChunkDuration in
      let chunkWidth := availableWidth * chunkWidthRatio in
      if (pixelX >=? currentX) && (pixelX <=? currentX + chunkWidth) then
        Some chunk
      else
        selectWalk pixelX totalChunkDuration availableWidth rest
          (currentX + chunkWidth + 4)
  end.

(** [selectChunkAtPosition(pixelX, containerWidth)]: the returned chunk
    ([None] for null) and the new state. *)
Definition selectChunkAtPosition (pixelX containerWidth : Q) (m : t)
  : option Chunk * t :=
  if (List.length (chunks m) <=? 1)%nat then (None, m)
  else
    let totalChunkDuration := totalChunkDuration (chunks m) in
    let gapWidth := 4 in
    let totalGaps :=
      Qmax 0 (inject_Z (Z.of_nat (List.length (chunks m))) - 1) * gapWidth in
    let availableWidth := containerWidth - totalGaps in
    match selectWalk pixelX totalChunkDuration availableWidth (chunks m) 0 with
    | Some chunk =>
        (Some chunk,
         {| chunks := chunks m; selectedChunk := Some chunk;
            nextChunkId := nextChunkId m |})
    | None => (None, m)
    end.

End ChunkManager.

(** ** js/waveform-renderer.js *)

Module WaveformRenderer.

Import ChunkManager.

(** The renderer's state that the coordinate conversion reads:
    [audioBuffer_duration] is [this.audioBuffer.duration], [None] while
    [this.audioBuffer] is null; [canvas_width] is [this.canvas.width]. *)
Record t : Type := mk {
  chunks : list Chunk;
  audioBuffer_duration : option Q;
  zoomLevel : Q;
  zoomOffset : Q;
  canvas_width : Q
}.

(** [getVisibleTimeRange()], as the pair [(start, end)]. *)
Definition getVisibleTimeRange (r : t) : Q * Q :=
  match audioBuffer_duration r with
  | None => (0, 0)
  | Some duration =>
      let visibleDuration := duration / zoomLevel r in
      (zoomOffset r, Qmin duration (zoomOffset r + visibleDuration))
  end.

Definition gapWidth : Q := 4.

(** The [for (const chunk of visibleChunks)] loop of
    [getPixelPositionForTime] with the statement [return 0] that follows
    it. *)
Fixpoint walkChunks (time : Q) (visibleStart visibleEnd : Q)
  (totalVisibleDuration availableWidth : Q) (visibleChunks : list Chunk)
  (currentX : Q) : Q :=
  match visibleChunks with
  | [] => 0
  | chunk :: rest =>
      let chunkStart := Qmax (start chunk) visibleStart in
      let chunkEnd := Qmin (end_ chunk) visibleEnd in
      let visibleChunkDuration := chunkEnd - chunkStart in
      if (time >=? chunkStart) && (time <=? chunkEnd) then
        let timeInChunk := time - chunkStart in
        let progressInChunk := timeInChunk / visibleChunkDuration in
        let chunkWidthRatio := visibleChunkDuration / totalVisibleDuration in
        let chunkWidth := availableWidth * chunkWidthRatio in
        currentX + (progressInChunk * chunkWidth)
      else
        let chunkWidthRatio := visibleChunkDuration / totalVisibleDuration in
        let chunkWidth := availableWidth * chunkWidthRatio in
        walkChunks time visibleStart visibleEnd totalVisibleDuration
          availableWidth rest (currentX + chunkWidth + gapWidth)
  end.

(** [getPixelPositionForTime(time)]. *)
Definition getPixelPositionForTime (time : Q) (r : t) : Q :=
  let '(visibleStart, visibleEnd) := getVisibleTimeRange r in
  if (time <? visibleStart) || (time >? visibleEnd) then -1
  else
    let visibleChunks :=
      filter (fun chunk =>
                (end_ chunk >? visibleStart) && (start chunk <? visibleEnd))
             (chunks r) in
    if (List.length visibleChunks =? 0)%nat then -1
    else
      let totalVisibleDuration :=
        fold_left (fun total chunk =>
                     let chunkStart := Qmax (start chunk) visibleStart in
                     let chunkEnd := Qmin (end_ chunk) visibleEnd in
                     total + (chunkEnd - chunkStart)) visibleChunks 0 in
      let totalGaps :=
        Qmax 0 (inject_Z (Z.of_nat (List.length visibleChunks)) - 1) * gapWidth in
      let availableWidth := canvas_width r - totalGaps in
      walkChunks time visibleStart visibleEnd totalVisibleDuration
        availableWidth visibleChunks 0.

(** [getPixelPositionForTimeZoomed(time)], documented in the source as
    returning the pixel position, or -1 if not visible. *)
Definition getPixelPositionForTimeZoomed (time : Q) (r : t) : Q :=
  match audioBuffer_duration r with
  | None => -1
  | Some duration =>
      if zoomLevel r <=? 1 then getPixelPositionForTime time r
      else Qmax 0 (Qmin 1 (time / duration)) * canvas_width r
  end.

(** The state left by [generateWaveform(audioBuffer)]: the buffer is
    remembered; the bars and the canvas size are display only. *)
Definition generateWaveform (duration : Q) (r : t) : t :=
  mk (chunks r) (Some duration) (zoomLevel r) (zoomOffset r) (canvas_width r).

(** [this.chunks = chunks]. *)
Definition setChunks (cs : list Chunk) (r : t) : t :=
  mk cs (audioBuffer_duration r) (zoomLevel r) (zoomOffset r) (canvas_width r).

(** The [for (const chunk of visibleChunks)] loop of
    [getTimeFromPixelPosition] with the [return visibleRange.start] after
    it. *)
Fixpoint walkPixels (pixelX : Q) (visibleStart visibleEnd : Q)
  (totalVisibleDuration availableWidth : Q) (visibleChunks : list Chunk)
  (currentX : Q) : Q :=
  match visibleChunks with
  | [] => visibleStart
  | chunk :: rest =>
      let chunkStart := Qmax (start chunk) visibleStart in
      let chunkEnd := Qmin (end_ chunk) visibleEnd in
      let visibleChunkDuration := chunkEnd - chunkStart in
      let chunkWidthRatio := visibleChunkDuration / totalVisibleDuration in
      let chunkWidth := availableWidth * chunkWidthRatio in
      if (pixelX >=? currentX) && (pixelX <=? currentX + chunkWidth) then
        let pixelInChunk := pixelX - currentX in
        let progressInChunk := pixelInChunk / chunkWidth in
        chunkStart + (progressInChunk * visibleChunkDuration)
      else
        walkPixels pixelX visibleStart visibleEnd totalVisibleDuration
          availableWidth rest (currentX + chunkWidth + gapWidth)
  end.

(** [getTimeFromPixelPosition(pixelX)]. *)
Definition getTimeFromPixelPosition (pixelX : Q) (r : t) : Q :=
  let '(visibleStart, visibleEnd) := getVisibleTimeRange r in
  let visibleChunks :=
    filter (fun chunk =>
              (end_ chunk >? visibleStart) && (start chunk <? visibleEnd))
           (chunks r) in
  if (List.length visibleChunks =? 0)%nat then visibleStart
  else
    let totalVisibleDuration :=
      fold_left (fun total chunk =>
                   let chunkStart := Qmax (start chunk) visibleStart in
                   let chunkEnd := Qmin (end_ chunk) visibleEnd in
                   total + (chunkEnd - chunkStart)) visibleChunks 0 in
    let totalGaps :=
      Qmax 0 (inject_Z (Z.of_nat (List.length visibleChunks)) - 1) * gapWidth in
    let availableWidth := canvas_width r - totalGaps in
    walkPixels pixelX visibleStart visibleEnd totalVisibleDuration
      availableWidth visibleChunks 0.

(** [getTimeFromMousePosition(mouseX)]. *)
Definition getTimeFromMousePosition (mouseX : Q) (r : t) : Q :=
  match audioBuffer_duration r with
  | None => 0
  | Some duration =>
      if zoomLevel r <=? 1 then getTimeFromPixelPosition mouseX r
      else
        let totalWidth := canvas_width r in
        let clampedX := Qmax 0 (Qmin totalWidth mouseX) in
        let timeRatio := clampedX / totalWidth in
        timeRatio * duration
  end.

(** The constructor's [minZoom], [maxZoom] and [zoomStep]; no method assigns
    them. *)
Definition minZoom : Q := 1 # 10.
Definition maxZoom : Q := 50.
Definition zoomStep : Q := 12 # 10.

(** [clampZoomOffset()]. *)
Definition clampZoomOffset (r : t) : t :=
  match audioBuffer_duration r with
  | None => r
  | Some duration =>
      let visibleDuration := duration / zoomLevel r in
      let maxOffset := Qmax 0 (duration - visibleDuration) in
      mk (chunks r) (audioBuffer_duration r) (zoomLevel r)
         (Qmax 0 (Qmin maxOffset (zoomOffset r))) (canvas_width r)
  end.

(** [updateScrollWidth()]: [clientWidth] is
    [this.scrollContainer.clientWidth], [None] while there is no scroll
    container.  (The canvas keeps its width as a whole number of pixels;
    the model keeps the product as it is, and no statement reads the width
    written here.) *)
Definition updateScrollWidth (clientWidth : option Q) (r : t) : t :=
  match clientWidth, audioBuffer_duration r with
  | Some containerWidth, Some _ =>
      if zoomLevel r >? 1 then
        mk (chunks r) (audioBuffer_duration r) (zoomLevel r) (zoomOffset r)
           (containerWidth * zoomLevel r)
      else
        mk (chunks r) (audioBuffer_duration r) (zoomLevel r) (zoomOffset r)
           containerWidth
  | _, _ => r
  end.

(** [handleZoom(direction, centerX = null)]; the scroll position and the
    redraw that follow are display only. *)
Definition handleZoom (direction : Q) (centerX : option Q)
  (clientWidth : option Q) (r : t) : t :=
  match audioBuffer_duration r with
  | None => r
  | Some _ =>
      let oldZoom := zoomLevel r in
      let newZoom :=
        if direction >? 0 then Qmin maxZoom (zoomLevel r * zoomStep)
        else Qmax minZoom (zoomLevel r / zoomStep) in
      if Qeq_bool newZoom oldZoom then r
      else
        let centerX := match centerX with
                       | Some x => x
                       | None => canvas_width r / 2
                       end in
        let centerTimeOld := getTimeFromPixelPosition centerX r in
        let r1 := mk (chunks r) (audioBuffer_duration r) newZoom
                     (zoomOffset r) (canvas_width r) in
        let centerTimeNew := getTimeFromPixelPosition centerX r1 in
        let r2 := mk (chunks r1) (audioBuffer_duration r1) (zoomLevel r1)
                     (zoomOffset r1 + (centerTimeOld - centerTimeNew))
                     (canvas_width r1) in
        updateScrollWidth clientWidth (clampZoomOffset r2)
  end.

(** [zoomIn()], [zoomOut()] and [resetZoom()]. *)
Definition zoomIn (clientWidth : option Q) (r : t) : t :=
  handleZoom 1 None clientWidth r.

Definition zoomOut (clientWidth : option Q) (r : t) : t :=
  handleZoom (-1) None clientWidth r.

Definition resetZoom (clientWidth : option Q) (r : t) : t :=
  updateScrollWidth clientWidth
    (mk (chunks r) (audioBuffer_duration r) 1 0 (canvas_width r)).

(** [handleHorizontalScroll(e)], given [e.target.scrollLeft] and
    [e.target.clientWidth]. *)
Definition handleHorizontalScroll (scrollLeft containerWidth : Q) (r : t) : t :=
  match audioBuffer_duration r with
  | None => r
  | Some duration =>
      if zoomLevel r <=? 1 then r
      else
        let canvasWidth := containerWidth * zoomLevel r in
        let maxScroll := canvasWidth - containerWidth in
        if maxScroll >? 0 then
          let scrollRatio := scrollLeft / maxScroll in
          let visibleDuration := duration / zoomLevel r in
          let maxOffset := Qmax 0 (duration - visibleDuration) in
          clampZoomOffset
            (mk (chunks r) (audioBuffer_duration r) (zoomLevel r)
                (scrollRatio * maxOffset) (canvas_width r))
        else r
  end.

End WaveformRenderer.

(** ** js/utils.js *)

Module AudioUtils.

Local Open Scope R_scope.

(** A sample read inside the array.  (Outside it JavaScript reads
    [undefined], which arithmetic turns into NaN; the reals have no such
    value, the model reads 0 there and the statements about this module are
    restricted to ranges inside the buffer.) *)
Definition read (data : list R) (i : Z) : R :=
  match TypedArray.get data i with
  | Some x => x
  | None => 0
  end.

(** [normalizeAudio(audioBuffer, startTime, endTime, audioContext,
    targetLevel = -3)]; [None] for [targetLevel] is the omitted argument. *)
Definition normalizeAudio (audioBuffer : AudioBuffer.t R)
  (startTime endTime : Q) (targetLevel : option R) : AudioBuffer.t R :=
  let targetLevel := match targetLevel with
                     | Some level => level
                     | None => -3
                     end in
  let sampleRate := AudioBuffer.sampleRate audioBuffer in
  let channels := Z.of_nat (AudioBuffer.numberOfChannels audioBuffer) in
  let startSample := Qfloor (startTime * sampleRate) in
  let endSample := Qfloor (endTime * sampleRate) in
  let newBuffer : AudioBuffer.t R :=
    AudioBuffer.createBuffer (AudioBuffer.numberOfChannels audioBuffer)
      (Z.of_nat (AudioBuffer.length audioBuffer)) sampleRate in
  let newBuffer :=
    forRange 0 channels
      (fun channel newBuffer =>
         let oldData := AudioBuffer.getChannelData audioBuffer channel in
         let newData := AudioBuffer.getChannelData newBuffer channel in
         AudioBuffer.setChannelData newBuffer channel
           (forRange 0 (Z.of_nat (List.length oldData))
              (fun i newData => TypedArray.set newData i (read oldData i))
              newData))
      newBuffer in
  let '(sumSquares, sampleCount, maxAmplitude) :=
    forRange 0 channels
      (fun channel acc =>
         let channelData := AudioBuffer.getChannelData audioBuffer channel in
         forRange startSample endSample
           (fun i '(sumSquares, sampleCount, maxAmplitude) =>
              let sample := read channelData i in
              let amplitude := Rabs sample in
              (sumSquares + sample * sample,
               (sampleCount + 1)%Z,
               if Rlt_dec maxAmplitude amplitude then amplitude
               else maxAmplitude))
           acc)
      (0, 0%Z, 0) in
  if Req_dec_T maxAmplitude 0 then newBuffer
  else if (sampleCount =? 0)%Z then newBuffer
  else
    let rms := sqrt (sumSquares / IZR sampleCount) in
    let targetLinear := Rpower 10 (targetLevel / 20) in
    let normalizationFactor := targetLinear / rms in
    let wouldBePeak := maxAmplitude * normalizationFactor in
    let normalizationFactor :=
      if Rlt_dec targetLinear wouldBePeak then targetLinear / maxAmplitude
      else normalizationFactor in
    let maxGain := Rpower 10 (30 / 20) in
    let normalizationFactor :=
      if Rlt_dec maxGain normalizationFactor then maxGain
      else normalizationFactor in
    forRange 0 channels
      (fun channel newBuffer =>
         let newData := AudioBuffer.getChannelData newBuffer channel in
         AudioBuffer.setChannelData newBuffer channel
           (forRange startSample endSample
              (fun i newData =>
                 let newData :=
                   TypedArray.set newData i
                     (read newData i * normalizationFactor) in
                 TypedArray.set newData i
                   (Rmax (-1) (Rmin 1 (read newData i))))
              newData))
      newBuffer.

End AudioUtils.

(** ** js/audio-cropper.js *)

Module AudioChunkingEditor.

(** The editor's state that the two edits read or write.  [pausedAtTime]
    is [this.audioPlayer.pausedAtTime]; [selection] is the pair
    [(selection.start, selection.end)]. *)
Record t (A : Type) : Type := mk {
  audioBuffer : option (AudioBuffer.t A);
  seekPosition : Q;
  selection : Q * Q;
  chunkManager : ChunkManager.t;
  waveformRenderer : WaveformRenderer.t;
  pausedAtTime : Q
}.
Arguments mk {A} _ _ _ _ _ _.
Arguments audioBuffer {A} _.
Arguments seekPosition {A} _.
Arguments selection {A} _.
Arguments chunkManager {A} _.
Arguments waveformRenderer {A} _.
Arguments pausedAtTime {A} _.

(** The buffer that [deleteAudioRange] builds and installs. *)
Definition deleteAudioRange_newBuffer {A : Type} `{Zero A} `{Falsy A}
  (audioBuffer : AudioBuffer.t A) (startTime endTime : Q) : AudioBuffer.t A :=
  let sampleRate := AudioBuffer.sampleRate audioBuffer in
  let channels := AudioBuffer.numberOfChannels audioBuffer in
  let startSample := Qfloor (startTime * sampleRate) in
  let endSample := Qfloor (endTime * sampleRate) in
  let samplesToDelete := (endSample - startSample)%Z in
  let newLength := (Z.of_nat (AudioBuffer.length audioBuffer) - samplesToDelete)%Z in
  let newBuffer := AudioBuffer.createBuffer channels newLength sampleRate in
  forRange 0 (Z.of_nat channels)
    (fun channel newBuffer =>
       let oldData := AudioBuffer.getChannelData audioBuffer channel in
       let newData := AudioBuffer.getChannelData newBuffer channel in
       let newData :=
         forRange 0 startSample
           (fun i newData =>
              TypedArray.set newData i
                (TypedArray.ofUndefined (TypedArray.get oldData i)))
           newData in
       let newData :=
         forRange endSample (Z.of_nat (List.length oldData))
           (fun i newData =>
              TypedArray.set newData (i - samplesToDelete)
                (TypedArray.ofUndefined (TypedArray.get oldData i)))
           newData in
       AudioBuffer.setChannelData newBuffer channel newData)
    newBuffer.

(** [deleteAudioRange(startTime, endTime)]. *)
Definition deleteAudioRange {A : Type} `{Zero A} `{Falsy A}
  (startTime endTime : Q) (ed : t A) : t A :=
  match audioBuffer ed with
  | None => ed
  | Some buffer =>
      let newBuffer := deleteAudioRange_newBuffer buffer startTime endTime in
      let chunkManager :=
        ChunkManager.deleteTimeRange startTime endTime (chunkManager ed) in
      let waveformRenderer :=
        WaveformRenderer.generateWaveform (AudioBuffer.duration newBuffer)
          (WaveformRenderer.setChunks (ChunkManager.chunks chunkManager)
             (waveformRenderer ed)) in
      let deleteDuration := endTime - startTime in
      let pausedAtTime :=
        if (pausedAtTime ed >=? startTime) && (pausedAtTime ed <=? endTime)
        then startTime
        else if pausedAtTime ed >? endTime
             then pausedAtTime ed - deleteDuration
             else pausedAtTime ed in
      mk (Some newBuffer) pausedAtTime (selection ed) chunkManager
         waveformRenderer pausedAtTime
  end.

(** The buffer that [applyFadeEffect] builds and installs.  The new arrays
    have the length of the old ones, so where [oldData[i]] is [undefined]
    the store [newData[i] = ...] falls outside the array and is dropped. *)
Definition applyFadeEffect_newBuffer (audioBuffer : AudioBuffer.t R)
  (startTime endTime : Q) (type : string) : AudioBuffer.t R :=
  let sampleRate := AudioBuffer.sampleRate audioBuffer in
  let channels := AudioBuffer.numberOfChannels audioBuffer in
  let startSample := Qfloor (startTime * sampleRate) in
  let endSample := Qfloor (endTime * sampleRate) in
  let fadeLength := (endSample - startSample)%Z in
  let newBuffer : AudioBuffer.t R :=
    AudioBuffer.createBuffer channels
      (Z.of_nat (AudioBuffer.length audioBuffer)) sampleRate in
  forRange 0 (Z.of_nat channels)
    (fun channel newBuffer =>
       let oldData := AudioBuffer.getChannelData audioBuffer channel in
       let newData := AudioBuffer.getChannelData newBuffer channel in
       let newData :=
         forRange 0 (Z.of_nat (List.length oldData))
           (fun i newData => TypedArray.set newData i (AudioUtils.read oldData i))
           newData in
       let newData :=
         forRange startSample endSample
           (fun i newData =>
              let fadeProgress := (IZR (i - startSample) / IZR fadeLength)%R in
              let fadeMultiplier :=
                if String.eqb type "in" then fadeProgress
                else (1 - fadeProgress)%R in
              let fadeMultiplier :=
                (0.5 * (1 - cos (fadeMultiplier * PI)))%R in
              match TypedArray.get oldData i with
              | Some sample =>
                  TypedArray.set newData i (sample * fadeMultiplier)%R
              | None => newData
              end)
           newData in
       AudioBuffer.setChannelData newBuffer channel newData)
    newBuffer.

(** [applyFadeEffect(startTime, endTime, type)]. *)
Definition applyFadeEffect (startTime endTime : Q) (type : string) (ed : t R)
  : t R :=
  match audioBuffer ed with
  | None => ed
  | Some buffer =>
      let newBuffer := applyFadeEffect_newBuffer buffer startTime endTime type in
      let cm := chunkManager ed in
      mk (Some newBuffer) (seekPosition ed) (0, 0)
         (ChunkManager.mkManager (ChunkManager.chunks cm) None
            (ChunkManager.nextChunkId cm))
         (WaveformRenderer.generateWaveform (AudioBuffer.duration newBuffer)
            (waveformRenderer ed))
         (pausedAtTime ed)
  end.

(** [splitAtPosition()] of the editor: the split is made at the seek
    position; a refused split only raises an alert. *)
Definition splitAtPosition {A : Type} (ed : t A) : t A :=
  match audioBuffer ed with
  | None => ed
  | Some _ =>
      let '(success, chunkManager) :=
        ChunkManager.splitAtPosition (seekPosition ed) (chunkManager ed) in
      if negb success then ed
      else
        mk (audioBuffer ed) (seekPosition ed) (selection ed) chunkManager
           (WaveformRenderer.setChunks (ChunkManager.chunks chunkManager)
              (waveformRenderer ed))
           (pausedAtTime ed)
  end.

(** [delete()]: the selected range if there is one, else the selected
    chunk, which is refused (with an alert) when it is the only chunk. *)
Definition delete {A : Type} `{Zero A} `{Falsy A} (ed : t A) : t A :=
  if negb (Qeq_bool (fst (selection ed)) (snd (selection ed))) then
    let startTime := Qmin (fst (selection ed)) (snd (selection ed)) in
    let endTime := Qmax (fst (selection ed)) (snd (selection ed)) in
    let ed := deleteAudioRange startTime endTime ed in
    mk (audioBuffer ed) (seekPosition ed) (0, 0) (chunkManager ed)
       (waveformRenderer ed) (pausedAtTime ed)
  else
    match ChunkManager.selectedChunk (chunkManager ed) with
    | Some selectedChunk =>
        if (List.length (ChunkManager.chunks (chunkManager ed)) <=? 1)%nat
        then ed
        else
          let ed :=
            deleteAudioRange (ChunkManager.start selectedChunk)
              (ChunkManager.end_ selectedChunk) ed in
          mk (audioBuffer ed) (seekPosition ed) (selection ed)
             (ChunkManager.mkManager
                (ChunkManager.chunks (chunkManager ed)) None
                (ChunkManager.nextChunkId (chunkManager ed)))
             (waveformRenderer ed) (pausedAtTime ed)
    | None => ed
    end.

(** The buffer that [applySilenceEffect] builds and installs. *)
Definition applySilenceEffect_newBuffer {A : Type} `{Zero A} `{Falsy A}
  (audioBuffer : AudioBuffer.t A) (startTime endTime : Q) : AudioBuffer.t A :=
  let sampleRate := AudioBuffer.sampleRate audioBuffer in
  let channels := AudioBuffer.numberOfChannels audioBuffer in
  let startSample := Qfloor (startTime * sampleRate) in
  let endSample := Qfloor (endTime * sampleRate) in
  let newBuffer :=
    AudioBuffer.createBuffer channels
      (Z.of_nat (AudioBuffer.length audioBuffer)) sampleRate in
  forRange 0 (Z.of_nat channels)
    (fun channel newBuffer =>
       let oldData := AudioBuffer.getChannelData audioBuffer channel in
       let newData := AudioBuffer.getChannelData newBuffer channel in
       let newData :=
         forRange 0 (Z.of_nat (List.length oldData))
           (fun i newData =>
              TypedArray.set newData i
                (TypedArray.ofUndefined (TypedArray.get oldData i)))
           newData in
       let newData :=
         forRange startSample endSample
           (fun i newData => TypedArray.set newData i zero)
           newData in
       AudioBuffer.setChannelData newBuffer channel newData)
    newBuffer.

(** [applySilenceEffect(startTime, endTime)]. *)
Definition applySilenceEffect {A : Type} `{Zero A} `{Falsy A}
  (startTime endTime : Q) (ed : t A) : t A :=
  match audioBuffer ed with
  | None => ed
  | Some buffer =>
      let newBuffer := applySilenceEffect_newBuffer buffer startTime endTime in
      let cm := chunkManager ed in
      mk (Some newBuffer) (seekPosition ed) (0, 0)
         (ChunkManager.mkManager (ChunkManager.chunks cm) None
            (ChunkManager.nextChunkId cm))
         (WaveformRenderer.generateWaveform (AudioBuffer.duration newBuffer)
            (waveformRenderer ed))
         (pausedAtTime ed)
  end.

(** [applyNormalizeEffect(startTime, endTime)]. *)
Definition applyNormalizeEffect (startTime endTime : Q) (ed : t R) : t R :=
  match audioBuffer ed with
  | None => ed
  | Some buffer =>
      let newBuffer := AudioUtils.normalizeAudio buffer startTime endTime None in
      let cm := chunkManager ed in
      mk (Some newBuffer) (seekPosition ed) (0, 0)
         (ChunkManager.mkManager (ChunkManager.chunks cm) None
            (ChunkManager.nextChunkId cm))
         (WaveformRenderer.generateWaveform (AudioBuffer.duration newBuffer)
            (waveformRenderer ed))
         (pausedAtTime ed)
  end.

(** The constructor's [minSelectionWidth]; no method assigns it. *)
Definition minSelectionWidth : Q := 1 # 10.

(** [handleResizeMove(event)]: [isResizing] and [resizeHandle] are the
    editor's fields of those names ([None] for null), [x] is
    [event.clientX - rect.left]. *)
Definition handleResizeMove {A : Type} (isResizing : bool)
  (resizeHandle : option string) (x : Q) (ed : t A) : t A :=
  if negb isResizing then ed
  else
    match audioBuffer ed with
    | None => ed
    | Some buffer =>
        let currentTime :=
          WaveformRenderer.getTimeFromMousePosition x (waveformRenderer ed) in
        let clampedTime :=
          Qmax 0 (Qmin currentTime (AudioBuffer.duration buffer)) in
        let selection :=
          match resizeHandle with
          | Some handle =>
              if String.eqb handle "left" then
                let maxStart := snd (selection ed) - minSelectionWidth in
                (Qmin clampedTime maxStart, snd (selection ed))
              else if String.eqb handle "right" then
                let minEnd := fst (selection ed) + minSelectionWidth in
                (fst (selection ed), Qmax clampedTime minEnd)
              else selection ed
          | None => selection ed
          end in
        mk (audioBuffer ed) (seekPosition ed) selection (chunkManager ed)
           (waveformRenderer ed) (pausedAtTime ed)
    end.

(** [endSelection()]. *)
Definition endSelection {A : Type} (ed : t A) : t A :=
  let selection :=
    if fst (selection ed) >? snd (selection ed)
    then (snd (selection ed), fst (selection ed))
    else selection ed in
  mk (audioBuffer ed) (fst selection) selection (chunkManager ed)
     (waveformRenderer ed) (fst selection).

End AudioChunkingEditor.

(** ** js/audio-player.js *)

Module AudioPlayer.

Import ChunkManager.

(** [createChunkBuffer(audioBuffer, chunk)]. *)
Definition createChunkBuffer {A : Type} `{Zero A} `{Falsy A}
  (audioBuffer : AudioBuffer.t A) (chunk : Chunk) : AudioBuffer.t A :=
  let sampleRate := AudioBuffer.sampleRate audioBuffer in
  let channels := AudioBuffer.numberOfChannels audioBuffer in
  let startFrame := Qfloor (start chunk * sampleRate) in
  let endFrame := Qfloor (end_ chunk * sampleRate) in
  let frameCount := (endFrame - startFrame)%Z in
  let chunkBuffer := AudioBuffer.createBuffer channels frameCount sampleRate in
  forRange 0 (Z.of_nat channels)
    (fun channel chunkBuffer =>
       let oldData := AudioBuffer.getChannelData audioBuffer channel in
       let newData := AudioBuffer.getChannelData chunkBuffer channel in
       AudioBuffer.setChannelData chunkBuffer channel
         (forRange 0 frameCount
            (fun i newData =>
               TypedArray.set newData i
                 (TypedArray.orZero (TypedArray.get oldData (startFrame + i))))
            newData))
    chunkBuffer.

(** [totalFrames] in [createCombinedChunksBuffer]: the frame count that is
    passed to [createBuffer], which the host refuses when it is below 1. *)
Definition combinedChunksFrames {A : Type} (audioBuffer : AudioBuffer.t A)
  (sortedChunks : list Chunk) (startChunkIndex : nat) (startOffset : Q) : Z :=
  let sampleRate := AudioBuffer.sampleRate audioBuffer in
  let totalDuration :=
    forRange (Z.of_nat startChunkIndex) (Z.of_nat (List.length sortedChunks))
      (fun i totalDuration =>
         match TypedArray.get sortedChunks i with
         | Some chunk =>
             let chunkDuration := end_ chunk - start chunk in
             if (i =? Z.of_nat startChunkIndex)%Z
             then totalDuration + (chunkDuration - startOffset)
             else totalDuration + chunkDuration
         | None => totalDuration
         end)
      0 in
  Qfloor (totalDuration * sampleRate).


(** The player's state that the clock and the transport read or write: the
    buffer handed to the source node with the offset given to [start]
    ([None] while [this.source] is null), and the fields of the same names.
    The loop fields are read only by the [onended] handlers, which run
    later, on an event. *)
Record t (A : Type) : Type := mk {
  source : option (AudioBuffer.t A * Q);
  isPlaying : bool;
  playStartTime : Q;
  pausedAtTime : Q;
  currentlyPlayingChunk : option Chunk;
  playingChunks : option (list Chunk);
  playingStartOffset : Q;
  isPlayingSelection : bool;
  selectionStartTime : Q;
  selectionEndTime : Q
}.
Arguments mk {A} _ _ _ _ _ _ _ _ _ _.
Arguments source {A} _.
Arguments isPlaying {A} _.
Arguments playStartTime {A} _.
Arguments pausedAtTime {A} _.
Arguments currentlyPlayingChunk {A} _.
Arguments playingChunks {A} _.
Arguments playingStartOffset {A} _.
Arguments isPlayingSelection {A} _.
Arguments selectionStartTime {A} _.
Arguments selectionEndTime {A} _.

(** [constructor]. *)
Definition new {A : Type} : t A :=
  mk None false 0 0 None None 0 false 0 0.





(** [[...chunks].sort((a, b) => a.start - b.start)]: the sort is stable,
    chunks with the same start keep their order. *)
Fixpoint insertByStart (chunk : Chunk) (sorted : list Chunk) : list Chunk :=
  match sorted with
  | [] => [chunk]
  | x :: rest =>
      if start chunk <? start x then chunk :: sorted
      else x :: insertByStart chunk rest
  end.

Definition sortByStart (chunks : list Chunk) : list Chunk :=
  fold_left (fun sorted chunk => insertByStart chunk sorted) chunks [].

(** [stop(chunks = [])]. *)
Definition stop {A : Type} (chunks : list Chunk) (p : t A) : t A :=
  let pausedAtTime :=
    if (0 <? List.length chunks)%nat then
      match sortByStart chunks with
      | firstChunk :: _ => start firstChunk
      | [] => 0
      end
    else 0 in
  mk (source p) false (playStartTime p) pausedAtTime None None
     (playingStartOffset p) false (selectionStartTime p) (selectionEndTime p).

(** [seekToTime(time, audioBuffer)]: the returned [wasPlaying] and the new
    state. *)
Definition seekToTime {A : Type} (time : Q) (audioBuffer : AudioBuffer.t A)
  (p : t A) : bool * t A :=
  let time := Qmax 0 (Qmin time (AudioBuffer.duration audioBuffer)) in
  let wasPlaying := isPlaying p in
  (wasPlaying,
   mk (source p) false (playStartTime p) time (currentlyPlayingChunk p)
      (playingChunks p) (playingStartOffset p) (isPlayingSelection p)
      (selectionStartTime p) (selectionEndTime p)).

(** The [for] loop of [playAllChunks] that looks for the chunk to start
    from: the index, the offset and the paused time it leaves. *)
Fixpoint findStart (pausedAtTime : Q) (i : nat) (sortedChunks : list Chunk)
  : nat * Q * Q :=
  match sortedChunks with
  | [] => (O, 0, pausedAtTime)
  | chunk :: rest =>
      if (pausedAtTime >=? start chunk) && (pausedAtTime <=? end_ chunk)
      then (i, pausedAtTime - start chunk, pausedAtTime)
      else if pausedAtTime <? start chunk
           then (i, 0, start chunk)
           else findStart pausedAtTime (S i) rest
  end.


End AudioPlayer.

(** ** js/history-manager.js *)

Module HistoryManager.

Section Snapshots.

(** A snapshot is what [createStateSnapshot] collects (buffer, chunks,
    selection, seek position, selected chunk).  The copy of a snapshot is
    made with calls into the host ([createBuffer], [TypedArray.set]); it is
    a parameter here. *)
Variable Snapshot : Type.
Variable copySnapshot : Snapshot -> Snapshot.

(** A state object: the snapshot with its [action] and [timestamp], which
    are [undefined] ([None]) until [saveState] writes them. *)
Record Entry : Type := mkEntry {
  snapshot : Snapshot;
  action : option string;
  timestamp : option Z
}.

Record t : Type := mk {
  history : list Entry;
  currentIndex : Z
}.

(** The constructor's [maxHistorySize]; no method assigns it. *)
Definition maxHistorySize : Z := 50.

(** [constructor]. *)
Definition new : t := mk [] (-1).

(** [array.slice(0, end)]: a negative [end] counts from the end of the
    array. *)
Definition slice0 {A : Type} (end_ : Z) (l : list A) : list A :=
  if (end_ <? 0)%Z
  then firstn (Z.to_nat (Z.max (Z.of_nat (List.length l) + end_) 0)) l
  else firstn (Z.to_nat end_) l.

(** [deepCopyState(state)]. *)
Definition deepCopyState (state : Entry) : Entry :=
  mkEntry (copySnapshot (snapshot state)) (action state) (timestamp state).

(** [saveState(state, action)]; [now] is the value of [Date.now()]. *)
Definition saveState (state : Entry) (action : string) (now : Z) (h : t) : t :=
  let history := slice0 (currentIndex h + 1) (history h) in
  let stateCopy := deepCopyState state in
  let stateCopy := mkEntry (snapshot stateCopy) (Some action) (Some now) in
  let history := history ++ [stateCopy] in
  let currentIndex := (currentIndex h + 1)%Z in
  if (Z.of_nat (List.length history) >? maxHistorySize)%Z
  then mk (tl history) (currentIndex - 1)
  else mk history currentIndex.

(** [canUndo()] and [canRedo()]. *)
Definition canUndo (h : t) : bool := (currentIndex h >? 0)%Z.

Definition canRedo (h : t) : bool :=
  (currentIndex h <? Z.of_nat (List.length (history h)) - 1)%Z.

(** How a call ends: with a returned value ([None] for null) or with the
    TypeError of reading [.action] of [undefined]; either way with the
    state it leaves. *)
Inductive outcome : Type :=
| Returned (value : option Entry) (h : t)
| TypeError (h : t).

(** [undo()]. *)
Definition undo (h : t) : outcome :=
  if negb (canUndo h) then Returned None h
  else
    let h := mk (history h) (currentIndex h - 1) in
    match TypedArray.get (history h) (currentIndex h),
          TypedArray.get (history h) (currentIndex h + 1) with
    | Some state, Some _ => Returned (Some (deepCopyState state)) h
    | _, _ => TypeError h
    end.

(** [redo()]. *)
Definition redo (h : t) : outcome :=
  if negb (canRedo h) then Returned None h
  else
    let h := mk (history h) (currentIndex h + 1) in
    match TypedArray.get (history h) (currentIndex h) with
    | Some state => Returned (Some (deepCopyState state)) h
    | None => TypeError h
    end.

(** [clear()]. *)
Definition clear (h : t) : t := mk [] (-1).

(** The state a call leaves. *)
Definition after (o : outcome) : t :=
  match o with
  | Returned _ h => h
  | TypeError h => h
  end.

(** The history and its index fit: the history is empty with index -1, or
    the index points into a history of at most [maxHistorySize] entries. *)
Definition consistent (h : t) : Prop :=
  (history h = [] /\ currentIndex h = (-1)%Z) \/
  (0 <= currentIndex h < Z.of_nat (List.length (history h)) /\
   Z.of_nat (List.length (history h)) <= maxHistorySize)%Z.

End Snapshots.

Arguments deepCopyState {Snapshot} _ _.
Arguments saveState {Snapshot} _ _ _ _ _.
Arguments undo {Snapshot} _ _.
Arguments redo {Snapshot} _ _.
Arguments mkEntry {Snapshot} _ _ _.
Arguments snapshot {Snapshot} _.
Arguments action {Snapshot} _.
Arguments timestamp {Snapshot} _.
Arguments mk {Snapshot} _ _.
Arguments history {Snapshot} _.
Arguments currentIndex {Snapshot} _.
Arguments new {Snapshot}.
Arguments canUndo {Snapshot} _.
Arguments canRedo {Snapshot} _.
Arguments Returned {Snapshot} _ _.
Arguments TypeError {Snapshot} _.
Arguments clear {Snapshot} _.
Arguments after {Snapshot} _.
Arguments consistent {Snapshot} _.

End HistoryManager.

(** ** An executable sample type: a rational or NaN *)

Inductive f32 : Type :=
| Num (q : Q)
| NotANumber.

#[export] Instance Zero_f32 : Zero f32 := Num 0.

#[export] Instance Falsy_f32 : Falsy f32 := {|
  NaN := NotANumber;
  truthy := fun x => match x with
                     | Num q => negb (Qeq_bool q 0)
                     | NotANumber => false
                     end
|}.

(** ** js/utils.js: the WAV export *)

Module WavExport.

(** Numbers as the export computes with them: a rational or NaN.
    [Math.min], [Math.max] and the product give NaN when an operand is
    NaN. *)
Definition Math_min (a b : f32) : f32 :=
  match a, b with
  | Num x, Num y => Num (Qmin x y)
  | _, _ => NotANumber
  end.

Definition Math_max (a b : f32) : f32 :=
  match a, b with
  | Num x, Num y => Num (Qmax x y)
  | _, _ => NotANumber
  end.

Definition times (a : f32) (k : Q) : f32 :=
  match a with
  | Num x => Num (x * k)
  | NotANumber => NotANumber
  end.

(** [Math.round]: the nearest integer, halves going up; [None] is NaN. *)
Definition Math_round (a : f32) : option Z :=
  match a with
  | Num x => Some (Qfloor (x + (1 # 2)))
  | NotANumber => None
  end.

(** The integer a [DataView] setter makes of a number: the fraction is
    dropped (towards 0) and NaN becomes 0. *)
Definition toInteger (q : Q) : Z :=
  if q <? 0 then Qceiling q else Qfloor q.

Definition ofNaN (x : option Z) : Z :=
  match x with
  | Some z => z
  | None => 0
  end.

(** Byte [k] of an integer in two's complement, the lowest being byte 0. *)
Definition byteOf (value k : Z) : Z :=
  Z.land (Z.shiftr value (8 * k)) 255.

(** The setters of [DataView], little-endian where they take the flag; the
    view is the list of the bytes of the [ArrayBuffer].  (A write outside
    the buffer is a RangeError in the host; [audioBufferToWav] makes
    none.) *)
Definition setUint8 (view : list Z) (offset value : Z) : list Z :=
  TypedArray.set view offset (byteOf value 0).

Definition setUint16 (view : list Z) (offset value : Z) : list Z :=
  let view := TypedArray.set view offset (byteOf value 0) in
  TypedArray.set view (offset + 1) (byteOf value 1).

Definition setInt16 (view : list Z) (offset value : Z) : list Z :=
  let view := TypedArray.set view offset (byteOf value 0) in
  TypedArray.set view (offset + 1) (byteOf value 1).

Definition setUint32 (view : list Z) (offset value : Z) : list Z :=
  let view := TypedArray.set view offset (byteOf value 0) in
  let view := TypedArray.set view (offset + 1) (byteOf value 1) in
  let view := TypedArray.set view (offset + 2) (byteOf value 2) in
  TypedArray.set view (offset + 3) (byteOf value 3).

(** [string.charCodeAt(i)] for an index inside the string. *)
Definition charCodeAt (s : string) (i : Z) : Z :=
  match String.get (Z.to_nat i) s with
  | Some ch => Z.of_nat (Ascii.nat_of_ascii ch)
  | None => 0
  end.

(** The helper [writeString] of [audioBufferToWav]. *)
Definition writeString (view : list Z) (offset : Z) (s : string) : list Z :=
  forRange 0 (Z.of_nat (String.length s))
    (fun i view => setUint8 view (offset + i) (charCodeAt s i))
    view.

(** [audioBufferToWav(buffer)]: the bytes of the returned [ArrayBuffer]. *)
Definition audioBufferToWav (buffer : AudioBuffer.t f32) : list Z :=
  let length := Z.of_nat (AudioBuffer.length buffer) in
  let numberOfChannels := Z.of_nat (AudioBuffer.numberOfChannels buffer) in
  let sampleRate := AudioBuffer.sampleRate buffer in
  let bitsPerSample := 16%Z in
  let bytesPerSample := (bitsPerSample / 8)%Z in
  let blockAlign := (numberOfChannels * bytesPerSample)%Z in
  let byteRate := sampleRate * inject_Z blockAlign in
  let dataSize := (length * blockAlign)%Z in
  let fileSize := (44 + dataSize)%Z in
  let view := repeat 0%Z (Z.to_nat fileSize) in
  let view := writeString view 0 "RIFF" in
  let view := setUint32 view 4 (fileSize - 8) in
  let view := writeString view 8 "WAVE" in
  let view := writeString view 12 "fmt " in
  let view := setUint32 view 16 16 in
  let view := setUint16 view 20 1 in
  let view := setUint16 view 22 numberOfChannels in
  let view := setUint32 view 24 (toInteger sampleRate) in
  let view := setUint32 view 28 (toInteger byteRate) in
  let view := setUint16 view 32 blockAlign in
  let view := setUint16 view 34 bitsPerSample in
  let view := writeString view 36 "data" in
  let view := setUint32 view 40 dataSize in
  fst (forRange 0 length
         (fun i st =>
            forRange 0 numberOfChannels
              (fun channel '(view, offset) =>
                 let sample :=
                   Math_max (Num (-1))
                     (Math_min (Num 1)
                        (TypedArray.ofUndefined
                           (TypedArray.get
                              (AudioBuffer.getChannelData buffer channel) i))) in
                 let int16Sample := Math_round (times sample 32767) in
                 (setInt16 view offset (ofNaN int16Sample), (offset + 2)%Z))
              st)
         (view, 44%Z)).

End WavExport.

(** * The same code with the arithmetic of the machine

    The definitions above compute with exact rationals and reals and take
    from the host an [AudioBuffer] of any length.  The program computes
    with binary64 numbers, stores a sample as a binary32 number, and is
    refused a buffer without frames.  The module [Machine] repeats the
    functions whose results depend on that.  The result of every [+], [-],
    [*] and [/] on times passes through a rounding [rnd], which is a
    parameter: a statement about [Machine] is made for every [rnd], the
    rounding of the program is [Double.round], and the identity gives the
    exact definitions above.  Comparisons, [Math.min], [Math.max],
    [Math.floor] of a number and copies are exact in the program as well. *)

Module Double.

(** [floor(log2 q)] for a positive rational. *)
Definition ilog2 (q : Q) : Z :=
  let k := (Z.log2 (Qnum q) - Z.log2 (Zpos (Qden q)))%Z in
  if Qle_bool (Qpower 2 k) q then k else (k - 1)%Z.

(** The integer nearest to a rational, the even one of two that are
    equally near. *)
Definition nearestEven (q : Q) : Z :=
  let f := Qfloor q in
  match Qcompare (q - inject_Z f) (1 # 2) with
  | Lt => f
  | Gt => (f + 1)%Z
  | Eq => if Z.even f then f else (f + 1)%Z
  end.

(** The binary64 number nearest to a rational (53 significant bits, the
    least exponent -1074, ties to even).  Magnitudes of 2^1024 and more,
    which round to an infinity, are outside the model. *)
Definition round (q : Q) : Q :=
  if Qeq_bool q 0 then 0
  else
    let a := Qabs q in
    let e := Z.max (ilog2 a - 52) (-1074) in
    let r := Qred (inject_Z (nearestEven (a / Qpower 2 e)) * Qpower 2 e) in
    if Qle_bool 0 q then r else - r.

End Double.

Module Machine.

Import ChunkManager.

(** How a call ends: with a value, or with the NotSupportedError of
    [createBuffer].  Every method modelled here calls [createBuffer] before
    it assigns a field, so the exception leaves the state as it was. *)
Inductive completion (X : Type) : Type :=
| Normal (x : X)
| NotSupportedError.
Arguments Normal {X} _.
Arguments NotSupportedError {X}.

(** [audioContext.createBuffer(channels, length, sampleRate)]: refused for a
    frame count below 1.  (The channel count and the sample rate are always
    those of a buffer the host holds.) *)
Definition createBuffer {A : Type} `{Zero A} (channels : nat) (length : Z)
  (sampleRate : Q) : completion (AudioBuffer.t A) :=
  if (length <? 1)%Z then NotSupportedError
  else Normal (AudioBuffer.createBuffer channels length sampleRate).

(** [buffer.duration]: the frame count divided by the sample rate. *)
Definition duration {A : Type} (rnd : Q -> Q) (b : AudioBuffer.t A) : Q :=
  rnd (inject_Z (Z.of_nat (AudioBuffer.length b)) / AudioBuffer.sampleRate b).

(** *** js/chunk-manager.js *)

(** The callback of [this.chunks.map(...)] in [deleteTimeRange]. *)
Definition deleteTimeRange_chunk (rnd : Q -> Q) (startTime endTime : Q)
  (chunk : Chunk) : option Chunk :=
  let deleteDuration := rnd (endTime - startTime) in
  if start chunk >=? endTime then
    Some {| start := rnd (start chunk - deleteDuration);
            end_ := rnd (end_ chunk - deleteDuration);
            id := id chunk |}
  else if end_ chunk <=? startTime then
    Some chunk
  else if (start chunk >=? startTime) && (end_ chunk <=? endTime) then
    None
  else if (start chunk <? startTime) && (end_ chunk >? endTime) then
    Some {| start := start chunk;
            end_ := rnd (end_ chunk - deleteDuration);
            id := id chunk |}
  else if (start chunk <? startTime) && (end_ chunk >? startTime) then
    Some {| start := start chunk; end_ := startTime; id := id chunk |}
  else if (start chunk <? endTime) && (end_ chunk >? endTime) then
    Some {| start := startTime;
            end_ := rnd (end_ chunk - deleteDuration);
            id := id chunk |}
  else Some chunk.

(** [deleteTimeRange(startTime, endTime)]. *)
Definition deleteTimeRange (rnd : Q -> Q) (startTime endTime : Q) (m : t) : t :=
  let chunks' :=
    filterNull (map (deleteTimeRange_chunk rnd startTime endTime) (chunks m)) in
  let selected' :=
    match selectedChunk m with
    | Some sel =>
        if existsb (fun c => (id c =? id sel)%Z) chunks' then Some sel else None
    | None => None
    end in
  {| chunks := chunks'; selectedChunk := selected'; nextChunkId := nextChunkId m |}.

(** [totalDuration] in [createCombinedBuffer]: the loop
    [totalDuration += (chunk.end - chunk.start)] from 0. *)
Definition totalDuration (rnd : Q -> Q) (chunks : list Chunk) : Q :=
  fold_left (fun totalDuration chunk =>
               rnd (totalDuration + rnd (end_ chunk - start chunk)))
            chunks 0.

(** The callback of the second [chunks.forEach] of [createCombinedBuffer]. *)
Definition copyChunk {A : Type} `{Zero A} `{Falsy A} (rnd : Q -> Q)
  (originalBuffer : AudioBuffer.t A) (sampleRate : Q) (channels : nat)
  (totalFrames : Z) (st : AudioBuffer.t A * Z) (chunk : Chunk)
  : AudioBuffer.t A * Z :=
  let '(combinedBuffer, currentFrame) := st in
  let startFrame := Qfloor (rnd (start chunk * sampleRate)) in
  let endFrame := Qfloor (rnd (end_ chunk * sampleRate)) in
  let chunkFrames := (endFrame - startFrame)%Z in
  (forRange 0 (Z.of_nat channels)
     (fun channel combinedBuffer =>
        let oldData := AudioBuffer.getChannelData originalBuffer channel in
        let newData := AudioBuffer.getChannelData combinedBuffer channel in
        AudioBuffer.setChannelData combinedBuffer channel
          (forRange 0 chunkFrames
             (fun i newData =>
                if (currentFrame + i <? totalFrames)%Z then
                  TypedArray.set newData (currentFrame + i)
                    (TypedArray.orZero
                       (TypedArray.get oldData (startFrame + i)))
                else newData)
             newData))
     combinedBuffer,
   (currentFrame + chunkFrames)%Z).

(** [createCombinedBuffer(audioContext, originalBuffer, chunksToInclude)];
    the value [None] is the returned [null]. *)
Definition createCombinedBuffer {A : Type} `{Zero A} `{Falsy A}
  (rnd : Q -> Q) (m : t) (originalBuffer : AudioBuffer.t A)
  (chunksToInclude : option (list Chunk))
  : completion (option (AudioBuffer.t A)) :=
  let chunks := match chunksToInclude with
                | Some l => l
                | None => chunks m
                end in
  if (List.length chunks =? 0)%nat then Normal None
  else
    let sampleRate := AudioBuffer.sampleRate originalBuffer in
    let channels := AudioBuffer.numberOfChannels originalBuffer in
    let totalDuration := totalDuration rnd chunks in
    let totalFrames := Qfloor (rnd (totalDuration * sampleRate)) in
    match createBuffer channels totalFrames sampleRate with
    | NotSupportedError => NotSupportedError
    | Normal combinedBuffer =>
        Normal (Some (fst (fold_left
                             (copyChunk rnd originalBuffer sampleRate channels
                                        totalFrames)
                             chunks (combinedBuffer, 0%Z))))
    end.

(** *** js/audio-cropper.js *)

(** The buffer that [deleteAudioRange] builds. *)
Definition deleteAudioRange_newBuffer {A : Type} `{Zero A} `{Falsy A}
  (rnd : Q -> Q) (audioBuffer : AudioBuffer.t A) (startTime endTime : Q)
  : completion (AudioBuffer.t A) :=
  let sampleRate := AudioBuffer.sampleRate audioBuffer in
  let channels := AudioBuffer.numberOfChannels audioBuffer in
  let startSample := Qfloor (rnd (startTime * sampleRate)) in
  let endSample := Qfloor (rnd (endTime * sampleRate)) in
  let samplesToDelete := (endSample - startSample)%Z in
  let newLength := (Z.of_nat (AudioBuffer.length audioBuffer) - samplesToDelete)%Z in
  match createBuffer channels newLength sampleRate with
  | NotSupportedError => NotSupportedError
  | Normal newBuffer =>
      Normal
        (forRange 0 (Z.of_nat channels)
           (fun channel newBuffer =>
              let oldData := AudioBuffer.getChannelData audioBuffer channel in
              let newData := AudioBuffer.getChannelData newBuffer channel in
              let newData :=
                forRange 0 startSample
                  (fun i newData =>
                     TypedArray.set newData i
                       (TypedArray.ofUndefined (TypedArray.get oldData i)))
                  newData in
              let newData :=
                forRange endSample (Z.of_nat (List.length oldData))
                  (fun i newData =>
                     TypedArray.set newData (i - samplesToDelete)
                       (TypedArray.ofUndefined (TypedArray.get oldData i)))
                  newData in
              AudioBuffer.setChannelData newBuffer channel newData)
           newBuffer)
  end.

(** [deleteAudioRange(startTime, endTime)]. *)
Definition deleteAudioRange {A : Type} `{Zero A} `{Falsy A} (rnd : Q -> Q)
  (startTime endTime : Q) (ed : AudioChunkingEditor.t A)
  : completion (AudioChunkingEditor.t A) :=
  match AudioChunkingEditor.audioBuffer ed with
  | None => Normal ed
  | Some buffer =>
      match deleteAudioRange_newBuffer rnd buffer startTime endTime with
      | NotSupportedError => NotSupportedError
      | Normal newBuffer =>
          let chunkManager :=
            deleteTimeRange rnd startTime endTime
              (AudioChunkingEditor.chunkManager ed) in
          let waveformRenderer :=
            WaveformRenderer.generateWaveform (duration rnd newBuffer)
              (WaveformRenderer.setChunks (ChunkManager.chunks chunkManager)
                 (AudioChunkingEditor.waveformRenderer ed)) in
          let deleteDuration := rnd (endTime - startTime) in
          let pausedAtTime :=
            if (AudioChunkingEditor.pausedAtTime ed >=? startTime)
               && (AudioChunkingEditor.pausedAtTime ed <=? endTime)
            then startTime
            else if AudioChunkingEditor.pausedAtTime ed >? endTime
                 then rnd (AudioChunkingEditor.pausedAtTime ed - deleteDuration)
                 else AudioChunkingEditor.pausedAtTime ed in
          Normal
            (AudioChunkingEditor.mk (Some newBuffer) pausedAtTime
               (AudioChunkingEditor.selection ed) chunkManager
               waveformRenderer pausedAtTime)
      end
  end.

(** [delete()]. *)
Definition delete {A : Type} `{Zero A} `{Falsy A} (rnd : Q -> Q)
  (ed : AudioChunkingEditor.t A) : completion (AudioChunkingEditor.t A) :=
  let selection := AudioChunkingEditor.selection ed in
  if negb (Qeq_bool (fst selection) (snd selection)) then
    let startTime := Qmin (fst selection) (snd selection) in
    let endTime := Qmax (fst selection) (snd selection) in
    match deleteAudioRange rnd startTime endTime ed with
    | NotSupportedError => NotSupportedError
    | Normal ed =>
        Normal
          (AudioChunkingEditor.mk (AudioChunkingEditor.audioBuffer ed)
             (AudioChunkingEditor.seekPosition ed) (0, 0)
             (AudioChunkingEditor.chunkManager ed)
             (AudioChunkingEditor.waveformRenderer ed)
             (AudioChunkingEditor.pausedAtTime ed))
    end
  else
    match ChunkManager.selectedChunk (AudioChunkingEditor.chunkManager ed) with
    | Some selectedChunk =>
        if (List.length
              (ChunkManager.chunks (AudioChunkingEditor.chunkManager ed))
            <=? 1)%nat
        then Normal ed
        else
          match deleteAudioRange rnd (ChunkManager.start selectedChunk)
                  (ChunkManager.end_ selectedChunk) ed with
          | NotSupportedError => NotSupportedError
          | Normal ed =>
              Normal
                (AudioChunkingEditor.mk (AudioChunkingEditor.audioBuffer ed)
                   (AudioChunkingEditor.seekPosition ed)
                   (AudioChunkingEditor.selection ed)
                   (ChunkManager.mkManager
                      (ChunkManager.chunks
                         (AudioChunkingEditor.chunkManager ed))
                      None
                      (ChunkManager.nextChunkId
                         (AudioChunkingEditor.chunkManager ed)))
                   (AudioChunkingEditor.waveformRenderer ed)
                   (AudioChunkingEditor.pausedAtTime ed))
          end
    | None => Normal ed
    end.

(** *** js/audio-player.js *)

(** [createChunkBuffer(audioBuffer, chunk)]. *)
Definition createChunkBuffer {A : Type} `{Zero A} `{Falsy A} (rnd : Q -> Q)
  (audioBuffer : AudioBuffer.t A) (chunk : Chunk)
  : completion (AudioBuffer.t A) :=
  let sampleRate := AudioBuffer.sampleRate audioBuffer in
  let channels := AudioBuffer.numberOfChannels audioBuffer in
  let startFrame := Qfloor (rnd (start chunk * sampleRate)) in
  let endFrame := Qfloor (rnd (end_ chunk * sampleRate)) in
  let frameCount := (endFrame - startFrame)%Z in
  match createBuffer channels frameCount sampleRate with
  | NotSupportedError => NotSupportedError
  | Normal chunkBuffer =>
      Normal
        (forRange 0 (Z.of_nat channels)
           (fun channel chunkBuffer =>
              let oldData := AudioBuffer.getChannelData audioBuffer channel in
              let newData := AudioBuffer.getChannelData chunkBuffer channel in
              AudioBuffer.setChannelData chunkBuffer channel
                (forRange 0 frameCount
                   (fun i newData =>
                      TypedArray.set newData i
                        (TypedArray.orZero
                           (TypedArray.get oldData (startFrame + i))))
                   newData))
           chunkBuffer)
  end.

(** *** The arithmetic of the samples *)

(** What the arithmetic on samples does besides the exact operation:
    [double] is the binary64 number to which the result of a [+], [-], [*]
    or [/] is rounded, [float32] the binary32 number that a store into a
    [Float32Array] keeps; [Math.PI] is a binary64 number, and [Math.cos],
    [Math.sqrt] and [Math.pow] are as accurate as the implementation makes
    them.  A statement is made for every such arithmetic. *)
Record Arithmetic : Type := mkArithmetic {
  double : R -> R;
  float32 : R -> R;
  Math_PI : R;
  Math_cos : R -> R;
  Math_sqrt : R -> R;
  Math_pow : R -> R -> R
}.

(** The arithmetic without rounding. *)
Definition exact : Arithmetic :=
  mkArithmetic (fun x => x) (fun x => x) PI cos sqrt Rpower.

(** A number of the program: a real or NaN.  (No operation modelled here
    overflows, and the statements are made where no divisor is 0, so the
    infinities are left out; the two zeros are one.) *)
Inductive number : Type :=
| Fin (x : R)
| Nan.

#[global] Instance Zero_number : Zero number := Fin 0.

#[global] Instance Falsy_number : Falsy number := {|
  NaN := Nan;
  truthy := fun a => match a with
                     | Fin x => if Req_dec_T x 0 then false else true
                     | Nan => false
                     end
|}.

Section Numbers.

Variable o : Arithmetic.

Local Open Scope R_scope.

(** [a + b], [a * b] and [a / b]: NaN when an operand is NaN. *)
Definition add (a b : number) : number :=
  match a, b with
  | Fin x, Fin y => Fin (double o (x + y))
  | _, _ => Nan
  end.

Definition mul (a b : number) : number :=
  match a, b with
  | Fin x, Fin y => Fin (double o (x * y))
  | _, _ => Nan
  end.

Definition div (a b : number) : number :=
  match a, b with
  | Fin x, Fin y => Fin (double o (x / y))
  | _, _ => Nan
  end.

(** [Math.abs(a)] and [Math.sqrt(a)]. *)
Definition Math_abs (a : number) : number :=
  match a with
  | Fin x => Fin (Rabs x)
  | Nan => Nan
  end.

Definition sqrt_number (a : number) : number :=
  match a with
  | Fin x => if Rlt_dec x 0 then Nan else Fin (Math_sqrt o x)
  | Nan => Nan
  end.

(** [a > b] and [a === 0]: false when an operand is NaN. *)
Definition gt (a b : number) : bool :=
  match a, b with
  | Fin x, Fin y => if Rlt_dec y x then true else false
  | _, _ => false
  end.

Definition isZero (a : number) : bool :=
  match a with
  | Fin x => if Req_dec_T x 0 then true else false
  | Nan => false
  end.

(** [Math.max(-1, Math.min(1, a))]: NaN for NaN. *)
Definition clamp (a : number) : number :=
  match a with
  | Fin x => Fin (Rmax (-1) (Rmin 1 x))
  | Nan => Nan
  end.

(** The value a [Float32Array] holds after the store of [a]. *)
Definition store (a : number) : number :=
  match a with
  | Fin x => Fin (float32 o x)
  | Nan => Nan
  end.

End Numbers.

(** *** js/audio-cropper.js: the fade *)

(** The buffer that [applyFadeEffect] builds.  Reading [oldData[i]] beyond
    the array gives [undefined], which the multiplication turns into NaN;
    the store of it falls beyond the new array and is dropped. *)
Definition applyFadeEffect_newBuffer (o : Arithmetic) (rnd : Q -> Q)
  (audioBuffer : AudioBuffer.t number) (startTime endTime : Q) (type : string)
  : completion (AudioBuffer.t number) :=
  let sampleRate := AudioBuffer.sampleRate audioBuffer in
  let channels := AudioBuffer.numberOfChannels audioBuffer in
  let startSample := Qfloor (rnd (startTime * sampleRate)) in
  let endSample := Qfloor (rnd (endTime * sampleRate)) in
  let fadeLength := (endSample - startSample)%Z in
  match createBuffer channels (Z.of_nat (AudioBuffer.length audioBuffer))
          sampleRate with
  | NotSupportedError => NotSupportedError
  | Normal newBuffer =>
      Normal
        (forRange 0 (Z.of_nat channels)
           (fun channel newBuffer =>
              let oldData := AudioBuffer.getChannelData audioBuffer channel in
              let newData := AudioBuffer.getChannelData newBuffer channel in
              let newData :=
                forRange 0 (Z.of_nat (List.length oldData))
                  (fun i newData =>
                     TypedArray.set newData i
                       (TypedArray.ofUndefined (TypedArray.get oldData i)))
                  newData in
              let newData :=
                forRange startSample endSample
                  (fun i newData =>
                     let fadeProgress :=
                       double o (IZR (i - startSample) / IZR fadeLength)%R in
                     let fadeMultiplier :=
                       if String.eqb type "in" then fadeProgress
                       else double o (1 - fadeProgress)%R in
                     let fadeMultiplier :=
                       double o
                         (0.5 * double o
                                  (1 - Math_cos o
                                         (double o
                                            (fadeMultiplier * Math_PI o))))%R in
                     TypedArray.set newData i
                       (store o
                          (mul o
                             (TypedArray.ofUndefined (TypedArray.get oldData i))
                             (Fin fadeMultiplier))))
                  newData in
              AudioBuffer.setChannelData newBuffer channel newData)
           newBuffer)
  end.

(** [applyFadeEffect(startTime, endTime, type)]. *)
Definition applyFadeEffect (o : Arithmetic) (rnd : Q -> Q)
  (startTime endTime : Q) (type : string)
  (ed : AudioChunkingEditor.t number)
  : completion (AudioChunkingEditor.t number) :=
  match AudioChunkingEditor.audioBuffer ed with
  | None => Normal ed
  | Some buffer =>
      match applyFadeEffect_newBuffer o rnd buffer startTime endTime type with
      | NotSupportedError => NotSupportedError
      | Normal newBuffer =>
          let cm := AudioChunkingEditor.chunkManager ed in
          Normal
            (AudioChunkingEditor.mk (Some newBuffer)
               (AudioChunkingEditor.seekPosition ed) (0, 0)
               (ChunkManager.mkManager (ChunkManager.chunks cm) None
                  (ChunkManager.nextChunkId cm))
               (WaveformRenderer.generateWaveform (duration rnd newBuffer)
                  (AudioChunkingEditor.waveformRenderer ed))
               (AudioChunkingEditor.pausedAtTime ed))
      end
  end.

(** *** js/utils.js: the normalisation *)

(** [normalizeAudio(audioBuffer, startTime, endTime, audioContext,
    targetLevel = -3)]; [None] for [targetLevel] is the omitted argument.
    A sample read beyond the array is [undefined], which [Math.abs] and the
    multiplication turn into NaN. *)
Definition normalizeAudio (o : Arithmetic) (rnd : Q -> Q)
  (audioBuffer : AudioBuffer.t number) (startTime endTime : Q)
  (targetLevel : option R) : completion (AudioBuffer.t number) :=
  let targetLevel := match targetLevel with
                     | Some level => level
                     | None => (-3)%R
                     end in
  let sampleRate := AudioBuffer.sampleRate audioBuffer in
  let channels := Z.of_nat (AudioBuffer.numberOfChannels audioBuffer) in
  let startSample := Qfloor (rnd (startTime * sampleRate)) in
  let endSample := Qfloor (rnd (endTime * sampleRate)) in
  match createBuffer (AudioBuffer.numberOfChannels audioBuffer)
          (Z.of_nat (AudioBuffer.length audioBuffer)) sampleRate with
  | NotSupportedError => NotSupportedError
  | Normal newBuffer =>
      let newBuffer :=
        forRange 0 channels
          (fun channel newBuffer =>
             let oldData := AudioBuffer.getChannelData audioBuffer channel in
             let newData := AudioBuffer.getChannelData newBuffer channel in
             AudioBuffer.setChannelData newBuffer channel
               (forRange 0 (Z.of_nat (List.length oldData))
                  (fun i newData =>
                     TypedArray.set newData i
                       (TypedArray.ofUndefined (TypedArray.get oldData i)))
                  newData))
          newBuffer in
      let '(sumSquares, sampleCount, maxAmplitude) :=
        forRange 0 channels
          (fun channel acc =>
             let channelData :=
               AudioBuffer.getChannelData audioBuffer channel in
             forRange startSample endSample
               (fun i '(sumSquares, sampleCount, maxAmplitude) =>
                  let sample :=
                    TypedArray.ofUndefined (TypedArray.get channelData i) in
                  let amplitude := Math_abs sample in
                  (add o sumSquares (mul o sample sample),
                   (sampleCount + 1)%Z,
                   if gt amplitude maxAmplitude then amplitude
                   else maxAmplitude))
               acc)
          (Fin 0, 0%Z, Fin 0) in
      if isZero maxAmplitude || (sampleCount =? 0)%Z then Normal newBuffer
      else
        let rms :=
          sqrt_number o (div o sumSquares (Fin (IZR sampleCount))) in
        let targetLinear :=
          Fin (Math_pow o 10 (double o (targetLevel / 20)%R)) in
        let normalizationFactor := div o targetLinear rms in
        let wouldBePeak := mul o maxAmplitude normalizationFactor in
        let normalizationFactor :=
          if gt wouldBePeak targetLinear then div o targetLinear maxAmplitude
          else normalizationFactor in
        let maxGain := Fin (Math_pow o 10 (double o (30 / 20)%R)) in
        let normalizationFactor :=
          if gt normalizationFactor maxGain then maxGain
          else normalizationFactor in
        Normal
          (forRange 0 channels
             (fun channel newBuffer =>
                let newData := AudioBuffer.getChannelData newBuffer channel in
                AudioBuffer.setChannelData newBuffer channel
                  (forRange startSample endSample
                     (fun i newData =>
                        let newData :=
                          TypedArray.set newData i
                            (store o
                               (mul o
                                  (TypedArray.ofUndefined
                                     (TypedArray.get newData i))
                                  normalizationFactor)) in
                        TypedArray.set newData i
                          (store o
                             (clamp
                                (TypedArray.ofUndefined
                                   (TypedArray.get newData i)))))
                     newData))
             newBuffer)
  end.

End Machine.

(** * The vocabulary of the statements *)

(** ** Chunk lists *)

Section ChunkVocabulary.

Import ChunkManager.

(** The duration a chunk keeps after the deletion; a removed chunk keeps
    none. *)
Definition remaining (o : option Chunk) : Q :=
  match o with
  | Some c => end_ c - start c
  | None => 0
  end.

(** The length of the part of a chunk that lies in [[s, e)]. *)
Definition overlap (s e : Q) (c : Chunk) : Q :=
  Qmax 0 (Qmin e (end_ c) - Qmax s (start c)).

Fixpoint sumOver (f : Chunk -> Q) (cs : list Chunk) : Q :=
  match cs with
  | [] => 0
  | c :: cs' => f c + sumOver f cs'
  end.

(** [splitTime] lies strictly inside the chunk. *)
Definition strictly_inside (splitTime : Q) (c : Chunk) : Prop :=
  start c < splitTime /\ splitTime < end_ c.

(** The chunk list of the scenario: a 10 second buffer split once at 3. *)
Definition scenario : t :=
  mkManager [mkChunk 0 3 1; mkChunk 3 10 2] None 3.

End ChunkVocabulary.

(** ** Frames *)

Section FrameVocabulary.

Context {A : Type} {ZeroA : Zero A} {FalsyA : Falsy A}.

Import TypedArray ChunkManager.

(** The number of frames of a chunk: [endFrame - startFrame], each the
    floor of the rounded product of a time and the sample rate. *)
Definition chunkFrames (rnd : Q -> Q) (sampleRate : Q) (chunk : Chunk) : Z :=
  let startFrame := Qfloor (rnd (start chunk * sampleRate)) in
  let endFrame := Qfloor (rnd (end_ chunk * sampleRate)) in
  (endFrame - startFrame)%Z.

(** The frames [[startFrame, endFrame)] of a chunk as they are read from a
    channel ([oldData[k] || 0]). *)
Definition framesOf (rnd : Q -> Q) (sampleRate : Q) (oldData : list A)
  (chunk : Chunk) : list A :=
  map (fun k => orZero (get oldData k))
      (zrange (Qfloor (rnd (start chunk * sampleRate)))
              (Qfloor (rnd (end_ chunk * sampleRate)))).

(** The frame ranges of the chunks placed end to end, in list order. *)
Definition concatFrames (rnd : Q -> Q) (sampleRate : Q) (oldData : list A)
  (chunks : list Chunk) : list A :=
  flat_map (framesOf rnd sampleRate oldData) chunks.

(** The frame counts of the chunks, added up. *)
Fixpoint sumFrames (rnd : Q -> Q) (sampleRate : Q) (chunks : list Chunk) : Z :=
  match chunks with
  | [] => 0
  | chunk :: rest =>
      (chunkFrames rnd sampleRate chunk + sumFrames rnd sampleRate rest)%Z
  end.

(** The state of the copy loop of [createCombinedBuffer] after the chunks
    [done] have been processed. *)
Definition combined_upto (rnd : Q -> Q) (originalBuffer : AudioBuffer.t A)
  (sampleRate : Q) (channels : nat) (totalFrames : Z) (done : list Chunk)
  (st : AudioBuffer.t A * Z) : Prop :=
  AudioBuffer.sampleRate (fst st) = sampleRate /\
  AudioBuffer.length (fst st) = Z.to_nat totalFrames /\
  AudioBuffer.numberOfChannels (fst st) = channels /\
  snd st = sumFrames rnd sampleRate done /\
  forall channel, (0 <= channel < Z.of_nat channels)%Z ->
    List.length (AudioBuffer.getChannelData (fst st) channel)
    = Z.to_nat totalFrames /\
    forall j, (0 <= j < totalFrames)%Z ->
      get (AudioBuffer.getChannelData (fst st) channel) j
      = Some (nth (Z.to_nat j)
                (concatFrames rnd sampleRate
                   (AudioBuffer.getChannelData originalBuffer channel) done)
                zero).

End FrameVocabulary.

(** ** Signals *)

Section SignalVocabulary.

Local Open Scope R_scope.

(** [(i - startSample) / (endSample - startSample)]. *)
Definition fadeProgress (startSample endSample i : Z) : R :=
  IZR (i - startSample) / IZR (endSample - startSample).

(** The cosine ease [0.5 * (1 - cos(raw * PI))]. *)
Definition fadeCurve (raw : R) : R := 0.5 * (1 - cos (raw * PI)).

(** The multiplier the source applies at frame [i]. *)
Definition fadeMultiplier (type : string) (startSample endSample i : Z) : R :=
  fadeCurve (if String.eqb type "in" then fadeProgress startSample endSample i
             else 1 - fadeProgress startSample endSample i).

(** The peak absolute value. *)
Definition peak (samples : list R) : R :=
  fold_right (fun x m => Rmax (Rabs x) m) 0 samples.

End SignalVocabulary.

(** ** Example states *)

Section ExampleStates.

Import AudioChunkingEditor.

(** A mono buffer of four frames at 2 frames per second, loaded in an
    editor that is paused at 1.75 s. *)
Definition demoBuffer : AudioBuffer.t f32 :=
  AudioBuffer.mk 2 4 [[Num 1; Num 2; Num 3; Num 4]].

Definition demoEditor : AudioChunkingEditor.t f32 :=
  mk (Some demoBuffer) 0 (0, 0)
     (ChunkManager.initializeChunks 2 ChunkManager.new)
     (WaveformRenderer.mk [ChunkManager.mkChunk 0 2 0] (Some 2) 1 0 800)
     (7 # 4).

(** The editor of four frames after a deletion that removes no frame
    (0.6 s to 0.9 s lies within frame 1) but shortens the chunk to 1.7 s. *)
Definition shortenedEditor : AudioChunkingEditor.t f32 :=
  AudioChunkingEditor.deleteAudioRange (3 # 5) (9 # 10) demoEditor.

(** A mono buffer of four frames of constant amplitude 0.5 at 2 frames per
    second, and an editor that holds it. *)
Definition toneBuffer : AudioBuffer.t R :=
  AudioBuffer.mk 2 4 [[0.5; 0.5; 0.5; 0.5]%R].

Definition toneEditor : AudioChunkingEditor.t R :=
  mk (Some toneBuffer) 0 (0, 2)
     (ChunkManager.initializeChunks 2 ChunkManager.new)
     (WaveformRenderer.mk [ChunkManager.mkChunk 0 2 0] (Some 2) 1 0 800)
     0.

End ExampleStates.

(** ** Chunk lists across a deletion and the renderer's layout *)

Section LayoutVocabulary.

Import ChunkManager WaveformRenderer.

(** Where a time goes when [[s, e)] is cut out. *)
Definition remapTime (s e x : Q) : Q :=
  if x <=? s then x else if x <=? e then s else x - (e - s).


(** The part of a chunk inside the visible range is not empty. *)
Definition clipped_nonempty (visibleStart visibleEnd : Q) (c : Chunk) : Prop :=
  Qmax (start c) visibleStart < Qmin (end_ c) visibleEnd.

(** The chunk contains the time, after clipping to the visible range. *)
Definition owns (visibleStart visibleEnd time : Q) (c : Chunk) : Prop :=
  Qmax (start c) visibleStart <= time /\ time <= Qmin (end_ c) visibleEnd.

(** The chunks the two conversions lay out: those that meet the visible
    range. *)
Definition visibleChunksOf (r : WaveformRenderer.t) : list Chunk :=
  let '(visibleStart, visibleEnd) := getVisibleTimeRange r in
  filter (fun chunk =>
            (end_ chunk >? visibleStart) && (start chunk <? visibleEnd))
         (WaveformRenderer.chunks r).

(** The canvas is wider than the gaps drawn between the visible chunks. *)
Definition room_for_gaps (r : WaveformRenderer.t) : Prop :=
  Qmax 0 (inject_Z (Z.of_nat (List.length (visibleChunksOf r))) - 1) * gapWidth
  < canvas_width r.

(** The chunk lies within the range and is not empty. *)
Definition shown_whole (visibleStart visibleEnd : Q) (c : Chunk) : Prop :=
  visibleStart <= start c /\ start c < end_ c /\ end_ c <= visibleEnd.

End LayoutVocabulary.

(** ** The editor *)

Section EditorVocabulary.

Import AudioChunkingEditor.

(** The editor with [this.selection] set to a given pair. *)
Definition withSelection {A : Type} (sel : Q * Q)
  (ed : AudioChunkingEditor.t A)
  : AudioChunkingEditor.t A :=
  mk (audioBuffer ed) (seekPosition ed) sel (chunkManager ed)
     (waveformRenderer ed) (pausedAtTime ed).

(** The renderer shows the chunk manager's chunks and knows the duration of
    the loaded buffer. *)
Definition in_sync {A : Type} (ed : AudioChunkingEditor.t A) : Prop :=
  WaveformRenderer.chunks (waveformRenderer ed)
  = ChunkManager.chunks (chunkManager ed) /\
  forall buffer,
    audioBuffer ed = Some buffer ->
    WaveformRenderer.audioBuffer_duration (waveformRenderer ed)
    = Some (AudioBuffer.duration buffer).

End EditorVocabulary.

(** ** The undo history *)

Section HistoryVocabulary.

Import HistoryManager.

(** The history [saveState] leaves, before the oldest entry is dropped. *)
Definition extended {Snapshot : Type} (copySnapshot : Snapshot -> Snapshot)
  (state : Entry Snapshot) (action : string) (now : Z)
  (h : HistoryManager.t Snapshot) : list (Entry Snapshot) :=
  firstn (Z.to_nat (currentIndex h + 1)) (history h)
  ++ [mkEntry (copySnapshot (snapshot state)) (Some action) (Some now)].

End HistoryVocabulary.

(** ** The player *)

Section PlayerVocabulary.

Import TypedArray ChunkManager AudioPlayer.

(** The frame count of the buffer that [playAllChunks] asks the host
    for. *)
Definition playAllFrames {A : Type} (audioBuffer : AudioBuffer.t A)
  (chunks : list Chunk) (p : AudioPlayer.t A) : Z :=
  let sortedChunks := sortByStart chunks in
  let '(startChunkIndex, startOffset, _) :=
    findStart (pausedAtTime p) 0 sortedChunks in
  combinedChunksFrames audioBuffer sortedChunks startChunkIndex startOffset.

(** The order of [[...chunks].sort((a, b) => a.start - b.start)]. *)
Definition byStart (a b : Chunk) : Prop := start a <= start b.

End PlayerVocabulary.

(** ** The WAV file *)

Section WavVocabulary.

Import TypedArray WavExport.

(** The 16-bit sample written for a sample of the buffer: the sample
    clamped to [-1, 1], scaled by 32767 and rounded; 0 for NaN. *)
Definition quantize (x : f32) : Z :=
  match x with
  | Num q => Qfloor (Qmax (-1) (Qmin 1 q) * 32767 + (1 # 2))
  | NotANumber => 0
  end.

(** The signed 16-bit integer that two bytes hold, the low byte first. *)
Definition signed16 (lo hi : Z) : Z :=
  let u := (lo + 256 * hi)%Z in
  if (u <? 32768)%Z then u else (u - 65536)%Z.

(** Little-endian fields and character codes. *)
Definition le16 (value : Z) : list Z := [byteOf value 0; byteOf value 1].

Definition le32 (value : Z) : list Z :=
  [byteOf value 0; byteOf value 1; byteOf value 2; byteOf value 3].

Definition asciiCodes (s : string) : list Z :=
  map (fun ch => Z.of_nat (Ascii.nat_of_ascii ch)) (list_ascii_of_string s).

(** The sample of frame [i] of a channel as the export reads it. *)
Definition sampleAt (buffer : AudioBuffer.t f32) (i channel : Z) : f32 :=
  ofUndefined (get (AudioBuffer.getChannelData buffer channel) i).

(** The state of the sample loop after [k] samples: the offset has moved
    by two bytes per sample, the size of the view and its first 44 bytes
    are as before, and the samples written so far are in place, frame by
    frame and channel by channel. *)
Definition written (buffer : AudioBuffer.t f32) (view0 : list Z) (k : Z)
  (st : list Z * Z) : Prop :=
  let channels := Z.of_nat (AudioBuffer.numberOfChannels buffer) in
  snd st = (44 + 2 * k)%Z /\
  List.length (fst st) = List.length view0 /\
  (forall j, (0 <= j < 44)%Z -> get (fst st) j = get view0 j) /\
  forall k', (0 <= k' < k)%Z ->
    get (fst st) (44 + 2 * k')
    = Some (byteOf (quantize (sampleAt buffer (k' / channels) (k' mod channels))) 0) /\
    get (fst st) (44 + 2 * k' + 1)
    = Some (byteOf (quantize (sampleAt buffer (k' / channels) (k' mod channels))) 1).

(** The 44 bytes of the header, field by field. *)
Definition wavHeader (buffer : AudioBuffer.t f32) : list Z :=
  let length := Z.of_nat (AudioBuffer.length buffer) in
  let numberOfChannels := Z.of_nat (AudioBuffer.numberOfChannels buffer) in
  let blockAlign := (numberOfChannels * 2)%Z in
  let dataSize := (length * blockAlign)%Z in
  asciiCodes "RIFF" ++ le32 (36 + dataSize)
  ++ asciiCodes "WAVE"
  ++ asciiCodes "fmt " ++ le32 16 ++ le16 1 ++ le16 numberOfChannels
  ++ le32 (toInteger (AudioBuffer.sampleRate buffer))
  ++ le32 (toInteger (AudioBuffer.sampleRate buffer * inject_Z blockAlign))
  ++ le16 blockAlign ++ le16 16
  ++ asciiCodes "data" ++ le32 dataSize.

End WavVocabulary.

(** ** Further example states *)

Section FurtherExampleStates.

Import ChunkManager.

(** A renderer that shows 4 s in two chunks on a canvas of 104 pixels. *)
Definition twoChunkRenderer : WaveformRenderer.t :=
  WaveformRenderer.mk [mkChunk 0 2 1; mkChunk 2 4 2] (Some 4) 1 0 104.

(** The two chunks at zoom level 2, scrolled past the end of the buffer. *)
Definition zoomedRenderer : WaveformRenderer.t :=
  WaveformRenderer.mk [mkChunk 0 2 1; mkChunk 2 4 2] (Some 4) 2 5 208.

(** The chunk manager whose chunks [twoChunkRenderer] shows. *)
Definition twoChunkManager : ChunkManager.t :=
  mkManager [mkChunk 0 2 1; mkChunk 2 4 2] None 3.


(** A history of integer snapshots with one saved entry, and one with two
    entries after an undo. *)
Definition loadedHistory : HistoryManager.t Z :=
  HistoryManager.mk
    [HistoryManager.mkEntry 7%Z (Some "load"%string) (Some 100%Z)] 0.

Definition undoneHistory : HistoryManager.t Z :=
  HistoryManager.mk
    [HistoryManager.mkEntry 7%Z (Some "load"%string) (Some 100%Z);
     HistoryManager.mkEntry 8%Z (Some "split"%string) (Some 200%Z)] 0.


(** A mono buffer of three frames: a sample above 1, a NaN and -0.5. *)
Definition clippingBuffer : AudioBuffer.t f32 :=
  AudioBuffer.mk 2 3 [[Num 2; NotANumber; Num (- (1 # 2))]].

End FurtherExampleStates.

(** ** Chunk lists under rounding *)

Section RoundingVocabulary.

Import ChunkManager.

(** The total covered duration: the sum of [end - start] over the
    chunks. *)
Definition covered (cs : list Chunk) : Q :=
  sumOver (fun c => end_ c - start c) cs.

(** The same interval with the same id. *)
Definition same_chunk (c c' : Chunk) : Prop :=
  start c == start c' /\ end_ c == end_ c' /\ id c = id c'.

(** The subtractions that [deleteTimeRange(s, e)] performs on a chunk give
    the exact differences: a chunk that starts at or after [e] has both
    ends moved, a chunk that ends after [e] has its end moved. *)
Definition exact_shift (rnd : Q -> Q) (s e : Q) (c : Chunk) : Prop :=
  (e <= start c ->
   rnd (start c - rnd (e - s)) == start c - (e - s) /\
   rnd (end_ c - rnd (e - s)) == end_ c - (e - s)) /\
  (e < end_ c -> rnd (end_ c - rnd (e - s)) == end_ c - (e - s)).

(** A 20 second buffer split at 3.86 and at 8.88, the literals being the
    doubles nearest to them. *)
Definition hundredthsManager : ChunkManager.t :=
  mkManager
    [mkChunk 0 (Double.round (386 # 100)) 1;
     mkChunk (Double.round (386 # 100)) (Double.round (888 # 100)) 2;
     mkChunk (Double.round (888 # 100)) 20 3]
    None 4.

(** A 0.9 second buffer split at 0.2. *)
Definition tenthsManager : ChunkManager.t :=
  mkManager
    [mkChunk 0 (Double.round (2 # 10)) 1;
     mkChunk (Double.round (2 # 10)) (Double.round (9 # 10)) 2]
    None 3.

(** The state a call leaves: the new one, or the old one when the call
    ended with an exception. *)
Definition stateAfter {S : Type} (call : Machine.completion S) (before : S) : S :=
  match call with
  | Machine.Normal after => after
  | Machine.NotSupportedError => before
  end.

(** Twelve frames at 2 frames per second in an editor that has placed the
    seek position at 3 s. *)
Definition twelveFrames : AudioBuffer.t f32 :=
  AudioBuffer.mk 2 12
    [[Num 10; Num 11; Num 12; Num 13; Num 14; Num 15;
      Num 16; Num 17; Num 18; Num 19; Num 20; Num 21]].

Definition twelveEditor : AudioChunkingEditor.t f32 :=
  AudioChunkingEditor.mk (Some twelveFrames) 3 (0, 0)
    (initializeChunks 6 ChunkManager.new)
    (WaveformRenderer.mk [mkChunk 0 6 0] (Some 6) 1 0 800)
    3.

(** [delete()] with the range selection set to [[0.45, 1.05)]. *)
Definition deleteTenths (ed : AudioChunkingEditor.t f32)
  : AudioChunkingEditor.t f32 :=
  let selected :=
    withSelection (Double.round (45 # 100), Double.round (105 # 100)) ed in
  stateAfter (Machine.delete Double.round selected) selected.

(** The editor after a split at the seek position and two such deletions:
    each removes two frames, one second of audio, and shortens the chunks
    by 0.6 s, so that the second chunk ends beyond the buffer. *)
Definition trimmedEditor : AudioChunkingEditor.t f32 :=
  deleteTenths (deleteTenths (AudioChunkingEditor.splitAtPosition twelveEditor)).

End RoundingVocabulary.

(** ** Samples under rounding *)

Section RoundedSignalVocabulary.

Import TypedArray.

Local Open Scope R_scope.

(** The multiplier that [applyFadeEffect] applies at frame [i], as the
    program computes it: every operation is rounded to a double. *)
Definition roundedFadeMultiplier (o : Machine.Arithmetic) (type : string)
  (startSample endSample i : Z) : R :=
  let fadeProgress :=
    Machine.double o (IZR (i - startSample) / IZR (endSample - startSample)) in
  let raw :=
    if String.eqb type "in" then fadeProgress
    else Machine.double o (1 - fadeProgress) in
  Machine.double o
    (0.5 * Machine.double o
             (1 - Machine.Math_cos o (Machine.double o (raw * Machine.Math_PI o)))).

(** The sample that [applyFadeEffect] stores for the sample [a] at frame
    [i]. *)
Definition faded (o : Machine.Arithmetic) (type : string)
  (startSample endSample i : Z) (a : Machine.number) : Machine.number :=
  Machine.store o
    (Machine.mul o a
       (Machine.Fin (roundedFadeMultiplier o type startSample endSample i))).

(** A number that a [Float32Array] holds: neither rounding changes it. *)
Definition storable (o : Machine.Arithmetic) (x : R) : Prop :=
  Machine.double o x = x /\ Machine.float32 o x = x.

(** What the ends of a fade need of the arithmetic: 0, 1, 2 and [Math.PI]
    are doubles, 0 is a binary32 number, [Math.cos(0)] is 1 and
    [Math.cos(Math.PI)] is -1. *)
Definition exact_at_the_ends (o : Machine.Arithmetic) : Prop :=
  Machine.double o 0 = 0 /\ Machine.double o 1 = 1 /\
  Machine.double o 2 = 2 /\ Machine.float32 o 0 = 0 /\
  Machine.double o (Machine.Math_PI o) = Machine.Math_PI o /\
  Machine.Math_cos o 0 = 1 /\
  Machine.Math_cos o (Machine.Math_PI o) = -1.

(** How accurate an arithmetic is on the numbers of a fade: on [[-8, 8]]
    a rounding to a double moves a number by at most [u] and a rounding to
    a binary32 number by at most [v]; [Math.PI] is within [u] of the real
    number, and [Math.cos] within [u] of the cosine.  (On that interval
    the roundings to binary64 and to binary32 are within [2^-51] and
    [2^-22]; how near [Math.cos] is to the cosine is the implementation's
    matter.) *)
Definition accurate (o : Machine.Arithmetic) (u v : R) : Prop :=
  0 <= u <= 1 / 16 /\ 0 <= v /\
  (forall x, Rabs x <= 8 -> Rabs (Machine.double o x - x) <= u) /\
  (forall x, Rabs x <= 8 -> Rabs (Machine.float32 o x - x) <= v) /\
  Rabs (Machine.Math_PI o - PI) <= u /\
  (forall x, Rabs x <= 8 -> Rabs (Machine.Math_cos o x - cos x) <= u).

(** The samples of the range [[startSample, endSample)] as the analysis
    loop of [normalizeAudio] reads them, all channels one after the
    other. *)
Definition readSamples (buffer : AudioBuffer.t Machine.number)
  (startSample endSample : Z) : list Machine.number :=
  flat_map (fun data => map (fun i => ofUndefined (get data i))
                            (zrange startSample endSample))
           (AudioBuffer.channelData buffer).

(** The body of the analysis loop of [normalizeAudio], on one sample. *)
Definition analyse (o : Machine.Arithmetic)
  (acc : Machine.number * Z * Machine.number) (sample : Machine.number)
  : Machine.number * Z * Machine.number :=
  let '(sumSquares, sampleCount, maxAmplitude) := acc in
  let amplitude := Machine.Math_abs sample in
  (Machine.add o sumSquares (Machine.mul o sample sample),
   (sampleCount + 1)%Z,
   if Machine.gt amplitude maxAmplitude then amplitude else maxAmplitude).

(** The sum of the squares as the program accumulates it. *)
Definition roundedSumOfSquares (o : Machine.Arithmetic) (samples : list R) : R :=
  fold_left (fun sum x => Machine.double o (sum + Machine.double o (x * x)))
            samples 0.

(** [Math.sqrt(sumSquares / sampleCount)]. *)
Definition roundedRms (o : Machine.Arithmetic) (samples : list R) : R :=
  Machine.Math_sqrt o
    (Machine.double o (roundedSumOfSquares o samples
                       / IZR (Z.of_nat (List.length samples)))).

(** The gain applied for [targetDb]: the RMS gain, replaced by the peak
    gain when the RMS gain would take the peak above the target, and then
    capped at [10^(30/20)]; every operation as the program computes it. *)
Definition roundedGain (o : Machine.Arithmetic) (targetDb : R)
  (samples : list R) : R :=
  let targetLinear :=
    Machine.Math_pow o 10 (Machine.double o (targetDb / 20)) in
  let candidate := Machine.double o (targetLinear / roundedRms o samples) in
  let chosen :=
    if Rlt_dec targetLinear (Machine.double o (peak samples * candidate))
    then Machine.double o (targetLinear / peak samples)
    else candidate in
  let maxGain := Machine.Math_pow o 10 (Machine.double o (30 / 20)) in
  if Rlt_dec maxGain chosen then maxGain else chosen.

(** The sample that [normalizeAudio] stores for the sample [a] under the
    gain [g]: the rounded product is stored, read back, clipped to
    [[-1, 1]] and stored again. *)
Definition normalized (o : Machine.Arithmetic) (g : R) (a : Machine.number)
  : Machine.number :=
  Machine.store o
    (Machine.clamp (Machine.store o (Machine.mul o a (Machine.Fin g)))).

(** Four frames of constant amplitude 0.5 at 2 frames per second, and an
    editor that holds them. *)
Definition toneNumbers : AudioBuffer.t Machine.number :=
  AudioBuffer.mk 2%Q 4
    [[Machine.Fin 0.5; Machine.Fin 0.5; Machine.Fin 0.5; Machine.Fin 0.5]].

Definition toneNumbersEditor : AudioChunkingEditor.t Machine.number :=
  AudioChunkingEditor.mk (Some toneNumbers) 0%Q (0%Q, 2%Q)
    (ChunkManager.initializeChunks 2%Q ChunkManager.new)
    (WaveformRenderer.mk [ChunkManager.mkChunk 0%Q 2%Q 0%Z] (Some 2%Q)
       1%Q 0%Q 800%Q)
    0%Q.

(** Two frames of amplitude 0.5 at 1 frame per second. *)
Definition twoHalves : AudioBuffer.t Machine.number :=
  AudioBuffer.mk 1%Q 2 [[Machine.Fin 0.5; Machine.Fin 0.5]].

End RoundedSignalVocabulary.

(** * Properties *)

(** ** Comparisons *)

Lemma Qleb_spec (x y : Q) : reflect (x <= y) (x <=? y).
Proof.
  unfold Qleb. destruct (Qle_bool x y) eqn:E; constructor.
  - now apply Qle_bool_iff.
  - intro H. apply Qle_bool_iff in H. congruence.
Qed.

Lemma Qltb_spec (x y : Q) : reflect (x < y) (x <? y).
Proof.
  unfold Qltb. destruct (Qle_bool y x) eqn:E; constructor; simpl.
  - apply Qle_bool_iff in E. lra.
  - apply Qnot_le_lt. intro H. apply Qle_bool_iff in H. congruence.
Qed.

Lemma Qgeb_spec (x y : Q) : reflect (y <= x) (x >=? y).
Proof. exact (Qleb_spec y x). Qed.

Lemma Qgtb_spec (x y : Q) : reflect (y < x) (x >? y).
Proof. exact (Qltb_spec y x). Qed.

(** Case analysis on the comparisons of the goal, outermost test first. *)
Ltac js_case :=
  match goal with
  | |- context [ if ?b then _ else _ ] =>
      match b with
      | context [ ?x <=? ?y ] => destruct (Qleb_spec x y)
      | context [ ?x <? ?y ] => destruct (Qltb_spec x y)
      | context [ ?x >=? ?y ] => destruct (Qgeb_spec x y)
      | context [ ?x >? ?y ] => destruct (Qgtb_spec x y)
      end
  end; cbn [andb orb negb].

Ltac js_cases := repeat js_case.

Ltac Qmax_case x y :=
  let S := fresh "S" in let m := fresh "m" in let Hm := fresh "Hm" in
  pose proof (Q.max_spec x y) as S;
  remember (Qmax x y) as m eqn:Hm in *; clear Hm;
  destruct S as [[? ?] | [? ?]].

Ltac Qmin_case x y :=
  let S := fresh "S" in let m := fresh "m" in let Hm := fresh "Hm" in
  pose proof (Q.min_spec x y) as S;
  remember (Qmin x y) as m eqn:Hm in *; clear Hm;
  destruct S as [[? ?] | [? ?]].

(** Case analysis on every [Qmax] and [Qmin] of the goal and the context. *)
Ltac Qminmax :=
  repeat match goal with
  | |- context [ Qmax ?x ?y ] => Qmax_case x y
  | |- context [ Qmin ?x ?y ] => Qmin_case x y
  | _ : context [ Qmax ?x ?y ] |- _ => Qmax_case x y
  | _ : context [ Qmin ?x ?y ] |- _ => Qmin_case x y
  end.

(** ** Lists *)

Lemma In_filterNull_map {A B : Type} (f : A -> option B) (l : list A) (y : B) :
  In y (filterNull (map f l)) <-> exists x, In x l /\ f x = Some y.
Proof.
  induction l as [|a l IH]; simpl.
  - split; [tauto | intros (x & [] & _)].
  - destruct (f a) eqn:E; simpl; rewrite IH; split.
    + intros [-> | (x & Hx & Hf)]; eauto.
    + intros (x & [-> | Hx] & Hf); [left; congruence | right; eauto].
    + intros (x & Hx & Hf); eauto.
    + intros (x & [-> | Hx] & Hf); [congruence | eauto].
Qed.

Section FindIndex.

Context {A : Type} (pred : A -> bool).

Lemma findIndex_Some (l : list A) (i : nat) :
  ChunkManager.findIndex pred l = Some i ->
  exists before x after,
    l = before ++ x :: after /\ List.length before = i /\ pred x = true /\
    (forall y, In y before -> pred y = false).
Proof.
  revert i. induction l as [|a l IH]; simpl; intros i H; [discriminate|].
  destruct (pred a) eqn:Ea.
  - injection H as <-. exists [], a, l. repeat split; auto. intros y [].
  - destruct (ChunkManager.findIndex pred l) as [j|] eqn:Ej; [|discriminate].
    injection H as <-.
    destruct (IH j eq_refl) as (before & x & after & -> & Hlen & Hx & Hb).
    exists (a :: before), x, after. simpl. repeat split; auto.
    intros y [<- | Hy]; auto.
Qed.

Lemma findIndex_None (l : list A) :
  ChunkManager.findIndex pred l = None -> forall y, In y l -> pred y = false.
Proof.
  induction l as [|a l IH]; simpl; intros H y Hy; [tauto|].
  destruct (pred a) eqn:Ea; [discriminate|].
  destruct (ChunkManager.findIndex pred l); [discriminate|].
  destruct Hy as [<- | Hy]; auto.
Qed.

Lemma nth_error_middle (before after : list A) (x : A) :
  nth_error (before ++ x :: after) (List.length before) = Some x.
Proof. induction before; simpl; auto. Qed.

Lemma splice1_middle (before after : list A) (x a b : A) :
  ChunkManager.splice1 (before ++ x :: after) (List.length before) a b
  = before ++ a :: b :: after.
Proof.
  unfold ChunkManager.splice1.
  rewrite firstn_app, firstn_all, Nat.sub_diag, app_nil_r. do 3 f_equal.
  induction before; simpl; auto.
Qed.

End FindIndex.

(** ** The chunk model *)

Section ChunkModel.

Import ChunkManager.

Lemma fold_duration_acc (cs : list Chunk) (acc : Q) :
  fold_left (fun sum chunk => sum + (end_ chunk - start chunk)) cs acc
  == acc + sumOver (fun c => end_ c - start c) cs.
Proof.
  revert acc. induction cs as [|c cs IH]; intros acc; simpl.
  - lra.
  - rewrite IH. lra.
Qed.

Lemma totalChunkDuration_sum (cs : list Chunk) :
  totalChunkDuration cs == sumOver (fun c => end_ c - start c) cs.
Proof. unfold totalChunkDuration. rewrite fold_duration_acc. lra. Qed.

Lemma remaining_chunk (s e : Q) (c : Chunk) :
  s <= e -> start c <= end_ c ->
  remaining (deleteTimeRange_chunk s e c) == (end_ c - start c) - overlap s e c.
Proof.
  intros Hse Hc. unfold deleteTimeRange_chunk, overlap.
  js_cases; cbn [remaining start end_]; Qminmax; lra.
Qed.

Lemma remaining_total (s e : Q) (cs : list Chunk) :
  sumOver (fun c => end_ c - start c)
          (filterNull (map (deleteTimeRange_chunk s e) cs))
  == sumOver (fun c => remaining (deleteTimeRange_chunk s e c)) cs.
Proof.
  induction cs as [|c cs IH]; simpl; [lra|].
  destruct (deleteTimeRange_chunk s e c); simpl; rewrite IH; lra.
Qed.

Lemma sumOver_ext (f g : Chunk -> Q) (cs : list Chunk) :
  (forall c, In c cs -> f c == g c) -> sumOver f cs == sumOver g cs.
Proof.
  induction cs as [|c cs IH]; simpl; intros H; [lra|].
  rewrite (H c), IH; auto. lra.
Qed.

Lemma contiguous_le (a b : Q) (cs : list Chunk) : contiguous a cs b -> a <= b.
Proof.
  revert a. induction cs as [|c cs IH]; simpl; intros a H.
  - lra.
  - destruct H as (Ha & Hc & Hrest). apply IH in Hrest. lra.
Qed.

Lemma contiguous_In (a b : Q) (cs : list Chunk) (c : Chunk) :
  contiguous a cs b -> In c cs -> start c <= end_ c.
Proof.
  revert a. induction cs as [|c0 cs IH]; simpl; intros a H Hin; [tauto|].
  destruct H as (Ha & Hc & Hrest). destruct Hin as [<- | Hin]; eauto.
Qed.

(** Over a contiguous run of chunks from [a] to [b] the overlaps add up to
    the overlap of [[s, e)] with [[a, b)]. *)
Lemma overlap_contiguous (s e a b : Q) (cs : list Chunk) :
  s <= e -> contiguous a cs b ->
  sumOver (overlap s e) cs == Qmax 0 (Qmin e b - Qmax s a).
Proof.
  intros Hse. revert a. induction cs as [|c cs IH]; simpl; intros a H.
  - Qminmax; lra.
  - destruct H as (Ha & Hc & Hrest).
    pose proof (contiguous_le _ _ _ Hrest) as Hle.
    rewrite (IH _ Hrest). unfold overlap. Qminmax; lra.
Qed.

Lemma deleteTimeRange_chunk_id (s e : Q) (c c' : Chunk) :
  deleteTimeRange_chunk s e c = Some c' -> id c' = id c.
Proof.
  unfold deleteTimeRange_chunk.
  js_cases; intros H; inversion H; reflexivity.
Qed.

End ChunkModel.

(** ** The chunk model under rounding *)

Section ChunkRounding.

Import ChunkManager.

(** With no rounding the machine's deletion is the exact one. *)
Lemma machine_deleteTimeRange_exact (s e : Q) (m : t) :
  Machine.deleteTimeRange (fun x => x) s e m = deleteTimeRange s e m.
Proof. reflexivity. Qed.

Lemma machine_deleteTimeRange_chunk_id (rnd : Q -> Q) (s e : Q) (c c' : Chunk) :
  Machine.deleteTimeRange_chunk rnd s e c = Some c' -> id c' = id c.
Proof.
  unfold Machine.deleteTimeRange_chunk.
  js_cases; intros H; inversion H; reflexivity.
Qed.

Lemma machine_deleteTimeRange_ids (rnd : Q -> Q) (s e : Q) (cs : list Chunk) :
  map id (filterNull (map (Machine.deleteTimeRange_chunk rnd s e) cs))
  = map id (filter (fun c => match Machine.deleteTimeRange_chunk rnd s e c with
                             | Some _ => true
                             | None => false
                             end) cs).
Proof.
  induction cs as [|c cs IH]; simpl; [reflexivity|].
  destruct (Machine.deleteTimeRange_chunk rnd s e c) eqn:E; simpl; rewrite IH; auto.
  f_equal. eapply machine_deleteTimeRange_chunk_id; eauto.
Qed.

(** Where its subtractions are exact, the machine's deletion treats a chunk
    as the exact one does. *)
Lemma machine_chunk_agrees (rnd : Q -> Q) (s e : Q) (c : Chunk) :
  start c <= end_ c -> exact_shift rnd s e c ->
  match Machine.deleteTimeRange_chunk rnd s e c, deleteTimeRange_chunk s e c with
  | Some c1, Some c2 => same_chunk c1 c2
  | None, None => True
  | _, _ => False
  end.
Proof.
  intros Hc (Hafter & Hend).
  unfold Machine.deleteTimeRange_chunk, deleteTimeRange_chunk, same_chunk.
  js_cases; cbn [start end_ id]; auto;
    try (destruct Hafter as (H1 & H2); [lra|]);
    try (assert (H3 := Hend ltac:(lra)));
    repeat split; try reflexivity; try assumption; lra.
Qed.

Lemma machine_deleteTimeRange_agrees (rnd : Q -> Q) (s e : Q) (cs : list Chunk) :
  Forall (fun c => start c <= end_ c) cs ->
  Forall (exact_shift rnd s e) cs ->
  Forall2 same_chunk
    (filterNull (map (Machine.deleteTimeRange_chunk rnd s e) cs))
    (filterNull (map (deleteTimeRange_chunk s e) cs)).
Proof.
  induction 1 as [|c cs Hc _ IH]; intros Hx; cbn [map filterNull]; [constructor|].
  inversion Hx as [|? ? Hxc Hxcs]; subst.
  pose proof (machine_chunk_agrees rnd s e c Hc Hxc) as Hag.
  destruct (Machine.deleteTimeRange_chunk rnd s e c),
           (deleteTimeRange_chunk s e c); try contradiction; auto.
Qed.

Lemma covered_same (l1 l2 : list Chunk) :
  Forall2 same_chunk l1 l2 -> covered l1 == covered l2.
Proof.
  unfold covered.
  induction 1 as [|c1 c2 l1 l2 (Hs & He & _) _ IH]; simpl; [reflexivity|].
  rewrite IH, Hs, He. reflexivity.
Qed.

Lemma contiguous_starts_first (a b : Q) (cs : list Chunk) :
  contiguous a cs b -> Forall (fun c => start c <= end_ c) cs.
Proof.
  intros Hc. apply Forall_forall. intros c Hin.
  eapply contiguous_In; eauto.
Qed.

Lemma contiguous_same (a b : Q) (l1 l2 : list Chunk) :
  Forall2 same_chunk l1 l2 -> contiguous a l2 b -> contiguous a l1 b.
Proof.
  intros H. revert a.
  induction H as [|c1 c2 l1 l2 (Hs & He & _) _ IH]; cbn [contiguous]; auto.
  intros a (Ha & Hc & Hrest). split; [lra|]. split; [lra|].
  apply IH. revert Hrest. clear - He. revert He.
  generalize (end_ c1) (end_ c2). intros x y Hxy.
  destruct l2 as [|c l2]; cbn [contiguous].
  - lra.
  - intros (H1 & H2 & H3). split; [lra|]. auto.
Qed.

End ChunkRounding.

Section ChunkClaims.

Import ChunkManager.

(** C1, the scenario as the code runs it: from the chunks [{0,3},{3,10}],
    [deleteTimeRange(2, 5)] yields exactly the chunks [{0,2}] and [{2,7}],
    with durations 2 and 5 and total covered duration 7 (= 10 - 3); the ids
    are kept. *)
Theorem deleteTimeRange_scenario (i1 i2 : Z) (sel : option Chunk) (n : Z) :
  let m := mkManager [mkChunk 0 3 i1; mkChunk 3 10 i2] sel n in
  let cs := chunks (deleteTimeRange 2 5 m) in
  cs = [mkChunk 0 2 i1; mkChunk 2 7 i2] /\
  map (fun c => end_ c - start c) cs = [2; 5] /\
  totalChunkDuration cs = 7.
Proof. repeat split. Qed.

(** C1 as stated fails: the second chunk does not end at 8 and the total is
    not 8. *)
Lemma deleteTimeRange_scenario_not_8 :
  ~ (exists c1 c2,
       chunks (deleteTimeRange 2 5 scenario) = [c1; c2] /\
       (start c1 == 0 /\ end_ c1 == 2) /\
       (start c2 == 2 /\ end_ c2 == 8) /\
       totalChunkDuration [c1; c2] == 8).
Proof.
  intros (c1 & c2 & H & _ & (_ & H8) & _).
  injection H as <- <-. vm_compute in H8. discriminate.
Qed.

(** C2 as stated fails: a range that lies beyond the chunks removes
    nothing. *)
Lemma deleteTimeRange_outside_keeps_total :
  let m := mkManager [mkChunk 0 3 0] None 1 in
  chunks (Machine.deleteTimeRange Double.round 5 7 m) = [mkChunk 0 3 0] /\
  ~ (covered (chunks (Machine.deleteTimeRange Double.round 5 7 m))
     == covered (chunks m) - (7 - 5)).
Proof. cbv zeta. split; [vm_compute; reflexivity | vm_compute; discriminate]. Qed.

(** C2, amended: when the chunks are contiguous (each chunk ends where the
    next one starts) from [a] to [b], the deleted range [[s, e)], [s < e],
    lies inside [[a, b)] and the subtractions of the deletion are exact, the
    total covered duration decreases by exactly [e - s]; and for every
    chunk list and every rounding the surviving chunks keep their relative
    order (their ids are the ids of the chunks that are not removed, in list
    order). *)
Theorem deleteTimeRange_total (rnd : Q -> Q) (m : t) (s e a b : Q) :
  s < e ->
  (contiguous a (chunks m) b -> a <= s -> e <= b ->
   Forall (exact_shift rnd s e) (chunks m) ->
   covered (chunks (Machine.deleteTimeRange rnd s e m))
   == covered (chunks m) - (e - s)) /\
  map id (chunks (Machine.deleteTimeRange rnd s e m))
  = map id (filter (fun c => match Machine.deleteTimeRange_chunk rnd s e c with
                             | Some _ => true
                             | None => false
                             end) (chunks m)).
Proof.
  intros Hse. split; [|apply machine_deleteTimeRange_ids].
  intros Hc Has Heb Hx. cbn [Machine.deleteTimeRange chunks].
  rewrite (covered_same _ _
             (machine_deleteTimeRange_agrees rnd s e (chunks m)
                (contiguous_starts_first a b (chunks m) Hc) Hx)).
  unfold covered. rewrite remaining_total.
  rewrite (sumOver_ext _ (fun c => (end_ c - start c) - overlap s e c)).
  - assert (Hsum : forall cs,
      sumOver (fun c => end_ c - start c - overlap s e c) cs
      == sumOver (fun c => end_ c - start c) cs - sumOver (overlap s e) cs).
    { induction cs as [|c cs IH]; simpl; [lra | rewrite IH; lra]. }
    rewrite Hsum, (overlap_contiguous s e a b) by (auto; lra).
    Qminmax; lra.
  - intros c Hin. apply remaining_chunk; [lra|].
    eapply contiguous_In; eauto.
Qed.

Lemma scenario_exact_shift : Forall (exact_shift Double.round 2 5) (chunks scenario).
Proof.
  repeat constructor; intros _; try split; vm_compute; reflexivity.
Qed.

Lemma deleteTimeRange_total_witness :
  (2 < 5 /\ contiguous 0 (chunks scenario) 10 /\ 0 <= 2 /\ 5 <= 10) /\
  covered (chunks (Machine.deleteTimeRange Double.round 2 5 scenario))
  == covered (chunks scenario) - (5 - 2).
Proof.
  assert (H25 : 2 < 5) by reflexivity.
  assert (Hc : contiguous 0 (chunks scenario) 10).
  { simpl. repeat split; try reflexivity; discriminate. }
  assert (H02 : 0 <= 2) by discriminate.
  assert (H510 : 5 <= 10) by discriminate.
  split; [auto|].
  exact (proj1 (deleteTimeRange_total Double.round scenario 2 5 0 10 H25)
               Hc H02 H510 scenario_exact_shift).
Defined.

(** In the arithmetic of the program the total need not decrease by
    [e - s]: from the chunks [{0, 0.2}] and [{0.2, 0.9}] the deletion of
    [[0.1, 0.2)] leaves [{0, 0.1}] and [{0.1, 0.8}], and 0.8 is not
    0.9 - 0.1 in binary64. *)
Example deleteTimeRange_total_rounded :
  let s := Double.round (1 # 10) in
  let e := Double.round (2 # 10) in
  contiguous 0 (chunks tenthsManager) (Double.round (9 # 10)) /\
  chunks (Machine.deleteTimeRange Double.round s e tenthsManager)
  = [mkChunk 0 s 1; mkChunk s (Double.round (8 # 10)) 2] /\
  ~ covered (chunks (Machine.deleteTimeRange Double.round s e tenthsManager))
    == covered (chunks tenthsManager) - (e - s).
Proof.
  split; [|split].
  - cbn. repeat split; try reflexivity; vm_compute; discriminate.
  - vm_compute. reflexivity.
  - vm_compute. discriminate.
Qed.

End ChunkClaims.

Section SplitAndInvariant.

Import ChunkManager.

Lemma strictly_inside_test (splitTime : Q) (c : Chunk) :
  (splitTime >? start c) && (splitTime <? end_ c) = true
  <-> strictly_inside splitTime c.
Proof.
  unfold strictly_inside.
  destruct (Qgtb_spec splitTime (start c)), (Qltb_spec splitTime (end_ c));
    simpl; split; intros H; try discriminate; try tauto.
Qed.

(** What a successful split does, in terms of the chunk it found. *)
Lemma splitAtPosition_found (splitTime : Q) (m : t) (i : nat) :
  findIndex (fun chunk => (splitTime >? start chunk) && (splitTime <? end_ chunk))
            (chunks m) = Some i ->
  exists before c after,
    chunks m = before ++ c :: after /\
    strictly_inside splitTime c /\
    (forall c', In c' before -> ~ strictly_inside splitTime c') /\
    splitAtPosition splitTime m
    = (true,
       mkManager
         (before ++ mkChunk (start c) splitTime (nextChunkId m)
                 :: mkChunk splitTime (end_ c) (nextChunkId m + 1) :: after)
         None (nextChunkId m + 2)%Z).
Proof.
  intros Hi. unfold splitAtPosition. rewrite Hi.
  destruct (findIndex_Some _ _ _ Hi) as (before & c & after & Hl & Hlen & Hc & Hb).
  exists before, c, after. rewrite Hl, <- Hlen.
  rewrite nth_error_middle, splice1_middle.
  repeat split; try (apply strictly_inside_test in Hc; apply Hc).
  intros c' Hin Hc'. apply strictly_inside_test in Hc'.
  rewrite (Hb c' Hin) in Hc'. discriminate.
Qed.

(** C3: [splitAtPosition(t)] returns true exactly when some chunk has
    [start < t < end]; on success the first such chunk is replaced in place
    by [{start, t, id1}] and [{t, end, id2}], where [id1] is the counter and
    [id2] the counter plus one, the counter moves past both (so, the ids of
    the list being below the counter, the two ids are new, increasing and
    never handed out again) and the selected chunk is cleared; on failure it
    returns false and the state is unchanged. *)
Theorem splitAtPosition_spec (splitTime : Q) (m : t) :
  (fst (splitAtPosition splitTime m) = true
   <-> exists c, In c (chunks m) /\ strictly_inside splitTime c) /\
  (fst (splitAtPosition splitTime m) = true ->
   exists before c after,
     chunks m = before ++ c :: after /\
     strictly_inside splitTime c /\
     (forall c', In c' before -> ~ strictly_inside splitTime c') /\
     snd (splitAtPosition splitTime m)
     = mkManager
         (before ++ mkChunk (start c) splitTime (nextChunkId m)
                 :: mkChunk splitTime (end_ c) (nextChunkId m + 1) :: after)
         None (nextChunkId m + 2)%Z /\
     (ids_below m ->
      (forall c', In c' (chunks m) ->
                  id c' <> nextChunkId m /\ id c' <> (nextChunkId m + 1)%Z) /\
      ids_below (snd (splitAtPosition splitTime m)))) /\
  (fst (splitAtPosition splitTime m) = false ->
   snd (splitAtPosition splitTime m) = m).
Proof.
  destruct (findIndex (fun chunk => (splitTime >? start chunk)
                                    && (splitTime <? end_ chunk)) (chunks m))
    as [i|] eqn:Hi.
  - destruct (splitAtPosition_found _ _ _ Hi)
      as (before & c & after & Hl & Hc & Hb & Heq).
    rewrite Heq. cbn [fst snd]. repeat split; try discriminate.
    + intros _. exists c. split; auto. rewrite Hl. apply in_elt.
    + intros _. exists before, c, after.
      split; [exact Hl|]. split; [exact Hc|]. split; [exact Hb|].
      split; [reflexivity|]. intros Hids. unfold ids_below in *. split.
      * intros c' Hin. rewrite Forall_forall in Hids.
        specialize (Hids c' Hin). lia.
      * cbn [chunks nextChunkId]. rewrite Hl in Hids.
        rewrite Forall_app in *. destruct Hids as (H1 & H2).
        inversion H2; subst. split.
        -- eapply Forall_impl; [|exact H1]. cbn beta. intros; lia.
        -- repeat constructor; cbn [id]; try lia.
           eapply Forall_impl; [|eassumption]. cbn beta. intros; lia.
  - unfold splitAtPosition. rewrite Hi. cbn [fst snd].
    repeat split; try discriminate; auto.
    intros (c & Hin & Hc). apply strictly_inside_test in Hc.
    rewrite (findIndex_None _ _ Hi c Hin) in Hc. discriminate.
Qed.

(** The ids of the list stay below the counter in every reachable state. *)
Lemma ids_below_new : ids_below new.
Proof. repeat constructor. Qed.

Lemma ids_below_initializeChunks (duration : Q) (m : t) :
  ids_below (initializeChunks duration m).
Proof. repeat constructor. Qed.

Lemma ids_below_deleteTimeRange (s e : Q) (m : t) :
  ids_below m -> ids_below (deleteTimeRange s e m).
Proof.
  unfold ids_below. cbn [deleteTimeRange chunks nextChunkId].
  rewrite !Forall_forall. intros H c' Hc'.
  apply In_filterNull_map in Hc'. destruct Hc' as (c & Hc & E).
  rewrite (deleteTimeRange_chunk_id _ _ _ _ E). auto.
Qed.

Example split_twice :
  let m1 := snd (splitAtPosition 3 (initializeChunks 10 new)) in
  chunks m1 = [mkChunk 0 3 1; mkChunk 3 10 2] /\
  selectedChunk m1 = None /\
  splitAtPosition 3 m1 = (false, m1).
Proof. repeat split. Qed.

End SplitAndInvariant.

Section WellFormed.

Import ChunkManager.

Lemma ordered_app (l1 l2 : list Chunk) :
  ordered (l1 ++ l2) <->
  ordered l1 /\ ordered l2 /\
  (forall x y, In x l1 -> In y l2 -> end_ x <= start y).
Proof.
  induction l1 as [|c l1 IH]; simpl.
  - intuition.
  - unfold before_all. rewrite IH, Forall_app, !Forall_forall. split.
    + intros ((H1 & H2) & H3 & H4 & H5).
      split; [split; auto|]. split; [auto|].
      intros x y [<- | Hx] Hy; auto.
    + intros ((H1 & H2) & H3 & H4).
      split; [split; intros; auto|]. split; [auto|]. split; [auto|].
      intros x y Hx Hy. apply H4; auto.
Qed.

Lemma deleteTimeRange_chunk_ok (s e : Q) (c c' : Chunk) :
  0 <= s -> s <= e -> chunk_ok c ->
  deleteTimeRange_chunk s e c = Some c' -> chunk_ok c'.
Proof.
  unfold chunk_ok, deleteTimeRange_chunk. intros H0 Hse (Hc0 & Hc).
  js_cases; intros H; inversion H; subst; cbn [start end_]; lra.
Qed.

(** The deletion maps times monotonically, so two chunks that did not
    overlap still do not. *)
Lemma deleteTimeRange_chunk_order (s e : Q) (c1 c2 c1' c2' : Chunk) :
  s <= e -> chunk_ok c1 -> chunk_ok c2 -> end_ c1 <= start c2 ->
  deleteTimeRange_chunk s e c1 = Some c1' ->
  deleteTimeRange_chunk s e c2 = Some c2' ->
  end_ c1' <= start c2'.
Proof.
  unfold chunk_ok, deleteTimeRange_chunk. intros Hse (_ & H1) (_ & H2) H12.
  js_cases; intros E1; inversion E1; subst; cbn [start end_];
    js_cases; intros E2; inversion E2; subst; cbn [start end_]; lra.
Qed.

Lemma deleteTimeRange_well_formed (s e : Q) (cs : list Chunk) :
  0 <= s -> s <= e -> well_formed cs ->
  well_formed (filterNull (map (deleteTimeRange_chunk s e) cs)).
Proof.
  intros H0 Hse. unfold well_formed.
  induction cs as [|c cs IH]; simpl; intros (Hok & Hord); [auto|].
  inversion Hok as [|? ? Hc Hcs]; subst. destruct Hord as (Hb & Hord).
  destruct (IH (conj Hcs Hord)) as (IH1 & IH2).
  destruct (deleteTimeRange_chunk s e c) as [c'|] eqn:E; [|auto].
  split.
  - constructor; auto. eapply deleteTimeRange_chunk_ok; eauto.
  - simpl. split; auto. unfold before_all in *.
    rewrite Forall_forall in *. intros y Hy.
    apply In_filterNull_map in Hy. destruct Hy as (x & Hx & Ex).
    eapply (deleteTimeRange_chunk_order s e c x); eauto.
Qed.

Lemma split_well_formed (t : Q) (before after : list Chunk) (c : Chunk)
  (i1 i2 : Z) :
  strictly_inside t c -> well_formed (before ++ c :: after) ->
  well_formed (before ++ mkChunk (start c) t i1 :: mkChunk t (end_ c) i2 :: after).
Proof.
  unfold well_formed, strictly_inside, chunk_ok. intros (Ht1 & Ht2) (Hok & Hord).
  rewrite Forall_app in *. rewrite ordered_app in *.
  destruct Hok as (Hok1 & Hok2). inversion Hok2 as [|? ? (Hc0 & Hc) Hok3]; subst.
  destruct Hord as (Hord1 & (Hb & Hord2) & Hcross).
  unfold before_all in *. rewrite Forall_forall in Hb.
  split; [split; [exact Hok1|]|split; [exact Hord1|split]].
  - constructor; [cbn [start end_]; split; lra|].
    constructor; [cbn [start end_]; split; lra|exact Hok3].
  - cbn [ordered]. unfold before_all. split; [|split; [|exact Hord2]].
    + constructor; cbn [start end_]; [lra|].
      rewrite Forall_forall. intros y Hy. specialize (Hb y Hy). lra.
    + rewrite Forall_forall. cbn [end_]. exact Hb.
  - intros x y Hx [<- | [<- | Hy]]; cbn [start].
    + apply (Hcross x c); simpl; auto.
    + specialize (Hcross x c Hx (or_introl eq_refl)). lra.
    + apply Hcross; simpl; auto.
Qed.

Lemma well_formed_same (l1 l2 : list Chunk) :
  Forall2 same_chunk l1 l2 -> well_formed l2 -> well_formed l1.
Proof.
  unfold well_formed, chunk_ok.
  induction 1 as [|c1 c2 l1 l2 (Hs & He & _) Hrest IH]; [auto|].
  intros (Hok & Hb & Hord). inversion Hok as [|? ? Hc Hcs]; subst.
  destruct (IH (conj Hcs Hord)) as (IH1 & IH2).
  split; [constructor; [lra | exact IH1]|].
  cbn [ordered]. split; [|exact IH2].
  unfold before_all in *. clear - He Hb Hrest.
  induction Hrest as [|x y l1 l2 (Hxs & _) _ IH']; constructor.
  - inversion Hb; subst. lra.
  - apply IH'. now inversion Hb.
Qed.

(** C4, amended: a chunk list in which every chunk has [0 <= start < end]
    and that is in increasing time order without overlap stays so after any
    [splitAtPosition(t)], and after any [deleteTimeRange(s, e)] with
    [0 <= s <= e] whose subtractions are exact. *)
Theorem well_formed_preserved (rnd : Q -> Q) (m : t) :
  well_formed (chunks m) ->
  (forall splitTime, well_formed (chunks (snd (splitAtPosition splitTime m)))) /\
  (forall s e, 0 <= s -> s <= e ->
     Forall (exact_shift rnd s e) (chunks m) ->
     well_formed (chunks (Machine.deleteTimeRange rnd s e m))).
Proof.
  intros Hwf. split.
  - intros splitTime.
    destruct (findIndex (fun chunk => (splitTime >? start chunk)
                                      && (splitTime <? end_ chunk)) (chunks m))
      as [i|] eqn:Hi.
    + destruct (splitAtPosition_found _ _ _ Hi)
        as (before & c & after & Hl & Hc & _ & Heq).
      rewrite Heq. cbn [snd chunks]. apply split_well_formed; auto.
      rewrite <- Hl. exact Hwf.
    + unfold splitAtPosition. rewrite Hi. exact Hwf.
  - intros s e H0 Hse Hx. cbn [Machine.deleteTimeRange chunks].
    apply (well_formed_same _
             (filterNull (map (deleteTimeRange_chunk s e) (chunks m)))).
    + apply machine_deleteTimeRange_agrees; [|exact Hx].
      destruct Hwf as (Hok & _). eapply Forall_impl; [|exact Hok].
      unfold chunk_ok. intros c (_ & Hc). lra.
    + apply deleteTimeRange_well_formed; auto.
Qed.

Lemma scenario_well_formed : well_formed (chunks scenario).
Proof.
  unfold well_formed, chunk_ok, before_all. cbn [chunks scenario ordered].
  split.
  - repeat constructor; cbn [start end_]; lra.
  - split; [|split; [constructor|exact I]].
    repeat constructor; cbn [start end_]; lra.
Qed.

Lemma well_formed_preserved_witness :
  well_formed (chunks scenario) /\
  (forall splitTime,
     well_formed (chunks (snd (splitAtPosition splitTime scenario)))) /\
  well_formed (chunks (Machine.deleteTimeRange Double.round 2 5 scenario)).
Proof.
  split; [exact scenario_well_formed|].
  destruct (well_formed_preserved Double.round scenario scenario_well_formed)
    as (Hsplit & Hdelete).
  split; [exact Hsplit|].
  apply Hdelete; [discriminate | discriminate | exact scenario_exact_shift].
Defined.

(** C4 as stated fails in the arithmetic of the program: of the chunks
    [{0, 3.86}], [{3.86, 8.88}] and [{8.88, 20}], which are well formed,
    [deleteTimeRange(3.86, 8.88)] leaves [{0, 3.86}] and
    [{3.8599999999999994, 14.979999999999999}]: the second chunk starts
    before the first one ends. *)
Lemma deleteTimeRange_rounding_overlap :
  let s := Double.round (386 # 100) in
  let e := Double.round (888 # 100) in
  well_formed (chunks hundredthsManager) /\
  0 <= s /\ s <= e /\
  chunks (Machine.deleteTimeRange Double.round s e hundredthsManager)
  = [mkChunk 0 s 1;
     mkChunk (Double.round (38599999999999994 # 10000000000000000))
             (Double.round (14979999999999999 # 1000000000000000)) 3] /\
  ~ well_formed
      (chunks (Machine.deleteTimeRange Double.round s e hundredthsManager)).
Proof.
  cbv zeta. split; [|split; [|split; [|split]]].
  - unfold well_formed, chunk_ok, before_all.
    cbn [chunks hundredthsManager ordered]. split.
    + repeat constructor; cbn [start end_]; vm_compute; congruence.
    + repeat split; repeat constructor; cbn [start end_]; vm_compute; congruence.
  - vm_compute. discriminate.
  - vm_compute. discriminate.
  - vm_compute. reflexivity.
  - intros (_ & Hord). vm_compute in Hord.
    destruct Hord as (Hb & _). inversion Hb as [|? ? H _]; subst.
    apply H. reflexivity.
Qed.

End WellFormed.

(** ** Loops and typed arrays *)

Section Loops.

Context {S : Type}.

Lemma zrange_nil (a b : Z) : (b <= a)%Z -> zrange a b = [].
Proof.
  intros H. unfold zrange. replace (Z.to_nat (b - a)) with O by lia.
  reflexivity.
Qed.

Lemma zrange_snoc (a b : Z) :
  (a <= b)%Z -> zrange a (b + 1) = zrange a b ++ [b].
Proof.
  intros H. unfold zrange.
  replace (Z.to_nat (b + 1 - a)) with (Z.to_nat (b - a) + 1)%nat by lia.
  rewrite seq_app, map_app. simpl. do 2 f_equal. lia.
Qed.

Lemma forRange_nil (a b : Z) (body : Z -> S -> S) (s : S) :
  (b <= a)%Z -> forRange a b body s = s.
Proof. intros H. unfold forRange. now rewrite zrange_nil. Qed.

Lemma forRange_snoc (a b : Z) (body : Z -> S -> S) (s : S) :
  (a <= b)%Z -> forRange a (b + 1) body s = body b (forRange a b body s).
Proof.
  intros H. unfold forRange. rewrite zrange_snoc by assumption.
  rewrite fold_left_app. reflexivity.
Qed.

(** Loop invariant rule: [P k] holds of the state before iteration [k]. *)
Lemma forRange_invariant (P : Z -> S -> Prop) (a b : Z) (body : Z -> S -> S)
  (s : S) :
  (a <= b)%Z ->
  P a s ->
  (forall i st, (a <= i < b)%Z -> P i st -> P (i + 1)%Z (body i st)) ->
  P b (forRange a b body s).
Proof.
  intros Hab H0 Hstep.
  assert (H : forall n : nat, (a + Z.of_nat n <= b)%Z ->
            P (a + Z.of_nat n)%Z (forRange a (a + Z.of_nat n) body s)).
  { induction n as [|n IH]; intros Hn.
    - rewrite Z.add_0_r, forRange_nil by lia. exact H0.
    - replace (a + Z.of_nat (Datatypes.S n))%Z with (a + Z.of_nat n + 1)%Z by lia.
      rewrite forRange_snoc by lia. apply Hstep; [lia|]. apply IH. lia. }
  specialize (H (Z.to_nat (b - a))).
  replace (a + Z.of_nat (Z.to_nat (b - a)))%Z with b in H by lia.
  apply H. lia.
Qed.

(** Two loops whose bodies agree on the iterated range agree. *)
Lemma forRange_ext (a b : Z) (body body' : Z -> S -> S) (s : S) :
  (forall i st, (a <= i < b)%Z -> body i st = body' i st) ->
  forRange a b body s = forRange a b body' s.
Proof.
  intros H. destruct (Z_le_gt_dec a b) as [Hab|Hab].
  - apply (forRange_invariant
             (fun k st => st = forRange a k body' s) a b body s Hab).
    + now rewrite forRange_nil by lia.
    + intros i st Hi ->. rewrite forRange_snoc by lia. now apply H.
  - now rewrite !forRange_nil by lia.
Qed.

End Loops.

Section TypedArrays.

Context {A : Type}.

Import TypedArray.

Lemma length_set_nat (data : list A) (n : nat) (v : A) :
  List.length (set_nat data n v) = List.length data.
Proof.
  revert n. induction data as [|x data IH]; intros [|n]; simpl; auto.
Qed.

Lemma length_set (data : list A) (i : Z) (v : A) :
  List.length (set data i v) = List.length data.
Proof. unfold set. destruct (i <? 0)%Z; auto using length_set_nat. Qed.

Lemma nth_error_set_nat (data : list A) (n k : nat) (v : A) :
  nth_error (set_nat data n v) k
  = if (n =? k)%nat then
      match nth_error data k with Some _ => Some v | None => None end
    else nth_error data k.
Proof.
  revert n k. induction data as [|x data IH]; intros [|n] [|k]; simpl; auto;
    now destruct (Nat.eqb n k).
Qed.

Lemma get_range (data : list A) (i : Z) (x : A) :
  get data i = Some x -> (0 <= i < Z.of_nat (List.length data))%Z.
Proof.
  unfold get. destruct (Z.ltb_spec i 0) as [Hneg|Hpos]; [discriminate|]. intros H.
  assert (Hn : nth_error data (Z.to_nat i) <> None) by congruence.
  apply nth_error_Some in Hn. lia.
Qed.

Lemma get_in_range (data : list A) (i : Z) :
  (0 <= i < Z.of_nat (List.length data))%Z -> exists x, get data i = Some x.
Proof.
  intros H. unfold get. destruct (Z.ltb_spec i 0) as [Hneg|Hpos]; [lia|].
  destruct (nth_error data (Z.to_nat i)) eqn:E; [eauto|].
  apply nth_error_None in E. lia.
Qed.

Lemma get_out_of_range (data : list A) (i : Z) :
  (i < 0 \/ Z.of_nat (List.length data) <= i)%Z -> get data i = None.
Proof.
  intros H. unfold get. destruct (Z.ltb_spec i 0) as [Hneg|Hpos]; [reflexivity|].
  apply nth_error_None. lia.
Qed.

Lemma get_set (data : list A) (i j : Z) (v : A) :
  get (set data i v) j
  = if (i =? j)%Z then
      match get data j with Some _ => Some v | None => None end
    else get data j.
Proof.
  unfold get, set.
  destruct (Z.ltb_spec i 0) as [Hi|Hi], (Z.ltb_spec j 0) as [Hj|Hj],
    (Z.eqb_spec i j) as [Hij|Hij];
    try reflexivity; try lia.
  - rewrite nth_error_set_nat. subst. now rewrite Nat.eqb_refl.
  - rewrite nth_error_set_nat.
    destruct (Nat.eqb_spec (Z.to_nat i) (Z.to_nat j)); [lia | reflexivity].
Qed.

Lemma get_set_other (data : list A) (i j : Z) (v : A) :
  j <> i -> get (set data i v) j = get data j.
Proof.
  intros H. rewrite get_set. destruct (Z.eqb_spec i j); congruence.
Qed.

Lemma get_set_same (data : list A) (i : Z) (v x : A) :
  get data i = Some x -> get (set data i v) i = Some v.
Proof. intros H. now rewrite get_set, Z.eqb_refl, H. Qed.

(** Arrays with the same entries are equal. *)
Lemma get_ext (d1 d2 : list A) :
  (forall i, get d1 i = get d2 i) -> d1 = d2.
Proof.
  intros H. apply nth_error_ext. intros n.
  specialize (H (Z.of_nat n)). unfold get in H.
  destruct (Z.ltb_spec (Z.of_nat n) 0) as [Hneg|Hpos]; [lia|].
  now rewrite Nat2Z.id in H.
Qed.

Lemma get_repeat (v : A) (n : nat) (i : Z) :
  (0 <= i < Z.of_nat n)%Z -> get (repeat v n) i = Some v.
Proof.
  intros H. unfold get. destruct (Z.ltb_spec i 0) as [Hneg|Hpos]; [lia|].
  rewrite nth_error_repeat; auto. lia.
Qed.

End TypedArrays.

Section PointwiseLoop.

Context {A : Type}.

Import TypedArray.

(** A loop over [i] in [[a, b)] whose body only stores at index [i + c],
    the stored value being [w i x] for the entry [x] found there, computes
    the pointwise update of the array. *)
Lemma forRange_pointwise (body : Z -> list A -> list A) (c : Z)
  (w : Z -> A -> A) (a b : Z) (data : list A) :
  (forall i d, (a <= i < b)%Z -> List.length d = List.length data ->
               List.length (body i d) = List.length d) ->
  (forall i d j, (a <= i < b)%Z -> List.length d = List.length data ->
                 j <> (i + c)%Z -> get (body i d) j = get d j) ->
  (forall i d x, (a <= i < b)%Z -> List.length d = List.length data ->
                 get d (i + c) = Some x ->
                 get (body i d) (i + c) = Some (w i x)) ->
  List.length (forRange a b body data) = List.length data /\
  forall j x, get data j = Some x ->
    get (forRange a b body data) j
    = Some (if (a <=? j - c)%Z && (j - c <? b)%Z then w (j - c)%Z x else x).
Proof.
  intros Hlen Hother Hat.
  destruct (Z_le_gt_dec a b) as [Hab|Hab].
  - apply (forRange_invariant
      (fun k st =>
         List.length st = List.length data /\
         forall j x, get data j = Some x ->
           get st j
           = Some (if (a <=? j - c)%Z && (j - c <? k)%Z then w (j - c)%Z x
                   else x)) a b body data Hab).
    + split; [reflexivity|]. intros j x Hj. rewrite Hj. f_equal.
      destruct (Z.leb_spec a (j - c)), (Z.ltb_spec (j - c) a); simpl; auto; lia.
    + intros i st Hi (Hl & Hget). split; [rewrite Hlen; auto|].
      intros j x Hj. destruct (Z.eq_dec j (i + c)) as [->|Hne].
      * specialize (Hget _ _ Hj).
        replace (i + c - c)%Z with i in * by lia.
        destruct (Z.leb_spec a i), (Z.ltb_spec i i), (Z.ltb_spec i (i + 1));
          try lia; simpl in *.
        now apply Hat.
      * rewrite Hother by auto. rewrite (Hget _ _ Hj). f_equal.
        destruct (Z.leb_spec a (j - c)), (Z.ltb_spec (j - c) i),
          (Z.ltb_spec (j - c) (i + 1)); simpl; auto; lia.
  - rewrite forRange_nil by lia. split; [reflexivity|].
    intros j x Hj. rewrite Hj. f_equal.
    destruct (Z.leb_spec a (j - c)), (Z.ltb_spec (j - c) b); simpl; auto; lia.
Qed.

(** The channel loop that all the buffer edits share: channel by channel,
    the array of the new buffer is replaced by [F channel] of it. *)
Lemma forEachChannel (F : Z -> list A -> list A) (n : nat)
  (newBuffer : AudioBuffer.t A) :
  AudioBuffer.numberOfChannels newBuffer = n ->
  let out :=
    forRange 0 (Z.of_nat n)
      (fun channel newBuffer =>
         AudioBuffer.setChannelData newBuffer channel
           (F channel (AudioBuffer.getChannelData newBuffer channel)))
      newBuffer in
  AudioBuffer.sampleRate out = AudioBuffer.sampleRate newBuffer /\
  AudioBuffer.length out = AudioBuffer.length newBuffer /\
  AudioBuffer.numberOfChannels out = n /\
  forall channel, (0 <= channel < Z.of_nat n)%Z ->
    AudioBuffer.getChannelData out channel
    = F channel (AudioBuffer.getChannelData newBuffer channel).
Proof.
  intros Hn out. unfold AudioBuffer.numberOfChannels in *.
  assert (Hinv :
    AudioBuffer.sampleRate out = AudioBuffer.sampleRate newBuffer /\
    AudioBuffer.length out = AudioBuffer.length newBuffer /\
    List.length (AudioBuffer.channelData out) = n /\
    forall channel, (0 <= channel < Z.of_nat n)%Z ->
      AudioBuffer.getChannelData out channel
      = if (channel <? Z.of_nat n)%Z
        then F channel (AudioBuffer.getChannelData newBuffer channel)
        else AudioBuffer.getChannelData newBuffer channel).
  { unfold out.
    apply (forRange_invariant
      (fun k st =>
         AudioBuffer.sampleRate st = AudioBuffer.sampleRate newBuffer /\
         AudioBuffer.length st = AudioBuffer.length newBuffer /\
         List.length (AudioBuffer.channelData st) = n /\
         forall channel, (0 <= channel < Z.of_nat n)%Z ->
           AudioBuffer.getChannelData st channel
           = if (channel <? k)%Z
             then F channel (AudioBuffer.getChannelData newBuffer channel)
             else AudioBuffer.getChannelData newBuffer channel)); [lia| |].
    - repeat split; auto. intros channel Hc.
      destruct (Z.ltb_spec channel 0); [lia | reflexivity].
    - intros i st Hi (Hsr & Hlen & Hch & Hget).
      unfold AudioBuffer.setChannelData. cbn [AudioBuffer.sampleRate
        AudioBuffer.length AudioBuffer.channelData].
      repeat split; auto; [now rewrite length_set|].
      intros channel Hc. unfold AudioBuffer.getChannelData at 1.
      cbn [AudioBuffer.channelData]. rewrite get_set.
      destruct (Z.eqb_spec i channel) as [->|Hne].
      + destruct (get_in_range (AudioBuffer.channelData st) channel)
          as (d & Hd); [lia|].
        rewrite Hd. rewrite (Hget channel Hc).
        destruct (Z.ltb_spec channel channel), (Z.ltb_spec channel (channel + 1));
          try lia. reflexivity.
      + fold (AudioBuffer.getChannelData st channel). rewrite (Hget channel Hc).
        destruct (Z.ltb_spec channel i), (Z.ltb_spec channel (i + 1));
          try lia; reflexivity. }
  destruct Hinv as (H1 & H2 & H3 & H4). repeat split; auto.
  intros channel Hc. rewrite (H4 channel Hc).
  destruct (Z.ltb_spec channel (Z.of_nat n)); [reflexivity | lia].
Qed.

End PointwiseLoop.

(** ** Frame indices *)

Section Frames.

Context {A : Type}.

Lemma getChannelData_createBuffer `{Zero A} (channels : nat) (length : Z)
  (sampleRate : Q) (channel : Z) :
  (0 <= channel < Z.of_nat channels)%Z ->
  AudioBuffer.getChannelData
    (AudioBuffer.createBuffer channels length sampleRate) channel
  = repeat zero (Z.to_nat length).
Proof.
  intros Hc. unfold AudioBuffer.getChannelData, AudioBuffer.createBuffer.
  cbn [AudioBuffer.channelData]. now rewrite get_repeat.
Qed.

Lemma getChannelData_wf (b : AudioBuffer.t A) (channel : Z) :
  AudioBuffer.wf b ->
  (0 <= channel < Z.of_nat (AudioBuffer.numberOfChannels b))%Z ->
  List.length (AudioBuffer.getChannelData b channel) = AudioBuffer.length b.
Proof.
  intros Hwf Hc. unfold AudioBuffer.getChannelData.
  destruct (get_in_range (AudioBuffer.channelData b) channel Hc) as (d & Hd).
  rewrite Hd. unfold AudioBuffer.wf in Hwf. rewrite Forall_forall in Hwf.
  apply Hwf. unfold TypedArray.get in Hd.
  destruct (channel <? 0)%Z; [discriminate|]. eapply nth_error_In; eauto.
Qed.

(** A sample exists only in a channel the buffer has. *)
Lemma sample_channel (b : AudioBuffer.t A) (channel i : Z) (x : A) :
  TypedArray.get (AudioBuffer.getChannelData b channel) i = Some x ->
  (0 <= channel < Z.of_nat (AudioBuffer.numberOfChannels b))%Z.
Proof.
  unfold AudioBuffer.getChannelData, AudioBuffer.numberOfChannels.
  destruct (TypedArray.get (AudioBuffer.channelData b) channel) eqn:E.
  - intros _. eapply get_range; eauto.
  - unfold TypedArray.get. destruct (i <? 0)%Z; [discriminate|].
    now destruct (Z.to_nat i).
Qed.

(** Buffers with the same channel arrays have the same channel list. *)
Lemma channelData_ext (b1 b2 : AudioBuffer.t A) :
  AudioBuffer.numberOfChannels b1 = AudioBuffer.numberOfChannels b2 ->
  (forall channel,
     (0 <= channel < Z.of_nat (AudioBuffer.numberOfChannels b2))%Z ->
     AudioBuffer.getChannelData b1 channel = AudioBuffer.getChannelData b2 channel) ->
  AudioBuffer.channelData b1 = AudioBuffer.channelData b2.
Proof.
  unfold AudioBuffer.numberOfChannels, AudioBuffer.getChannelData.
  intros Hn Hch. apply get_ext. intros channel.
  destruct (Z_lt_dec channel 0) as [Hneg|Hpos];
    [rewrite !get_out_of_range by lia; reflexivity|].
  destruct (Z_lt_dec channel (Z.of_nat (List.length (AudioBuffer.channelData b2))))
    as [Hin|Hout]; [|rewrite !get_out_of_range by lia; reflexivity].
  specialize (Hch channel ltac:(lia)).
  destruct (get_in_range (AudioBuffer.channelData b1) channel ltac:(lia))
    as (d1 & E1).
  destruct (get_in_range (AudioBuffer.channelData b2) channel ltac:(lia))
    as (d2 & E2).
  rewrite E1, E2 in *. congruence.
Qed.

Lemma wf_channels (b : AudioBuffer.t A) :
  (forall channel,
     (0 <= channel < Z.of_nat (AudioBuffer.numberOfChannels b))%Z ->
     List.length (AudioBuffer.getChannelData b channel) = AudioBuffer.length b) ->
  AudioBuffer.wf b.
Proof.
  unfold AudioBuffer.numberOfChannels, AudioBuffer.getChannelData, AudioBuffer.wf.
  intros Hch. rewrite Forall_forall. intros d Hd.
  apply In_nth_error in Hd. destruct Hd as (n & Hn).
  assert (Hlt : (n < List.length (AudioBuffer.channelData b))%nat).
  { apply nth_error_Some. congruence. }
  specialize (Hch (Z.of_nat n) ltac:(lia)). unfold TypedArray.get in Hch.
  destruct (Z.ltb_spec (Z.of_nat n) 0) as [Hneg|Hpos]; [lia|].
  now rewrite Nat2Z.id, Hn in Hch.
Qed.

End Frames.

(** ** Deleting a range of frames *)

Section DeleteRange.

Context {A : Type} {ZeroA : Zero A} {FalsyA : Falsy A}.

Import TypedArray.

(** The two copy loops of [deleteAudioRange] on one channel: a store
    beyond the new array is dropped, so of the frames before [startSample]
    only those that fit are kept. *)
Lemma deleteAudioRange_channel (oldData : list A) (startSample endSample : Z) :
  (0 <= startSample <= endSample)%Z ->
  let samplesToDelete := (endSample - startSample)%Z in
  let newLength := (Z.of_nat (List.length oldData) - samplesToDelete)%Z in
  let newData :=
    forRange endSample (Z.of_nat (List.length oldData))
      (fun i newData =>
         set newData (i - samplesToDelete) (ofUndefined (get oldData i)))
      (forRange 0 startSample
         (fun i newData => set newData i (ofUndefined (get oldData i)))
         (repeat zero (Z.to_nat newLength))) in
  List.length newData = Z.to_nat newLength /\
  forall j, (0 <= j < newLength)%Z ->
    get newData j
    = get oldData (if (j <? startSample)%Z then j else (j + samplesToDelete)%Z).
Proof.
  intros Hs samplesToDelete newLength newData.
  destruct (forRange_pointwise
              (fun i newData => set newData i (ofUndefined (get oldData i)))
              0 (fun i _ => ofUndefined (get oldData i)) 0 startSample
              (repeat zero (Z.to_nat newLength))) as (L1 & G1).
  { intros. apply length_set. }
  { intros. apply get_set_other. lia. }
  { intros i d x _ _ Hx. rewrite Z.add_0_r in *. eapply get_set_same; eauto. }
  set (d1 := forRange 0 startSample _ _) in *.
  destruct (forRange_pointwise
              (fun i newData =>
                 set newData (i - samplesToDelete) (ofUndefined (get oldData i)))
              (- samplesToDelete)
              (fun i _ => ofUndefined (get oldData i))
              endSample (Z.of_nat (List.length oldData)) d1) as (L2 & G2).
  { intros. apply length_set. }
  { intros. apply get_set_other. lia. }
  { intros i d x _ _ Hx.
    replace (i + - samplesToDelete)%Z with (i - samplesToDelete)%Z in * by lia.
    eapply get_set_same; eauto. }
  fold newData in L2, G2. rewrite repeat_length in L1. split; [congruence|].
  intros j Hj.
  assert (Hz : get (repeat zero (Z.to_nat newLength)) j = Some zero)
    by (apply get_repeat; lia).
  specialize (G1 _ _ Hz). specialize (G2 _ _ G1). rewrite G2. clear G1 G2.
  replace (j - - samplesToDelete)%Z with (j + samplesToDelete)%Z by lia.
  rewrite Z.sub_0_r.
  unfold samplesToDelete, newLength in *.
  destruct (Z.ltb_spec j startSample) as [Hlt|Hge].
  - destruct (Z.leb_spec endSample (j + (endSample - startSample))); [lia|].
    destruct (Z.leb_spec 0 j); [|lia]. cbn [andb].
    destruct (get_in_range oldData j ltac:(lia)) as (x & Hx).
    now rewrite Hx.
  - destruct (Z.leb_spec endSample (j + (endSample - startSample))); [|lia].
    destruct (Z.ltb_spec (j + (endSample - startSample))
                (Z.of_nat (List.length oldData))); [|lia]. cbn [andb].
    destruct (get_in_range oldData (j + (endSample - startSample)) ltac:(lia))
      as (x & Hx).
    now rewrite Hx.
Qed.

(** The buffer built by [deleteAudioRange], frame by frame, when the host
    grants it. *)
Lemma deleteAudioRange_newBuffer_frames (rnd : Q -> Q) (buffer : AudioBuffer.t A)
  (startTime endTime : Q) :
  AudioBuffer.wf buffer ->
  let startSample := Qfloor (rnd (startTime * AudioBuffer.sampleRate buffer)) in
  let endSample := Qfloor (rnd (endTime * AudioBuffer.sampleRate buffer)) in
  let samplesToDelete := (endSample - startSample)%Z in
  let newLength := (Z.of_nat (AudioBuffer.length buffer) - samplesToDelete)%Z in
  (0 <= startSample <= endSample)%Z ->
  (1 <= newLength)%Z ->
  exists newBuffer,
    Machine.deleteAudioRange_newBuffer rnd buffer startTime endTime
    = Machine.Normal newBuffer /\
    AudioBuffer.sampleRate newBuffer = AudioBuffer.sampleRate buffer /\
    AudioBuffer.length newBuffer = Z.to_nat newLength /\
    AudioBuffer.numberOfChannels newBuffer = AudioBuffer.numberOfChannels buffer /\
    AudioBuffer.wf newBuffer /\
    forall channel j,
      (0 <= channel < Z.of_nat (AudioBuffer.numberOfChannels buffer))%Z ->
      (0 <= j < newLength)%Z ->
      get (AudioBuffer.getChannelData newBuffer channel) j
      = get (AudioBuffer.getChannelData buffer channel)
            (if (j <? startSample)%Z then j else (j + samplesToDelete)%Z).
Proof.
  intros Hwf startSample endSample samplesToDelete newLength Hs Hnew.
  unfold Machine.deleteAudioRange_newBuffer, Machine.createBuffer.
  fold startSample endSample. fold samplesToDelete. fold newLength.
  destruct (Z.ltb_spec newLength 1) as [Hlt|_]; [lia|].
  eexists. split; [reflexivity|].
  match goal with
  | |- context [ forRange 0 _ ?body ?nb ] =>
      destruct (forEachChannel
        (fun channel newData =>
           let oldData := AudioBuffer.getChannelData buffer channel in
           forRange endSample (Z.of_nat (List.length oldData))
             (fun i newData =>
                set newData (i - samplesToDelete) (ofUndefined (get oldData i)))
             (forRange 0 startSample
                (fun i newData => set newData i (ofUndefined (get oldData i)))
                newData))
        (AudioBuffer.numberOfChannels buffer) nb) as (Hsr & Hlen & Hn & Hch)
  end.
  { unfold AudioBuffer.createBuffer, AudioBuffer.numberOfChannels.
    cbn [AudioBuffer.channelData]. apply repeat_length. }
  cbv zeta in Hsr, Hlen, Hn, Hch.
  set (out := forRange 0 _ _ _) in *.
  assert (Hchannel : forall channel,
    (0 <= channel < Z.of_nat (AudioBuffer.numberOfChannels buffer))%Z ->
    List.length (AudioBuffer.getChannelData out channel) = Z.to_nat newLength /\
    forall j, (0 <= j < newLength)%Z ->
      get (AudioBuffer.getChannelData out channel) j
      = get (AudioBuffer.getChannelData buffer channel)
            (if (j <? startSample)%Z then j else (j + samplesToDelete)%Z)).
  { intros channel Hc. rewrite (Hch channel Hc).
    rewrite getChannelData_createBuffer by assumption.
    pose proof (getChannelData_wf buffer channel Hwf Hc) as Hl.
    pose proof (deleteAudioRange_channel
                  (AudioBuffer.getChannelData buffer channel)
                  startSample endSample Hs) as Hd.
    cbv zeta in Hd. rewrite Hl in Hd. rewrite Hl. exact Hd. }
  split; [exact Hsr|]. split; [exact Hlen|]. split; [exact Hn|]. split.
  - apply wf_channels. rewrite Hn, Hlen. intros channel Hc.
    apply (Hchannel channel Hc).
  - intros channel j Hc Hj. apply (Hchannel channel Hc). exact Hj.
Qed.

Lemma deleteAudioRange_newBuffer_refused (rnd : Q -> Q) (buffer : AudioBuffer.t A)
  (startTime endTime : Q) :
  let startSample := Qfloor (rnd (startTime * AudioBuffer.sampleRate buffer)) in
  let endSample := Qfloor (rnd (endTime * AudioBuffer.sampleRate buffer)) in
  (Z.of_nat (AudioBuffer.length buffer) - (endSample - startSample) < 1)%Z ->
  Machine.deleteAudioRange_newBuffer rnd buffer startTime endTime
  = Machine.NotSupportedError.
Proof.
  intros startSample endSample Hlt.
  unfold Machine.deleteAudioRange_newBuffer, Machine.createBuffer.
  fold startSample endSample.
  destruct (Z.ltb_spec (Z.of_nat (AudioBuffer.length buffer)
                        - (endSample - startSample)) 1); [reflexivity | lia].
Qed.

End DeleteRange.

Section DeleteAudioRange.

Context {A : Type} {ZeroA : Zero A} {FalsyA : Falsy A}.

Import TypedArray AudioChunkingEditor.

(** C6, amended: [deleteAudioRange(startTime, endTime)] on a loaded buffer.
    With [startSample] and [endSample] the floors of the times multiplied
    by the sample rate, [0 <= startSample <= endSample], and
    [newLength = oldLength - (endSample - startSample)]: when [newLength]
    is below 1 the call ends with the host's exception and changes nothing;
    otherwise the new buffer has [newLength] frames, the same sample rate
    and the same number of channels; in every channel a frame before
    [startSample] is copied unchanged if the range ends inside the buffer
    (or the frame lies below [newLength]), and the frames from [endSample]
    on are copied shifted left by [endSample - startSample]; and when
    [startSample = endSample] the samples of the new buffer are those of the
    old one. *)
Theorem deleteAudioRange_buffer (rnd : Q -> Q) (ed : AudioChunkingEditor.t A)
  (buffer : AudioBuffer.t A) (startTime endTime : Q) :
  audioBuffer ed = Some buffer ->
  AudioBuffer.wf buffer ->
  let startSample := Qfloor (rnd (startTime * AudioBuffer.sampleRate buffer)) in
  let endSample := Qfloor (rnd (endTime * AudioBuffer.sampleRate buffer)) in
  let oldLength := Z.of_nat (AudioBuffer.length buffer) in
  let newLength := (oldLength - (endSample - startSample))%Z in
  (0 <= startSample <= endSample)%Z ->
  ((newLength < 1)%Z ->
   Machine.deleteAudioRange rnd startTime endTime ed
   = Machine.NotSupportedError) /\
  ((1 <= newLength)%Z ->
   exists ed' newBuffer,
     Machine.deleteAudioRange rnd startTime endTime ed = Machine.Normal ed' /\
     audioBuffer ed' = Some newBuffer /\
     Z.of_nat (AudioBuffer.length newBuffer) = newLength /\
     AudioBuffer.sampleRate newBuffer = AudioBuffer.sampleRate buffer /\
     AudioBuffer.numberOfChannels newBuffer
     = AudioBuffer.numberOfChannels buffer /\
     AudioBuffer.wf newBuffer /\
     (forall channel i x,
        get (AudioBuffer.getChannelData buffer channel) i = Some x ->
        ((i < startSample)%Z -> (endSample <= oldLength \/ i < newLength)%Z ->
         get (AudioBuffer.getChannelData newBuffer channel) i = Some x) /\
        ((endSample <= i)%Z ->
         get (AudioBuffer.getChannelData newBuffer channel)
             (i - (endSample - startSample)) = Some x)) /\
     (startSample = endSample ->
      AudioBuffer.channelData newBuffer = AudioBuffer.channelData buffer)).
Proof.
  intros Hbuf Hwf startSample endSample oldLength newLength Hs. split.
  - intros Hlt. unfold Machine.deleteAudioRange. rewrite Hbuf.
    rewrite deleteAudioRange_newBuffer_refused; [reflexivity | exact Hlt].
  - intros Hnew.
    destruct (deleteAudioRange_newBuffer_frames rnd buffer startTime endTime
                Hwf Hs Hnew) as (newBuffer & Hb & F1 & F2 & F3 & F4 & F5).
    fold startSample endSample in F2, F5. fold oldLength in F2, F5.
    fold newLength in F2, F5.
    eexists. exists newBuffer.
    split; [unfold Machine.deleteAudioRange; rewrite Hbuf, Hb; reflexivity|].
    split; [reflexivity|].
    split; [rewrite F2; lia|]. split; [exact F1|]. split; [exact F3|].
    split; [exact F4|]. split.
    + intros channel i x Hx.
      pose proof (sample_channel _ _ _ _ Hx) as Hc.
      pose proof (get_range _ _ _ Hx) as Hi.
      rewrite (getChannelData_wf buffer channel Hwf Hc) in Hi.
      fold oldLength in Hi. split.
      * intros Hlt Hfit. rewrite (F5 channel i Hc) by lia.
        destruct (Z.ltb_spec i startSample); [exact Hx | lia].
      * intros Hge. rewrite (F5 channel _ Hc) by lia.
        destruct (Z.ltb_spec (i - (endSample - startSample)) startSample); [lia|].
        rewrite <- Hx. f_equal. lia.
    + intros Heq. apply channelData_ext; [exact F3|].
      intros channel Hc. apply get_ext. intros j.
      pose proof (getChannelData_wf buffer channel Hwf Hc) as L1.
      pose proof (getChannelData_wf _ channel F4 ltac:(rewrite F3; exact Hc)) as L2.
      rewrite F2 in L2. fold oldLength in L1.
      destruct (Z_lt_dec j 0) as [Hneg|Hpos];
        [rewrite !get_out_of_range by lia; reflexivity|].
      destruct (Z_lt_dec j oldLength) as [Hin|Hout];
        [|rewrite !get_out_of_range by lia; reflexivity].
      rewrite (F5 channel j Hc) by lia.
      destruct (Z.ltb_spec j startSample); f_equal; lia.
Qed.

(** C10, amended: [deleteAudioRange(startTime, endTime)] on a loaded buffer, with
    [startTime <= endTime].  When the host grants the new buffer (its frame
    count is at least 1) the call returns and a resume position inside
    [[startTime, endTime]] has become [startTime], one after [endTime] has
    been decreased by [endTime - startTime], one before [startTime] is
    unchanged, and the seek position is the new resume position; when the
    host refuses the buffer, the call ends with its exception and nothing
    is changed. *)
Theorem deleteAudioRange_pausedAtTime (rnd : Q -> Q)
  (ed : AudioChunkingEditor.t A) (buffer : AudioBuffer.t A)
  (startTime endTime : Q) :
  audioBuffer ed = Some buffer ->
  startTime <= endTime ->
  let startSample := Qfloor (rnd (startTime * AudioBuffer.sampleRate buffer)) in
  let endSample := Qfloor (rnd (endTime * AudioBuffer.sampleRate buffer)) in
  let newLength :=
    (Z.of_nat (AudioBuffer.length buffer) - (endSample - startSample))%Z in
  ((1 <= newLength)%Z ->
   exists ed',
     Machine.deleteAudioRange rnd startTime endTime ed = Machine.Normal ed' /\
     (startTime <= pausedAtTime ed /\ pausedAtTime ed <= endTime ->
      pausedAtTime ed' = startTime) /\
     (endTime < pausedAtTime ed ->
      pausedAtTime ed' = rnd (pausedAtTime ed - rnd (endTime - startTime))) /\
     (pausedAtTime ed < startTime -> pausedAtTime ed' = pausedAtTime ed) /\
     seekPosition ed' = pausedAtTime ed') /\
  ((newLength < 1)%Z ->
   Machine.deleteAudioRange rnd startTime endTime ed
   = Machine.NotSupportedError).
Proof.
  intros Hbuf Hse startSample endSample newLength. split.
  - intros Hnew. unfold Machine.deleteAudioRange. rewrite Hbuf.
    unfold Machine.deleteAudioRange_newBuffer, Machine.createBuffer.
    fold startSample endSample. fold newLength.
    destruct (Z.ltb_spec newLength 1) as [Hlt|_]; [lia|].
    eexists. split; [reflexivity|].
    cbn [pausedAtTime seekPosition].
    split; [|split; [|split; [|reflexivity]]]; intros Hp; js_cases;
      try reflexivity; lra.
  - intros Hlt. unfold Machine.deleteAudioRange. rewrite Hbuf.
    rewrite deleteAudioRange_newBuffer_refused; [reflexivity | exact Hlt].
Qed.

End DeleteAudioRange.

Section DeleteAudioRangeExamples.

Import AudioChunkingEditor.

Example deleteAudioRange_demo :
  option_map AudioBuffer.channelData
    (audioBuffer (deleteAudioRange (1 # 2) (3 # 2) demoEditor))
  = Some [[Num 1; Num 4]].
Proof. reflexivity. Qed.

Lemma demoBuffer_wf : AudioBuffer.wf demoBuffer.
Proof. repeat constructor. Qed.

Lemma deleteAudioRange_buffer_witness :
  exists ed' newBuffer,
    Machine.deleteAudioRange Double.round (1 # 2) (3 # 2) demoEditor
    = Machine.Normal ed' /\
    audioBuffer ed' = Some newBuffer /\
    AudioBuffer.channelData newBuffer = [[Num 1; Num 4]].
Proof.
  destruct (deleteAudioRange_buffer Double.round demoEditor demoBuffer
              (1 # 2) (3 # 2) eq_refl demoBuffer_wf) as (_ & H).
  - vm_compute. split; discriminate.
  - destruct H as (ed' & newBuffer & Hed & Hb & _).
    + vm_compute. discriminate.
    + exists ed', newBuffer. split; [exact Hed|]. split; [exact Hb|].
      vm_compute in Hed. injection Hed as <-.
      cbn [audioBuffer] in Hb. injection Hb as <-. reflexivity.
Defined.

(** C6 as stated fails for a range that ends beyond the buffer, which the
    range of a chunk does after earlier deletions: the second chunk of
    [trimmedEditor] is [{1.7999999999999998, 4.800000000000001}] while the
    buffer holds eight frames, 4 s.  Deleting that chunk has
    [startSample = 3] and [endSample = 9] and builds a buffer of two frames,
    so frame 2, which lies before [startSample], is not copied. *)
Lemma deleteAudioRange_past_the_end :
  let startTime := Double.round (17999999999999998 # 10000000000000000) in
  let endTime := Double.round (4800000000000001 # 1000000000000000) in
  ChunkManager.chunks (chunkManager trimmedEditor)
  = [ChunkManager.mkChunk 0 startTime 1;
     ChunkManager.mkChunk startTime endTime 2] /\
  option_map AudioBuffer.channelData (audioBuffer trimmedEditor)
  = Some [[Num 14; Num 15; Num 16; Num 17; Num 18; Num 19; Num 20; Num 21]] /\
  Qfloor (Double.round (startTime * 2)) = 3%Z /\
  Qfloor (Double.round (endTime * 2)) = 9%Z /\
  exists ed' newBuffer,
    Machine.deleteAudioRange Double.round startTime endTime trimmedEditor
    = Machine.Normal ed' /\
    audioBuffer ed' = Some newBuffer /\
    AudioBuffer.channelData newBuffer = [[Num 14; Num 15]].
Proof.
  cbv zeta. split; [|split; [|split; [|split]]]; try (vm_compute; reflexivity).
  eexists. eexists. split; [vm_compute; reflexivity|].
  split; reflexivity.
Qed.

(** Deleting every frame is refused by the host: the call ends with its
    exception. *)
Example deleteAudioRange_everything :
  Machine.deleteAudioRange Double.round 0 2 demoEditor
  = Machine.NotSupportedError.
Proof. vm_compute. reflexivity. Qed.

(** C10 as stated fails when the range takes every frame: the resume
    position 1.75 lies within [[0, 2]], but [deleteAudioRange(0, 2)] ends
    with the host's exception before it assigns the position, which
    therefore stays 1.75 and does not become 0. *)
Lemma deleteAudioRange_refused_keeps_position :
  0 <= pausedAtTime demoEditor /\ pausedAtTime demoEditor <= 2 /\
  ~ pausedAtTime demoEditor == 0 /\
  Machine.deleteAudioRange Double.round 0 2 demoEditor
  = Machine.NotSupportedError.
Proof.
  split; [vm_compute; discriminate|]. split; [vm_compute; discriminate|].
  split; [vm_compute; discriminate | vm_compute; reflexivity].
Qed.

Lemma deleteAudioRange_pausedAtTime_witness :
  exists ed',
    Machine.deleteAudioRange Double.round (1 # 2) (3 # 2) demoEditor
    = Machine.Normal ed' /\
    pausedAtTime ed'
    = Double.round ((7 # 4) - Double.round ((3 # 2) - (1 # 2))) /\
    seekPosition ed' = pausedAtTime ed'.
Proof.
  assert (Hse : (1 # 2) <= (3 # 2)) by (vm_compute; discriminate).
  destruct (deleteAudioRange_pausedAtTime Double.round demoEditor demoBuffer
              (1 # 2) (3 # 2) eq_refl Hse) as (H & _).
  destruct H as (ed' & Hed & _ & Hafter & _ & Hseek).
  - vm_compute. discriminate.
  - exists ed'. split; [exact Hed|]. split; [|exact Hseek].
    apply Hafter. reflexivity.
Defined.

End DeleteAudioRangeExamples.

(** ** Concatenating chunks *)

Section CombinedBuffer.

Context {A : Type} {ZeroA : Zero A} {FalsyA : Falsy A}.

Import TypedArray ChunkManager.

Lemma length_zrange (a b : Z) : List.length (zrange a b) = Z.to_nat (b - a).
Proof. unfold zrange. now rewrite length_map, length_seq. Qed.

Lemma nth_zrange (a b : Z) (k : nat) (d : Z) :
  (k < Z.to_nat (b - a))%nat -> nth k (zrange a b) d = (a + Z.of_nat k)%Z.
Proof.
  intros Hk. unfold zrange.
  rewrite (nth_indep _ d (a + Z.of_nat 0)%Z) by (now rewrite length_map, length_seq).
  rewrite (map_nth (fun k => (a + Z.of_nat k)%Z)). now rewrite seq_nth.
Qed.

Lemma length_framesOf (rnd : Q -> Q) (sampleRate : Q) (oldData : list A) (chunk : Chunk) :
  List.length (framesOf rnd sampleRate oldData chunk)
  = Z.to_nat (chunkFrames rnd sampleRate chunk).
Proof. unfold framesOf, chunkFrames. now rewrite length_map, length_zrange. Qed.

Lemma nth_framesOf (rnd : Q -> Q) (sampleRate : Q) (oldData : list A) (chunk : Chunk) (i : Z) :
  (0 <= i < chunkFrames rnd sampleRate chunk)%Z ->
  nth (Z.to_nat i) (framesOf rnd sampleRate oldData chunk) zero
  = orZero (get oldData (Qfloor (rnd (start chunk * sampleRate)) + i)).
Proof.
  intros Hi. unfold framesOf, chunkFrames in *.
  rewrite (nth_indep _ zero
             (orZero (get oldData 0)))
    by (rewrite length_map, length_zrange; lia).
  rewrite (map_nth (fun k => orZero (get oldData k))).
  rewrite nth_zrange by lia. do 2 f_equal. lia.
Qed.

(** The inner loop of [createCombinedBuffer] on one channel: the frames of
    the chunk are stored from [currentFrame] on, as far as the array
    reaches. *)
Lemma copyChunk_channel (rnd : Q -> Q) (sampleRate : Q) (oldData newData : list A)
  (chunk : Chunk) (currentFrame totalFrames : Z) :
  List.length newData = Z.to_nat totalFrames ->
  let startFrame := Qfloor (rnd (start chunk * sampleRate)) in
  let chunkFrames := chunkFrames rnd sampleRate chunk in
  let result :=
    forRange 0 chunkFrames
      (fun i newData =>
         if (currentFrame + i <? totalFrames)%Z then
           set newData (currentFrame + i) (orZero (get oldData (startFrame + i)))
         else newData)
      newData in
  List.length result = Z.to_nat totalFrames /\
  forall j x, get newData j = Some x ->
    get result j
    = Some (if (currentFrame <=? j)%Z && (j <? currentFrame + chunkFrames)%Z
            then orZero (get oldData (startFrame + (j - currentFrame)))
            else x).
Proof.
  intros Hlen startFrame cf result.
  destruct (forRange_pointwise
    (fun i newData =>
       if (currentFrame + i <? totalFrames)%Z then
         set newData (currentFrame + i) (orZero (get oldData (startFrame + i)))
       else newData)
    currentFrame (fun i _ => orZero (get oldData (startFrame + i)))
    0 cf newData) as (L & G).
  { intros i d _ _. destruct (currentFrame + i <? totalFrames)%Z; auto.
    apply length_set. }
  { intros i d j _ _ Hne. destruct (currentFrame + i <? totalFrames)%Z; auto.
    apply get_set_other. lia. }
  { intros i d x _ Hd Hx. pose proof (get_range _ _ _ Hx) as Hr.
    rewrite Hd, Hlen in Hr.
    destruct (Z.ltb_spec (currentFrame + i) totalFrames) as [Hlt|Hge]; [|lia].
    replace (currentFrame + i)%Z with (i + currentFrame)%Z by lia.
    eapply get_set_same; eauto. }
  fold result in L, G. split; [congruence|].
  intros j x Hj. rewrite (G j x Hj). f_equal.
  destruct (Z.leb_spec 0 (j - currentFrame)), (Z.leb_spec currentFrame j);
    try lia; cbn [andb]; auto.
  destruct (Z.ltb_spec (j - currentFrame) cf),
    (Z.ltb_spec j (currentFrame + cf)); try lia; reflexivity.
Qed.

End CombinedBuffer.

Section CombinedBufferLoop.

Context {A : Type} {ZeroA : Zero A} {FalsyA : Falsy A}.

Import TypedArray ChunkManager.

Lemma sumFrames_app (rnd : Q -> Q) (sampleRate : Q) (l1 l2 : list Chunk) :
  sumFrames rnd sampleRate (l1 ++ l2)
  = (sumFrames rnd sampleRate l1 + sumFrames rnd sampleRate l2)%Z.
Proof. induction l1 as [|c l1 IH]; simpl; lia. Qed.

Lemma sumFrames_nonneg (rnd : Q -> Q) (sampleRate : Q) (chunks : list Chunk) :
  Forall (fun c => (0 <= chunkFrames rnd sampleRate c)%Z) chunks ->
  (0 <= sumFrames rnd sampleRate chunks)%Z.
Proof. induction 1; simpl; lia. Qed.

Lemma length_concatFrames (rnd : Q -> Q) (sampleRate : Q) (oldData : list A)
  (chunks : list Chunk) :
  Forall (fun c => (0 <= chunkFrames rnd sampleRate c)%Z) chunks ->
  Z.of_nat (List.length (concatFrames rnd sampleRate oldData chunks))
  = sumFrames rnd sampleRate chunks.
Proof.
  unfold concatFrames. induction 1 as [|c cs Hc Hcs IH]; simpl; [reflexivity|].
  rewrite length_app, length_framesOf. lia.
Qed.

Variables (rnd : Q -> Q) (originalBuffer : AudioBuffer.t A) (totalFrames : Z).

Let sampleRate := AudioBuffer.sampleRate originalBuffer.
Let channels := AudioBuffer.numberOfChannels originalBuffer.

Lemma combined_upto_start :
  combined_upto rnd originalBuffer sampleRate channels totalFrames []
    (AudioBuffer.createBuffer channels totalFrames sampleRate, 0%Z).
Proof.
  unfold combined_upto. cbn [fst snd sumFrames].
  unfold AudioBuffer.createBuffer at 1 2 3, AudioBuffer.numberOfChannels at 1.
  cbn [AudioBuffer.sampleRate AudioBuffer.length AudioBuffer.channelData].
  rewrite repeat_length. repeat split; auto.
  - rewrite getChannelData_createBuffer by assumption. apply repeat_length.
  - intros j Hj. rewrite getChannelData_createBuffer by assumption.
    rewrite get_repeat by lia. cbn [concatFrames flat_map].
    now destruct (Z.to_nat j).
Qed.

Lemma combined_upto_step (done : list Chunk) (chunk : Chunk)
  (st : AudioBuffer.t A * Z) :
  Forall (fun c => (0 <= chunkFrames rnd sampleRate c)%Z) done ->
  (0 <= chunkFrames rnd sampleRate chunk)%Z ->
  combined_upto rnd originalBuffer sampleRate channels totalFrames done st ->
  combined_upto rnd originalBuffer sampleRate channels totalFrames
    (done ++ [chunk])
    (Machine.copyChunk rnd originalBuffer sampleRate channels totalFrames st chunk).
Proof.
  intros Hdone Hchunk (Hsr & Hlen & Hn & Hcur & Hch).
  destruct st as (nb, cur). cbn [fst snd] in *. unfold Machine.copyChunk. cbv zeta.
  fold (chunkFrames rnd sampleRate chunk).
  destruct (forEachChannel
    (fun channel newData =>
       forRange 0 (chunkFrames rnd sampleRate chunk)
         (fun i newData =>
            if (cur + i <? totalFrames)%Z then
              set newData (cur + i)
                (orZero (get (AudioBuffer.getChannelData originalBuffer channel)
                             (Qfloor (rnd (start chunk * sampleRate)) + i)))
            else newData)
         newData)
    channels nb Hn) as (F1 & F2 & F3 & F4).
  set (out := forRange 0 (Z.of_nat channels) _ nb) in *.
  unfold combined_upto. cbn [fst snd].
  split; [congruence|]. split; [congruence|]. split; [exact F3|].
  split; [rewrite sumFrames_app; cbn [sumFrames]; lia|].
  intros channel Hc. destruct (Hch channel Hc) as (L & G).
  rewrite (F4 channel Hc).
  destruct (copyChunk_channel rnd sampleRate
              (AudioBuffer.getChannelData originalBuffer channel)
              (AudioBuffer.getChannelData nb channel) chunk cur totalFrames L)
    as (L' & G').
  cbv zeta in L', G'. split; [exact L'|].
  intros j Hj. rewrite (G' j _ (G j Hj)). f_equal.
  pose proof (length_concatFrames rnd sampleRate
                (AudioBuffer.getChannelData originalBuffer channel) done Hdone)
    as Hl.
  unfold concatFrames in *. rewrite flat_map_app. cbn [flat_map].
  rewrite app_nil_r.
  destruct (Z.leb_spec cur j) as [Hle|Hgt]; cbn [andb].
  - rewrite app_nth2 by lia.
    replace (Z.to_nat j - List.length _)%nat with (Z.to_nat (j - cur)) by lia.
    destruct (Z.ltb_spec j (cur + chunkFrames rnd sampleRate chunk)) as [Hlt|Hge].
    + now rewrite nth_framesOf by lia.
    + rewrite nth_overflow by lia.
      rewrite nth_overflow by (rewrite length_framesOf; lia). reflexivity.
  - now rewrite app_nth1 by lia.
Qed.

Lemma combined_upto_fold (rest done : list Chunk) (st : AudioBuffer.t A * Z) :
  Forall (fun c => (0 <= chunkFrames rnd sampleRate c)%Z) (done ++ rest) ->
  combined_upto rnd originalBuffer sampleRate channels totalFrames done st ->
  combined_upto rnd originalBuffer sampleRate channels totalFrames
    (done ++ rest)
    (fold_left (Machine.copyChunk rnd originalBuffer sampleRate channels totalFrames)
       rest st).
Proof.
  revert done st. induction rest as [|chunk rest IH]; intros done st Hnn Hst.
  - now rewrite app_nil_r.
  - cbn [fold_left].
    replace (done ++ chunk :: rest) with ((done ++ [chunk]) ++ rest) in *
      by (now rewrite <- app_assoc).
    apply IH; [exact Hnn|].
    rewrite !Forall_app in Hnn. destruct Hnn as ((H1 & H2) & _).
    inversion H2; subst. now apply combined_upto_step.
Qed.

End CombinedBufferLoop.

Section CombinedBufferTheorem.

Context {A : Type} {ZeroA : Zero A} {FalsyA : Falsy A}.

Import TypedArray ChunkManager.

(** A rounding that keeps the order gives every chunk with [start <= end]
    a frame count that is not negative. *)
Lemma chunkFrames_nonneg (rnd : Q -> Q) (sampleRate : Q) (c : Chunk) :
  (forall x y, x <= y -> rnd x <= rnd y) ->
  0 <= sampleRate -> start c <= end_ c ->
  (0 <= chunkFrames rnd sampleRate c)%Z.
Proof.
  intros Hmono Hsr Hc. unfold chunkFrames. cbv zeta.
  pose proof (Qfloor_resp_le _ _
                (Hmono (start c * sampleRate) (end_ c * sampleRate)
                       ltac:(nra))).
  lia.
Qed.

(** C8, amended: for a non-empty list of chunks none of which has its end
    frame before its start frame, and with
    [totalFrames = floor(totalDuration * sampleRate)]: when [totalFrames]
    is below 1, [createCombinedBuffer] ends with the host's exception;
    otherwise it returns a buffer with the sample rate and the channel
    count of the original and [totalFrames] frames, and in every channel
    frame [j] is the [j]-th frame of the chunks' frame ranges
    [[floor(start * sampleRate), floor(end * sampleRate))] placed end to end
    in list order, and 0 where that concatenation has no [j]-th frame (a
    frame of the concatenation beyond the frame count is dropped). *)
Theorem createCombinedBuffer_frames (rnd : Q -> Q) (m : t)
  (originalBuffer : AudioBuffer.t A) (chunksToInclude : option (list Chunk)) :
  let chunks := match chunksToInclude with
                | Some l => l
                | None => chunks m
                end in
  let sampleRate := AudioBuffer.sampleRate originalBuffer in
  let channels := AudioBuffer.numberOfChannels originalBuffer in
  let totalFrames :=
    Qfloor (rnd (Machine.totalDuration rnd chunks * sampleRate)) in
  chunks <> [] ->
  Forall (fun c => (0 <= chunkFrames rnd sampleRate c)%Z) chunks ->
  ((totalFrames < 1)%Z ->
   Machine.createCombinedBuffer rnd m originalBuffer chunksToInclude
   = Machine.NotSupportedError) /\
  ((1 <= totalFrames)%Z ->
   exists combined,
     Machine.createCombinedBuffer rnd m originalBuffer chunksToInclude
     = Machine.Normal (Some combined) /\
     AudioBuffer.sampleRate combined = sampleRate /\
     AudioBuffer.numberOfChannels combined = channels /\
     Z.of_nat (AudioBuffer.length combined) = totalFrames /\
     forall channel, (0 <= channel < Z.of_nat channels)%Z ->
       List.length (AudioBuffer.getChannelData combined channel)
       = AudioBuffer.length combined /\
       forall j, (0 <= j < totalFrames)%Z ->
         get (AudioBuffer.getChannelData combined channel) j
         = Some (nth (Z.to_nat j)
                   (concatFrames rnd sampleRate
                      (AudioBuffer.getChannelData originalBuffer channel)
                      chunks)
                   zero)).
Proof.
  intros chunks sampleRate channels totalFrames Hne Hnn.
  assert (Hcall :
    Machine.createCombinedBuffer rnd m originalBuffer chunksToInclude
    = match Machine.createBuffer channels totalFrames sampleRate with
      | Machine.NotSupportedError => Machine.NotSupportedError
      | Machine.Normal combinedBuffer =>
          Machine.Normal
            (Some (fst (fold_left
                          (Machine.copyChunk rnd originalBuffer sampleRate
                                             channels totalFrames)
                          chunks (combinedBuffer, 0%Z))))
      end).
  { unfold Machine.createCombinedBuffer. fold chunks.
    destruct chunks as [|c0 cs]; [congruence|]. reflexivity. }
  rewrite Hcall. unfold Machine.createBuffer.
  destruct (Z.ltb_spec totalFrames 1) as [Hlt|Hge]; split; try lia;
    intros _; [reflexivity|].
  pose proof (combined_upto_fold rnd originalBuffer totalFrames chunks []
                (AudioBuffer.createBuffer channels totalFrames sampleRate, 0%Z)
                Hnn (combined_upto_start rnd originalBuffer totalFrames)) as Hinv.
  cbn [app] in Hinv. fold sampleRate channels in Hinv.
  set (final := fold_left _ chunks _) in *.
  destruct Hinv as (I1 & I2 & I3 & I4 & I5). fold sampleRate channels in I5.
  exists (fst final).
  split; [reflexivity|].
  split; [exact I1|]. split; [exact I3|]. split; [rewrite I2; lia|].
  intros channel Hc. destruct (I5 channel Hc) as (L & G).
  split; [congruence | exact G].
Qed.

End CombinedBufferTheorem.

Section CombinedBufferExamples.

Import ChunkManager.

(** C8 as stated fails: the chunk [{0.25, 2}] of the four-frame buffer at
    2 frames per second covers the frames [[0, 4)], four frames, but the
    combined buffer has [floor(1.75 * 2) = 3] frames: the last one is
    dropped. *)
Lemma createCombinedBuffer_drops_a_frame :
  ~ (exists combined,
       Machine.createCombinedBuffer Double.round ChunkManager.new demoBuffer
         (Some [mkChunk (1 # 4) 2 2]) = Machine.Normal (Some combined) /\
       Z.of_nat (AudioBuffer.length combined)
       = sumFrames Double.round 2 [mkChunk (1 # 4) 2 2]).
Proof.
  intros (combined & Hc & Hlen). vm_compute in Hc. injection Hc as <-.
  vm_compute in Hlen. discriminate.
Qed.

Example createCombinedBuffer_dropped :
  Machine.createCombinedBuffer Double.round ChunkManager.new demoBuffer
    (Some [mkChunk (1 # 4) 2 2])
  = Machine.Normal (Some (AudioBuffer.mk 2 3 [[Num 1; Num 2; Num 3]])).
Proof. vm_compute. reflexivity. Qed.

Example createCombinedBuffer_padded :
  Machine.createCombinedBuffer Double.round ChunkManager.new demoBuffer
    (Some [mkChunk 0 (3 # 4) 1; mkChunk 1 (7 # 4) 2])
  = Machine.Normal (Some (AudioBuffer.mk 2 3 [[Num 1; Num 3; Num 0]])).
Proof. vm_compute. reflexivity. Qed.

(** Chunks of no frame at all are refused by the host. *)
Example createCombinedBuffer_refused :
  Machine.createCombinedBuffer Double.round ChunkManager.new demoBuffer
    (Some [mkChunk (1 # 8) (1 # 4) 1])
  = Machine.NotSupportedError.
Proof. vm_compute. reflexivity. Qed.

(** In the arithmetic of the program a frame is dropped also from chunks
    that follow one another without a gap: at 44100 frames per second the
    chunks [{0, 1.38}], [{1.38, 9.83}] and [{9.83, 10}] have 60857, 372646
    and 7497 frames, 441000 in all, and the combined buffer 440999. *)
Example createCombinedBuffer_rounded :
  let cs := [mkChunk 0 (Double.round (138 # 100)) 1;
             mkChunk (Double.round (138 # 100)) (Double.round (983 # 100)) 2;
             mkChunk (Double.round (983 # 100)) 10 3] in
  map (chunkFrames Double.round 44100) cs = [60857; 372646; 7497]%Z /\
  sumFrames Double.round 44100 cs = 441000%Z /\
  Qfloor (Double.round (Machine.totalDuration Double.round cs * 44100))
  = 440999%Z.
Proof. vm_compute. repeat split. Qed.

(** The only chunk of a freshly loaded buffer of 15 frames at 44100 frames
    per second, [{0, duration}], gives 14 frames. *)
Example createCombinedBuffer_whole_buffer :
  let buffer : AudioBuffer.t f32 :=
    AudioBuffer.mk 44100 15 [repeat (Num 0) 15] in
  let cs := chunks (initializeChunks (Machine.duration Double.round buffer)
                                     ChunkManager.new) in
  Qfloor (Double.round (Machine.totalDuration Double.round cs * 44100))
  = 14%Z.
Proof. vm_compute. reflexivity. Qed.

Lemma createCombinedBuffer_frames_witness :
  exists combined,
    Machine.createCombinedBuffer Double.round scenario demoBuffer
      (Some [mkChunk (1 # 2) 1 1; mkChunk 1 2 2])
    = Machine.Normal (Some combined) /\
    AudioBuffer.channelData combined = [[Num 2; Num 3; Num 4]].
Proof.
  destruct (createCombinedBuffer_frames Double.round scenario demoBuffer
              (Some [mkChunk (1 # 2) 1 1; mkChunk 1 2 2]))
    as (_ & H).
  - discriminate.
  - repeat constructor; vm_compute; discriminate.
  - destruct H as (combined & Hc & _).
    + vm_compute. discriminate.
    + exists combined. split; [exact Hc|].
      vm_compute in Hc. injection Hc as <-. reflexivity.
Defined.

End CombinedBufferExamples.

(** ** Time to pixel *)

Section TimeToPixel.

Import ChunkManager WaveformRenderer.

(** The walk over the visible chunks ends in [return 0] when no chunk
    contains the time. *)
Lemma walkChunks_no_owner (time visibleStart visibleEnd total width : Q)
  (visibleChunks : list Chunk) (currentX : Q) :
  (forall c, In c visibleChunks ->
     ~ (Qmax (start c) visibleStart <= time /\
        time <= Qmin (end_ c) visibleEnd)) ->
  walkChunks time visibleStart visibleEnd total width visibleChunks currentX = 0.
Proof.
  revert currentX. induction visibleChunks as [|c cs IH]; intros currentX Hno.
  - reflexivity.
  - cbn [walkChunks]. cbv zeta.
    destruct (Qgeb_spec time (Qmax (start c) visibleStart)) as [H1|H1];
      [destruct (Qleb_spec time (Qmin (end_ c) visibleEnd)) as [H2|H2]|];
      cbn [andb].
    + exfalso. apply (Hno c); [left; reflexivity | split; assumption].
    + apply IH. intros c' Hc'. apply Hno. right. exact Hc'.
    + apply IH. intros c' Hc'. apply Hno. right. exact Hc'.
Qed.

(** Inside the visible range, with a chunk visible, a time that no visible
    chunk contains is mapped to pixel 0, not to -1. *)
Lemma getPixelPositionForTime_no_owner (time : Q) (r : WaveformRenderer.t) :
  let visibleStart := fst (getVisibleTimeRange r) in
  let visibleEnd := snd (getVisibleTimeRange r) in
  let visibleChunks :=
    filter (fun chunk =>
              (end_ chunk >? visibleStart) && (start chunk <? visibleEnd))
           (chunks r) in
  visibleStart <= time -> time <= visibleEnd -> visibleChunks <> [] ->
  (forall c, In c visibleChunks ->
     ~ (Qmax (start c) visibleStart <= time /\
        time <= Qmin (end_ c) visibleEnd)) ->
  getPixelPositionForTime time r = 0.
Proof.
  intros visibleStart visibleEnd visibleChunks H1 H2 Hne Hno.
  unfold getPixelPositionForTime.
  destruct (getVisibleTimeRange r) as (vs, ve) eqn:E.
  cbn [fst snd] in visibleStart, visibleEnd.
  subst visibleStart visibleEnd.
  destruct (Qltb_spec time vs) as [Hlt|_]; [lra|].
  destruct (Qgtb_spec time ve) as [Hgt|_]; [lra|]. cbn [orb].
  fold visibleChunks.
  destruct visibleChunks as [|c0 cs] eqn:Ev; [congruence|].
  cbn [List.length Nat.eqb]. apply walkChunks_no_owner. exact Hno.
Qed.

(** C9, the code at a time outside all chunks: after the deletion above the
    buffer still lasts 2 s and the only chunk is [{0, 1.7}]; at zoom level 1
    the time 1.8 s is inside the visible range and in no chunk, and
    [getPixelPositionForTime(1.8)] is 0, not the sentinel -1; the same
    holds through [getPixelPositionForTimeZoomed]. *)
Theorem getPixelPositionForTime_outside_chunks :
  let r := AudioChunkingEditor.waveformRenderer shortenedEditor in
  zoomLevel r = 1 /\
  audioBuffer_duration r = Some (4 # 2) /\
  Forall (fun c => start c == 0 /\ end_ c == 17 # 10) (chunks r) /\
  Forall (fun c => ~ (start c <= 9 # 5 /\ 9 # 5 <= end_ c)) (chunks r) /\
  getPixelPositionForTime (9 # 5) r = 0 /\
  getPixelPositionForTimeZoomed (9 # 5) r = 0 /\
  ~ 0 == -1.
Proof.
  cbv zeta. split; [reflexivity|]. split; [reflexivity|].
  split; [repeat constructor|]. split.
  - constructor; [|constructor]. intros (_ & H). vm_compute in H. now apply H.
  - split; [reflexivity|]. split; [reflexivity|]. discriminate.
Qed.

(** The same at 44100 frames per second: deleting 1.00001 s to 1.20002 s
    removes 8820 frames (0.2 s) of a 10 s buffer and 0.20001 s of the chunk,
    so the buffer lasts 9.8 s and the chunk ends at 9.79999 s. *)
Example getPixelPositionForTime_44100 :
  let r := WaveformRenderer.mk [mkChunk 0 (979999 # 100000) 0]
             (Some (98 # 10)) 1 0 800 in
  (Qfloor ((120002 # 100000) * 44100) - Qfloor ((100001 # 100000) * 44100)
   = 8820)%Z /\
  getPixelPositionForTime (9799995 # 1000000) r = 0.
Proof. split; reflexivity. Qed.

End TimeToPixel.

(** ** Fade *)

Section Fade.

Import TypedArray AudioChunkingEditor.

Local Open Scope R_scope.

Lemma read_get (data : list R) (i : Z) (x : R) :
  get data i = Some x -> AudioUtils.read data i = x.
Proof. unfold AudioUtils.read. now intros ->. Qed.

(** The copy loop followed by the fade loop, on one channel. *)
Lemma applyFadeEffect_channel (oldData : list R) (startSample endSample : Z)
  (type : string) :
  let fadeLength := (endSample - startSample)%Z in
  let newData :=
    forRange startSample endSample
      (fun i newData =>
         let fadeProgress := IZR (i - startSample) / IZR fadeLength in
         let fadeMultiplier :=
           if String.eqb type "in" then fadeProgress else 1 - fadeProgress in
         let fadeMultiplier := 0.5 * (1 - cos (fadeMultiplier * PI)) in
         match get oldData i with
         | Some sample => set newData i (sample * fadeMultiplier)
         | None => newData
         end)
      (forRange 0 (Z.of_nat (List.length oldData))
         (fun i newData => set newData i (AudioUtils.read oldData i))
         (repeat zero (Z.to_nat (Z.of_nat (List.length oldData))))) in
  List.length newData = List.length oldData /\
  forall i x, get oldData i = Some x ->
    get newData i
    = Some (if (startSample <=? i)%Z && (i <? endSample)%Z
            then x * fadeMultiplier type startSample endSample i
            else x).
Proof.
  cbv zeta. rewrite Nat2Z.id.
  destruct (forRange_pointwise
              (fun i newData => set newData i (AudioUtils.read oldData i))
              0 (fun i _ => AudioUtils.read oldData i)
              0 (Z.of_nat (List.length oldData))
              (repeat zero (List.length oldData))) as (L1 & G1).
  { intros. apply length_set. }
  { intros. apply get_set_other. lia. }
  { intros i d x _ _ Hx. rewrite Z.add_0_r in *. eapply get_set_same; eauto. }
  set (copied := forRange 0 (Z.of_nat (List.length oldData)) _ _) in *.
  rewrite repeat_length in L1.
  destruct (forRange_pointwise
    (fun i newData =>
       match get oldData i with
       | Some sample =>
           set newData i
             (sample *
              (0.5 * (1 - cos ((if String.eqb type "in"
                                then IZR (i - startSample)
                                     / IZR (endSample - startSample)
                                else 1 - IZR (i - startSample)
                                         / IZR (endSample - startSample))
                               * PI))))
       | None => newData
       end)
    0 (fun i _ => AudioUtils.read oldData i
                  * fadeMultiplier type startSample endSample i)
    startSample endSample copied) as (L2 & G2).
  { intros i d _ _. destruct (get oldData i); auto using length_set. }
  { intros i d j _ _ Hne.
    destruct (get oldData i); auto. apply get_set_other. lia. }
  { intros i d x _ Hd Hx. rewrite Z.add_0_r in *.
    pose proof (get_range _ _ _ Hx) as Hr. rewrite Hd, L1 in Hr.
    destruct (get_in_range oldData i Hr) as (sample & Hs).
    rewrite Hs, (read_get _ _ _ Hs). eapply get_set_same; eauto. }
  split; [congruence|].
  intros i x Hx. pose proof (get_range _ _ _ Hx) as Hr.
  assert (Hz : get (repeat (zero : R) (List.length oldData)) i = Some zero)
    by (apply get_repeat; lia).
  specialize (G1 _ _ Hz). specialize (G2 _ _ G1). rewrite G2.
  rewrite !Z.sub_0_r, (read_get _ _ _ Hx).
  destruct (Z.leb_spec 0 i), (Z.ltb_spec i (Z.of_nat (List.length oldData)));
    try lia. reflexivity.
Qed.

(** The buffer built by [applyFadeEffect], sample by sample. *)
Lemma applyFadeEffect_newBuffer_samples (buffer : AudioBuffer.t R)
  (startTime endTime : Q) (type : string) :
  AudioBuffer.wf buffer ->
  let startSample := Qfloor (startTime * AudioBuffer.sampleRate buffer) in
  let endSample := Qfloor (endTime * AudioBuffer.sampleRate buffer) in
  let newBuffer := applyFadeEffect_newBuffer buffer startTime endTime type in
  AudioBuffer.sampleRate newBuffer = AudioBuffer.sampleRate buffer /\
  AudioBuffer.length newBuffer = AudioBuffer.length buffer /\
  AudioBuffer.numberOfChannels newBuffer = AudioBuffer.numberOfChannels buffer /\
  forall channel i x,
    get (AudioBuffer.getChannelData buffer channel) i = Some x ->
    get (AudioBuffer.getChannelData newBuffer channel) i
    = Some (if (startSample <=? i)%Z && (i <? endSample)%Z
            then x * fadeMultiplier type startSample endSample i
            else x).
Proof.
  intros Hwf startSample endSample newBuffer.
  unfold newBuffer, applyFadeEffect_newBuffer. cbv zeta.
  fold startSample endSample.
  match goal with
  | |- context [ forRange 0 _ _ ?nb ] =>
      destruct (forEachChannel
        (fun channel newData =>
           forRange startSample endSample
             (fun i newData =>
                match get (AudioBuffer.getChannelData buffer channel) i with
                | Some sample =>
                    set newData i
                      (sample *
                       (0.5 * (1 - cos ((if String.eqb type "in"
                                         then IZR (i - startSample)
                                              / IZR (endSample - startSample)
                                         else 1 - IZR (i - startSample)
                                                  / IZR (endSample - startSample))
                                        * PI))))
                | None => newData
                end)
             (forRange 0
                (Z.of_nat
                   (List.length (AudioBuffer.getChannelData buffer channel)))
                (fun i newData =>
                   set newData i
                     (AudioUtils.read
                        (AudioBuffer.getChannelData buffer channel) i))
                newData))
        (AudioBuffer.numberOfChannels buffer) nb) as (Hsr & Hlen & Hn & Hch)
  end.
  { unfold AudioBuffer.createBuffer, AudioBuffer.numberOfChannels.
    cbn [AudioBuffer.channelData]. apply repeat_length. }
  set (out := forRange 0 _ _ _) in *.
  split; [exact Hsr|]. split; [rewrite Hlen; cbn; lia|]. split; [exact Hn|].
  intros channel i x Hx. pose proof (sample_channel _ _ _ _ Hx) as Hc.
  rewrite (Hch channel Hc).
  rewrite getChannelData_createBuffer by assumption.
  pose proof (getChannelData_wf buffer channel Hwf Hc) as Hl.
  pose proof (applyFadeEffect_channel
                (AudioBuffer.getChannelData buffer channel)
                startSample endSample type) as (_ & G).
  rewrite Hl in G. rewrite Hl. exact (G i x Hx).
Qed.

End Fade.

Section FadeClaim.

Import TypedArray AudioChunkingEditor.

Local Open Scope R_scope.

Lemma fadeCurve_0 : fadeCurve 0 = 0.
Proof. unfold fadeCurve. rewrite Rmult_0_l, cos_0. lra. Qed.

Lemma fadeCurve_1 : fadeCurve 1 = 1.
Proof. unfold fadeCurve. rewrite Rmult_1_l, cos_PI. lra. Qed.

(** Near 0 the ease is small: [0 <= fadeCurve (1/L) <= (PI/L)^2 / 4]. *)
Lemma fadeCurve_small (L : R) :
  1 <= L -> 0 <= fadeCurve (1 / L) <= (PI / L)² / 4.
Proof.
  intros HL. unfold fadeCurve.
  pose proof PI_RGT_0 as Hpi.
  set (y := PI / (2 * L)).
  assert (Hy : 0 < y) by (unfold y; apply Rdiv_lt_0_compat; lra).
  assert (Hy2 : y <= PI / 2).
  { unfold y. apply Rmult_le_reg_r with (2 * L); [lra|]. field_simplify; nra. }
  replace (1 / L * PI) with (2 * y) by (unfold y; field; lra).
  rewrite cos_2a_sin.
  assert (Hs0 : 0 <= sin y) by (apply sin_ge_0; lra).
  pose proof (sin_lt_x y Hy) as Hs1.
  replace ((PI / L)² / 4) with (y * y) by (unfold y, Rsqr; field; lra).
  split; nra.
Qed.

(** Near 1 the ease is close to 1. *)
Lemma fadeCurve_large (L : R) :
  1 <= L -> 0 <= 1 - fadeCurve (1 - 1 / L) <= (PI / L)² / 4.
Proof.
  intros HL. pose proof (fadeCurve_small L HL) as H. unfold fadeCurve in *.
  replace ((1 - 1 / L) * PI) with (PI - 1 / L * PI) by ring.
  rewrite Rtrigo_facts.cos_pi_minus. lra.
Qed.

Lemma fadeCurve_unit (raw : R) : 0 <= fadeCurve raw <= 1.
Proof.
  unfold fadeCurve. pose proof (COS_bound (raw * PI)) as (L & U). lra.
Qed.

Lemma fadeProgress_last (startSample endSample : Z) :
  (startSample < endSample)%Z ->
  fadeProgress startSample endSample (endSample - 1)
  = 1 - 1 / IZR (endSample - startSample).
Proof.
  intros H. unfold fadeProgress.
  replace (endSample - 1 - startSample)%Z with (endSample - startSample - 1)%Z
    by lia.
  rewrite (minus_IZR _ 1). field. apply not_0_IZR. lia.
Qed.

End FadeClaim.

Section FadeAccuracy.

Local Open Scope R_scope.

Lemma Rabs_le_bounds (a b : R) : Rabs a <= b -> - b <= a <= b.
Proof. unfold Rabs. destruct (Rcase_abs a); lra. Qed.

Lemma sin_abs (x : R) : Rabs (sin x) <= Rabs x.
Proof.
  destruct (Rtotal_order x 0) as [H|[->|H]].
  - pose proof (sin_gt_x x H). pose proof (SIN_bound x) as (L & U).
    destruct (Rle_dec (-1) x).
    + assert (sin x <= 0).
      { destruct (Rle_dec (sin x) 0); [assumption|].
        exfalso. pose proof (sin_lt_0_var x) as S. pose proof PI_RGT_0.
        pose proof PI2_3_2. assert (- PI < x) by lra. specialize (S H3 H). lra. }
      rewrite !Rabs_left1 by lra. lra.
    + rewrite (Rabs_left1 x) by lra. apply Rabs_le. lra.
  - rewrite sin_0, Rabs_R0. lra.
  - pose proof (sin_lt_x x H). pose proof (SIN_bound x) as (L & U).
    destruct (Rle_dec x 1).
    + assert (0 <= sin x).
      { apply sin_ge_0; [lra|]. pose proof PI2_3_2. lra. }
      rewrite !Rabs_right by lra. lra.
    + rewrite (Rabs_right x) by lra. apply Rabs_le. lra.
Qed.

Lemma cos_lipschitz (a b : R) : Rabs (cos a - cos b) <= Rabs (a - b).
Proof.
  rewrite form2.
  pose proof (sin_abs ((a - b) / 2)) as H1.
  pose proof (SIN_bound ((a + b) / 2)) as H2.
  assert (H3 : Rabs (sin ((a + b) / 2)) <= 1) by (apply Rabs_le; lra).
  replace (-2 * sin ((a - b) / 2) * sin ((a + b) / 2))
    with ((-2) * (sin ((a - b) / 2) * sin ((a + b) / 2))) by ring.
  rewrite !Rabs_mult. rewrite (Rabs_left (-2)) by lra.
  assert (H4 : Rabs ((a - b) / 2) = Rabs (a - b) / 2).
  { unfold Rdiv. rewrite Rabs_mult, (Rabs_right (/ 2)) by lra. reflexivity. }
  rewrite H4 in H1.
  pose proof (Rabs_pos (sin ((a - b) / 2))).
  pose proof (Rabs_pos (sin ((a + b) / 2))).
  nra.
Qed.

Lemma fadeProgress_unit (s e i : Z) :
  (s <= i < e)%Z -> 0 <= fadeProgress s e i <= 1.
Proof.
  intros H. unfold fadeProgress.
  assert (0 < IZR (e - s)) by (apply IZR_lt; lia).
  assert (0 <= IZR (i - s)) by (apply IZR_le; lia).
  assert (IZR (i - s) <= IZR (e - s)) by (apply IZR_le; lia).
  split.
  - apply Rmult_le_pos; [assumption|]. left. apply Rinv_0_lt_compat. assumption.
  - apply Rmult_le_reg_r with (IZR (e - s)); [assumption|].
    unfold Rdiv. rewrite Rmult_assoc, Rinv_l by lra. lra.
Qed.

End FadeAccuracy.

Section RoundedFade.

Import TypedArray AudioChunkingEditor.

Local Open Scope R_scope.

Variables (o : Machine.Arithmetic).

(** The copy loop followed by the fade loop, on one channel. *)
Lemma rounded_fade_channel (oldData : list Machine.number)
  (startSample endSample : Z) (type : string) :
  let newData :=
    forRange startSample endSample
      (fun i newData =>
         set newData i
           (faded o type startSample endSample i (ofUndefined (get oldData i))))
      (forRange 0 (Z.of_nat (List.length oldData))
         (fun i newData => set newData i (ofUndefined (get oldData i)))
         (repeat zero (Z.to_nat (Z.of_nat (List.length oldData))))) in
  List.length newData = List.length oldData /\
  forall i a, get oldData i = Some a ->
    get newData i
    = Some (if (startSample <=? i)%Z && (i <? endSample)%Z
            then faded o type startSample endSample i a
            else a).
Proof.
  cbv zeta. rewrite Nat2Z.id.
  destruct (forRange_pointwise
              (fun i newData => set newData i (ofUndefined (get oldData i)))
              0 (fun i _ => ofUndefined (get oldData i))
              0 (Z.of_nat (List.length oldData))
              (repeat zero (List.length oldData))) as (L1 & G1).
  { intros. apply length_set. }
  { intros. apply get_set_other. lia. }
  { intros i d x _ _ Hx. rewrite Z.add_0_r in *. eapply get_set_same; eauto. }
  set (copied := forRange 0 (Z.of_nat (List.length oldData)) _ _) in *.
  rewrite repeat_length in L1.
  destruct (forRange_pointwise
    (fun i newData =>
       set newData i
         (faded o type startSample endSample i (ofUndefined (get oldData i))))
    0 (fun i _ => faded o type startSample endSample i
                    (ofUndefined (get oldData i)))
    startSample endSample copied) as (L2 & G2).
  { intros. apply length_set. }
  { intros. apply get_set_other. lia. }
  { intros i d x _ _ Hx. rewrite Z.add_0_r in *. eapply get_set_same; eauto. }
  split; [congruence|].
  intros i a Hx. pose proof (get_range _ _ _ Hx) as Hr.
  assert (Hz : get (repeat (zero : Machine.number) (List.length oldData)) i
               = Some zero)
    by (apply get_repeat; lia).
  specialize (G1 _ _ Hz). specialize (G2 _ _ G1). rewrite G2.
  rewrite !Z.sub_0_r, Hx. cbn [ofUndefined].
  destruct (Z.leb_spec 0 i), (Z.ltb_spec i (Z.of_nat (List.length oldData)));
    try lia. reflexivity.
Qed.

(** The buffer built by [applyFadeEffect], sample by sample: the host
    grants it whenever the old buffer has a frame. *)
Lemma rounded_fade_samples (rnd : Q -> Q) (buffer : AudioBuffer.t Machine.number)
  (startTime endTime : Q) (type : string) :
  AudioBuffer.wf buffer ->
  (1 <= AudioBuffer.length buffer)%nat ->
  let startSample := Qfloor (rnd (startTime * AudioBuffer.sampleRate buffer)%Q) in
  let endSample := Qfloor (rnd (endTime * AudioBuffer.sampleRate buffer)%Q) in
  exists newBuffer,
    Machine.applyFadeEffect_newBuffer o rnd buffer startTime endTime type
    = Machine.Normal newBuffer /\
    AudioBuffer.sampleRate newBuffer = AudioBuffer.sampleRate buffer /\
    AudioBuffer.length newBuffer = AudioBuffer.length buffer /\
    AudioBuffer.numberOfChannels newBuffer
    = AudioBuffer.numberOfChannels buffer /\
    forall channel i a,
      get (AudioBuffer.getChannelData buffer channel) i = Some a ->
      get (AudioBuffer.getChannelData newBuffer channel) i
      = Some (if (startSample <=? i)%Z && (i <? endSample)%Z
              then faded o type startSample endSample i a
              else a).
Proof.
  intros Hwf Hlen startSample endSample.
  unfold Machine.applyFadeEffect_newBuffer, Machine.createBuffer.
  destruct (Z.ltb_spec (Z.of_nat (AudioBuffer.length buffer)) 1) as [Hlt|_];
    [lia|].
  eexists. split; [reflexivity|]. cbv zeta.
  fold startSample endSample.
  match goal with
  | |- context [ forRange 0 _ _ ?nb ] =>
      destruct (forEachChannel
        (fun channel newData =>
           forRange startSample endSample
             (fun i newData =>
                set newData i
                  (faded o type startSample endSample i
                     (ofUndefined
                        (get (AudioBuffer.getChannelData buffer channel) i))))
             (forRange 0
                (Z.of_nat
                   (List.length (AudioBuffer.getChannelData buffer channel)))
                (fun i newData =>
                   set newData i
                     (ofUndefined
                        (get (AudioBuffer.getChannelData buffer channel) i)))
                newData))
        (AudioBuffer.numberOfChannels buffer) nb) as (Hsr & Hl & Hn & Hch)
  end.
  { unfold AudioBuffer.createBuffer, AudioBuffer.numberOfChannels.
    cbn [AudioBuffer.channelData]. apply repeat_length. }
  unfold faded, roundedFadeMultiplier in Hsr, Hl, Hn, Hch.
  cbv zeta in Hsr, Hl, Hn, Hch.
  set (out := forRange 0 _ _ _) in *.
  split; [exact Hsr|]. split; [rewrite Hl; cbn; lia|]. split; [exact Hn|].
  intros channel i a Hx. pose proof (sample_channel _ _ _ _ Hx) as Hc.
  rewrite (Hch channel Hc).
  rewrite getChannelData_createBuffer by assumption.
  pose proof (getChannelData_wf buffer channel Hwf Hc) as Hlc.
  pose proof (rounded_fade_channel
                (AudioBuffer.getChannelData buffer channel)
                startSample endSample type) as (_ & G).
  rewrite Hlc in G. rewrite Hlc. exact (G i a Hx).
Qed.

(** At the first frame of a fade-in the multiplier is 0, at the first frame
    of a fade-out it is 1. *)
Lemma roundedFadeMultiplier_first (startSample endSample : Z) :
  exact_at_the_ends o ->
  roundedFadeMultiplier o "in" startSample endSample startSample = 0 /\
  roundedFadeMultiplier o "out" startSample endSample startSample = 1.
Proof.
  intros (D0 & D1 & D2 & F0 & DPI & C0 & CPI).
  unfold roundedFadeMultiplier. cbn [String.eqb Ascii.eqb Bool.eqb].
  rewrite Z.sub_diag. unfold Rdiv at 1 2. rewrite !Rmult_0_l, D0. split.
  - rewrite Rmult_0_l, D0, C0.
    replace (1 - 1) with 0 by ring. rewrite D0, Rmult_0_r. exact D0.
  - rewrite Rminus_0_r, D1, Rmult_1_l, DPI, CPI.
    replace (1 - -1) with 2 by ring. rewrite D2.
    replace (0.5 * 2) with 1 by lra. exact D1.
Qed.

(** The multiplier of the program is within [8 * u] of the cosine ease. *)
Lemma roundedFadeMultiplier_accurate (u v : R)
  (type : string) (s e i : Z) :
  accurate o u v -> (s <= i < e)%Z ->
  Rabs (roundedFadeMultiplier o type s e i - fadeMultiplier type s e i)
  <= 8 * u.
Proof.
  intros ((U0 & U1) & V0 & D & F & P & C) Hi.
  pose proof (fadeProgress_unit s e i Hi) as (Q0 & Q1).
  unfold roundedFadeMultiplier, fadeMultiplier, fadeCurve.
  fold (fadeProgress s e i).
  set (q := fadeProgress s e i) in *.
  pose proof PI_RGT_0 as Pi0. pose proof PI_4 as Pi4.
  apply Rabs_le_bounds in P.
  assert (Hp : Rabs (Machine.double o q - q) <= u)
    by (apply D; apply Rabs_le; lra).
  apply Rabs_le_bounds in Hp.
  set (p := Machine.double o q) in *.
  assert (Hraw : exists raw raw0,
    (if String.eqb type "in" then p else Machine.double o (1 - p)) = raw /\
    (if String.eqb type "in" then q else 1 - q) = raw0 /\
    0 <= raw0 <= 1 /\ - (2 * u) <= raw - raw0 <= 2 * u).
  { destruct (String.eqb type "in").
    - exists p, q. repeat split; lra.
    - exists (Machine.double o (1 - p)), (1 - q).
      assert (G : Rabs (Machine.double o (1 - p) - (1 - p)) <= u)
        by (apply D; apply Rabs_le; lra).
      apply Rabs_le_bounds in G. repeat split; lra. }
  destruct Hraw as (raw & raw0 & -> & -> & R0 & R1).
  set (PIr := Machine.Math_PI o) in *.
  assert (Hprod : - (11 * u) <= raw * PIr - raw0 * PI <= 11 * u) by nra.
  assert (Ht : Rabs (Machine.double o (raw * PIr) - raw * PIr) <= u)
    by (apply D; apply Rabs_le; nra).
  apply Rabs_le_bounds in Ht.
  set (t := Machine.double o (raw * PIr)) in *.
  assert (Hc : Rabs (Machine.Math_cos o t - cos t) <= u)
    by (apply C; apply Rabs_le; nra).
  apply Rabs_le_bounds in Hc.
  pose proof (cos_lipschitz t (raw0 * PI)) as Hl.
  assert (Hl' : Rabs (t - raw0 * PI) <= 12 * u) by (apply Rabs_le; lra).
  pose proof (Rle_trans _ _ _ Hl Hl') as Hcc. apply Rabs_le_bounds in Hcc.
  pose proof (COS_bound (raw0 * PI)) as (B0 & B1).
  set (c := Machine.Math_cos o t) in *.
  assert (Hs : Rabs (Machine.double o (1 - c) - (1 - c)) <= u)
    by (apply D; apply Rabs_le; lra).
  apply Rabs_le_bounds in Hs.
  set (w := Machine.double o (1 - c)) in *.
  assert (Hm : Rabs (Machine.double o (0.5 * w) - 0.5 * w) <= u)
    by (apply D; apply Rabs_le; lra).
  apply Rabs_le_bounds in Hm.
  apply Rabs_le. lra.
Qed.

(** C7: [applyFadeEffect] on a loaded buffer that has a frame.  The call
    returns; every sample at an index [i] in [[startSample, endSample)] is
    the input sample times [0.5 * (1 - cos(raw * PI))], where [raw] is
    [(i - startSample) / (endSample - startSample)] for type "in" and one
    minus that otherwise, each operation being rounded as the program
    rounds it and the product being stored as a binary32 number; every
    other sample is copied; the frame count, the channel count and the
    sample rate are unchanged.  At the first index of a non-empty range a
    fade-in yields exactly 0 and a fade-out exactly the input sample.
    Under an arithmetic that is accurate within [u] and [v], a sample [x]
    of [[-1, 1]] in the range becomes a number within [9 * u + v] of
    [x * 0.5 * (1 - cos(raw * PI))]; at the last index of the range that
    number is within [(PI / L)^2 / 4 + 9 * u + v] of [x] for type "in" and
    of 0 for type "out", [L] being the number of frames of the range. *)
Theorem applyFadeEffect_samples (rnd : Q -> Q)
  (ed : AudioChunkingEditor.t Machine.number)
  (buffer : AudioBuffer.t Machine.number) (startTime endTime : Q)
  (type : string) :
  audioBuffer ed = Some buffer ->
  AudioBuffer.wf buffer ->
  (1 <= AudioBuffer.length buffer)%nat ->
  let startSample := Qfloor (rnd (startTime * AudioBuffer.sampleRate buffer)%Q) in
  let endSample := Qfloor (rnd (endTime * AudioBuffer.sampleRate buffer)%Q) in
  let L := IZR (endSample - startSample) in
  exists ed' newBuffer,
    Machine.applyFadeEffect o rnd startTime endTime type ed
    = Machine.Normal ed' /\
    audioBuffer ed' = Some newBuffer /\
    AudioBuffer.length newBuffer = AudioBuffer.length buffer /\
    AudioBuffer.numberOfChannels newBuffer
    = AudioBuffer.numberOfChannels buffer /\
    AudioBuffer.sampleRate newBuffer = AudioBuffer.sampleRate buffer /\
    (forall channel i a,
       get (AudioBuffer.getChannelData buffer channel) i = Some a ->
       ((startSample <= i < endSample)%Z ->
        get (AudioBuffer.getChannelData newBuffer channel) i
        = Some (Machine.store o
                  (Machine.mul o a
                     (Machine.Fin
                        (roundedFadeMultiplier o type startSample endSample i))))) /\
       (~ (startSample <= i < endSample)%Z ->
        get (AudioBuffer.getChannelData newBuffer channel) i = Some a)) /\
    (exact_at_the_ends o ->
     forall channel x,
       (startSample < endSample)%Z ->
       get (AudioBuffer.getChannelData buffer channel) startSample
       = Some (Machine.Fin x) ->
       (type = "in"%string ->
        get (AudioBuffer.getChannelData newBuffer channel) startSample
        = Some (Machine.Fin 0)) /\
       (type = "out"%string -> storable o x ->
        get (AudioBuffer.getChannelData newBuffer channel) startSample
        = Some (Machine.Fin x))) /\
    (forall u v, accurate o u v ->
     forall channel i x,
       (startSample <= i < endSample)%Z ->
       get (AudioBuffer.getChannelData buffer channel) i
       = Some (Machine.Fin x) ->
       Rabs x <= 1 ->
       exists y,
         get (AudioBuffer.getChannelData newBuffer channel) i
         = Some (Machine.Fin y) /\
         Rabs (y - x * fadeMultiplier type startSample endSample i)
         <= 9 * u + v /\
         (i = (endSample - 1)%Z ->
          (type = "in"%string ->
           Rabs (y - x) <= (PI / L)² / 4 + 9 * u + v) /\
          (type = "out"%string ->
           Rabs y <= (PI / L)² / 4 + 9 * u + v))).
Proof.
  intros Hbuf Hwf Hlen startSample endSample L.
  destruct (rounded_fade_samples rnd buffer startTime endTime type Hwf Hlen)
    as (newBuffer & Hnew & F1 & F2 & F3 & F4).
  fold startSample endSample in F4.
  eexists. exists newBuffer.
  split; [unfold Machine.applyFadeEffect; rewrite Hbuf, Hnew; reflexivity|].
  split; [reflexivity|].
  split; [exact F2|]. split; [exact F3|]. split; [exact F1|].
  assert (Hin : forall channel i a,
    get (AudioBuffer.getChannelData buffer channel) i = Some a ->
    (startSample <= i < endSample)%Z ->
    get (AudioBuffer.getChannelData newBuffer channel) i
    = Some (faded o type startSample endSample i a)).
  { intros channel i a Hx Hi. rewrite (F4 channel i a Hx).
    destruct (Z.leb_spec startSample i), (Z.ltb_spec i endSample); try lia.
    reflexivity. }
  split; [|split].
  - intros channel i a Hx. split.
    + intros Hi. exact (Hin channel i a Hx Hi).
    + intros Hi. rewrite (F4 channel i a Hx).
      destruct (Z.leb_spec startSample i), (Z.ltb_spec i endSample);
        try lia; reflexivity.
  - intros Hends channel x Hlt Hx.
    rewrite (Hin channel _ _ Hx) by lia.
    destruct (roundedFadeMultiplier_first startSample endSample Hends)
      as (Min & Mout).
    destruct Hends as (D0 & D1 & D2 & F0 & _).
    unfold faded. split.
    + intros ->. rewrite Min. cbn [Machine.mul Machine.store].
      rewrite Rmult_0_r, D0, F0. reflexivity.
    + intros -> (Sd & Sf). rewrite Mout. cbn [Machine.mul Machine.store].
      rewrite Rmult_1_r, Sd, Sf. reflexivity.
  - intros u v Hacc channel i x Hi Hx Hx1.
    rewrite (Hin channel _ _ Hx Hi).
    pose proof (roundedFadeMultiplier_accurate u v type startSample endSample
                  i Hacc Hi) as Hm.
    apply Rabs_le_bounds in Hm. apply Rabs_le_bounds in Hx1.
    destruct Hacc as ((U0 & U1) & V0 & D & F & _).
    unfold faded. cbn [Machine.mul Machine.store]. eexists.
    split; [reflexivity|].
    set (mr := roundedFadeMultiplier o type startSample endSample i) in *.
    assert (Hu : 0 <= fadeMultiplier type startSample endSample i <= 1)
      by apply fadeCurve_unit.
    set (m := fadeMultiplier type startSample endSample i) in *.
    assert (Hp : - (8 * u) <= x * mr - x * m <= 8 * u) by nra.
    assert (Hxm : -1 <= x * m <= 1) by nra.
    assert (Hd : Rabs (Machine.double o (x * mr) - x * mr) <= u)
      by (apply D; apply Rabs_le; lra).
    apply Rabs_le_bounds in Hd.
    set (d := Machine.double o (x * mr)) in *.
    assert (Hf : Rabs (Machine.float32 o d - d) <= v)
      by (apply F; apply Rabs_le; lra).
    apply Rabs_le_bounds in Hf.
    set (y := Machine.float32 o d) in *.
    assert (Hy : - (9 * u + v) <= y - x * m <= 9 * u + v) by lra.
    split; [apply Rabs_le; exact Hy|].
    intros ->.
    assert (Hlt : (startSample < endSample)%Z) by lia.
    assert (HL : 1 <= L) by (apply IZR_le; lia).
    pose proof (fadeCurve_small L HL) as Hs.
    pose proof (fadeCurve_large L HL) as Hl.
    assert (Hb : 0 <= (PI / L)² / 4) by lra.
    unfold m, fadeMultiplier in Hy.
    rewrite fadeProgress_last in Hy by assumption. fold L in Hy.
    split; intros ->; cbn [String.eqb Ascii.eqb Bool.eqb] in Hy.
    + apply Rabs_le. nra.
    + replace (1 - (1 - 1 / L)) with (1 / L) in Hy by ring.
      apply Rabs_le. nra.
Qed.

End RoundedFade.

Section RoundedFadeExample.

Import TypedArray AudioChunkingEditor.

Local Open Scope R_scope.

Lemma toneNumbers_wf : AudioBuffer.wf toneNumbers.
Proof. repeat constructor. Qed.

Lemma exact_arithmetic_ends : exact_at_the_ends Machine.exact.
Proof.
  unfold exact_at_the_ends. cbn.
  repeat split; try reflexivity; [apply cos_0 | apply cos_PI].
Qed.

(** The arithmetic without rounding is accurate within 0. *)
Lemma exact_arithmetic_accurate : accurate Machine.exact 0 0.
Proof.
  unfold accurate. cbn.
  repeat split; try lra; intros;
    match goal with
    | |- Rabs (?x - ?x) <= 0 =>
        replace (x - x) with 0 by ring; rewrite Rabs_R0; lra
    end.
Qed.

Lemma applyFadeEffect_samples_witness :
  exists ed' newBuffer,
    Machine.applyFadeEffect Machine.exact Double.round 0 2 "in"
      toneNumbersEditor
    = Machine.Normal ed' /\
    audioBuffer ed' = Some newBuffer /\
    get (AudioBuffer.getChannelData newBuffer 0) 0 = Some (Machine.Fin 0).
Proof.
  destruct (applyFadeEffect_samples Machine.exact Double.round
              toneNumbersEditor toneNumbers 0 2 "in" eq_refl toneNumbers_wf)
    as (ed' & newBuffer & Hed & Hb & _ & _ & _ & _ & Hends & _).
  - cbn. lia.
  - exists ed', newBuffer. split; [exact Hed|]. split; [exact Hb|].
    apply (Hends exact_arithmetic_ends 0%Z 0.5).
    + vm_compute. reflexivity.
    + reflexivity.
    + reflexivity.
Defined.

End RoundedFadeExample.


(** ** Normalisation *)

Section RoundedNormalize.

Import TypedArray.

Local Open Scope R_scope.

Variable o : Machine.Arithmetic.

Lemma peak_nonneg (samples : list R) : 0 <= peak samples.
Proof.
  induction samples as [|x xs IH]; simpl; [lra|].
  eapply Rle_trans; [exact IH | apply Rmax_r].
Qed.

Lemma analyse_fold (samples : list R) (sumSquares : R) (sampleCount : Z)
  (maxAmplitude : R) :
  0 <= maxAmplitude ->
  fold_left (analyse o) (map Machine.Fin samples)
    (Machine.Fin sumSquares, sampleCount, Machine.Fin maxAmplitude)
  = (Machine.Fin
       (fold_left
          (fun sum x => Machine.double o (sum + Machine.double o (x * x)))
          samples sumSquares),
     (sampleCount + Z.of_nat (List.length samples))%Z,
     Machine.Fin (Rmax maxAmplitude (peak samples))).
Proof.
  revert sumSquares sampleCount maxAmplitude.
  induction samples as [|x xs IH]; intros s c m Hm.
  - cbn [fold_left map peak fold_right List.length].
    rewrite Rmax_left by assumption.
    apply (f_equal2 pair); [apply (f_equal2 pair); [reflexivity | lia]|reflexivity].
  - cbn [fold_left map analyse Machine.Math_abs Machine.add Machine.mul].
    assert (E : (if Machine.gt (Machine.Fin (Rabs x)) (Machine.Fin m)
                 then Machine.Fin (Rabs x)
                 else Machine.Fin m) = Machine.Fin (Rmax m (Rabs x))).
    { cbn [Machine.gt]. unfold Rmax. destruct (Rlt_dec m (Rabs x)), (Rle_dec m (Rabs x));
        try reflexivity; try lra. f_equal. lra. }
    rewrite E, IH by (eapply Rle_trans; [exact Hm | apply Rmax_l]).
    change (peak (x :: xs)) with (Rmax (Rabs x) (peak xs)).
    apply (f_equal2 pair);
      [apply (f_equal2 pair); [reflexivity | cbn [List.length]; lia]|].
    now rewrite Rmax_assoc.
Qed.

Lemma forRange_read {S : Type} (f : S -> Machine.number -> S)
  (data : list Machine.number) (startSample endSample : Z) (acc : S) :
  forRange startSample endSample
    (fun i acc => f acc (ofUndefined (get data i))) acc
  = fold_left f (map (fun i => ofUndefined (get data i))
                     (zrange startSample endSample)) acc.
Proof.
  unfold forRange. generalize (zrange startSample endSample) as l. revert acc.
  intros acc l. revert acc. induction l as [|i l IH]; intros acc; simpl; auto.
Qed.

Lemma forRange_channels {S : Type} (g : list Machine.number -> S -> S)
  (buffer : AudioBuffer.t Machine.number) (acc : S) :
  forRange 0 (Z.of_nat (AudioBuffer.numberOfChannels buffer))
    (fun channel acc => g (AudioBuffer.getChannelData buffer channel) acc) acc
  = fold_left (fun acc data => g data acc) (AudioBuffer.channelData buffer) acc.
Proof.
  unfold AudioBuffer.numberOfChannels, AudioBuffer.getChannelData.
  generalize (AudioBuffer.channelData buffer) as l. intros l.
  induction l as [|d l IH] using rev_ind.
  - reflexivity.
  - rewrite length_app, fold_left_app. cbn [List.length fold_left].
    replace (Z.of_nat (List.length l + 1)) with (Z.of_nat (List.length l) + 1)%Z
      by lia.
    rewrite forRange_snoc by lia. rewrite <- IH.
    assert (Hd : get (l ++ [d]) (Z.of_nat (List.length l)) = Some d).
    { unfold get. destruct (Z.ltb_spec (Z.of_nat (List.length l)) 0); [lia|].
      rewrite Nat2Z.id. apply nth_error_middle. }
    rewrite Hd. f_equal. apply forRange_ext. intros i st Hi.
    assert (Hg : get (l ++ [d]) i = get l i).
    { unfold get. destruct (Z.ltb_spec i 0); [reflexivity|].
      apply nth_error_app1. lia. }
    now rewrite Hg.
Qed.

Lemma fold_left_flat_map {S B C : Type} (f : S -> C -> S) (h : B -> list C)
  (l : list B) (acc : S) :
  fold_left (fun acc b => fold_left f (h b) acc) l acc
  = fold_left f (flat_map h l) acc.
Proof.
  revert acc. induction l as [|b l IH]; intros acc; simpl; auto.
  now rewrite fold_left_app, IH.
Qed.

(** The analysis pass of [normalizeAudio] folds its loop body over the
    samples the range reads. *)
Lemma analysis_pass (buffer : AudioBuffer.t Machine.number)
  (startSample endSample : Z) :
  forRange 0 (Z.of_nat (AudioBuffer.numberOfChannels buffer))
    (fun channel acc =>
       let channelData := AudioBuffer.getChannelData buffer channel in
       forRange startSample endSample
         (fun i '(sumSquares, sampleCount, maxAmplitude) =>
            let sample := ofUndefined (get channelData i) in
            let amplitude := Machine.Math_abs sample in
            (Machine.add o sumSquares (Machine.mul o sample sample),
             (sampleCount + 1)%Z,
             if Machine.gt amplitude maxAmplitude then amplitude
             else maxAmplitude))
         acc)
    (Machine.Fin 0, 0%Z, Machine.Fin 0)
  = fold_left (analyse o) (readSamples buffer startSample endSample)
      (Machine.Fin 0, 0%Z, Machine.Fin 0).
Proof.
  transitivity
    (forRange 0 (Z.of_nat (AudioBuffer.numberOfChannels buffer))
       (fun channel acc =>
          fold_left (analyse o)
            (map (fun i => ofUndefined
                             (get (AudioBuffer.getChannelData buffer channel) i))
                 (zrange startSample endSample)) acc)
       (Machine.Fin 0, 0%Z, Machine.Fin 0)).
  - apply forRange_ext. intros channel st _. cbv zeta.
    apply (forRange_read (analyse o)).
  - rewrite (forRange_channels
               (fun data acc =>
                  fold_left (analyse o)
                    (map (fun i => ofUndefined (get data i))
                         (zrange startSample endSample))
                    acc)).
    cbv beta.
    rewrite (fold_left_flat_map (analyse o)
               (fun data => map (fun i => ofUndefined (get data i))
                                (zrange startSample endSample))).
    reflexivity.
Qed.

(** The scaling loop of [normalizeAudio] on one channel. *)
Lemma normalize_channel (data : list Machine.number)
  (startSample endSample : Z) (normalizationFactor : Machine.number) :
  let result :=
    forRange startSample endSample
      (fun i newData =>
         let newData :=
           set newData i
             (Machine.store o
                (Machine.mul o (ofUndefined (get newData i))
                   normalizationFactor)) in
         set newData i
           (Machine.store o (Machine.clamp (ofUndefined (get newData i)))))
      data in
  List.length result = List.length data /\
  forall i a, get data i = Some a ->
    get result i
    = Some (if (startSample <=? i)%Z && (i <? endSample)%Z
            then Machine.store o
                   (Machine.clamp
                      (Machine.store o (Machine.mul o a normalizationFactor)))
            else a).
Proof.
  cbv zeta.
  destruct (forRange_pointwise
    (fun i newData =>
       set (set newData i
              (Machine.store o
                 (Machine.mul o (ofUndefined (get newData i))
                    normalizationFactor))) i
         (Machine.store o
            (Machine.clamp
               (ofUndefined
                  (get (set newData i
                          (Machine.store o
                             (Machine.mul o (ofUndefined (get newData i))
                                normalizationFactor))) i)))))
    0 (fun _ a => Machine.store o
                    (Machine.clamp
                       (Machine.store o (Machine.mul o a normalizationFactor))))
    startSample endSample data) as (L & G).
  { intros. now rewrite !length_set. }
  { intros i d j _ _ Hne. rewrite !get_set_other by lia. reflexivity. }
  { intros i d x _ _ Hx. rewrite Z.add_0_r in *.
    assert (H1 : get (set d i
                        (Machine.store o
                           (Machine.mul o (ofUndefined (get d i))
                              normalizationFactor))) i
                 = Some (Machine.store o (Machine.mul o x normalizationFactor))).
    { rewrite Hx. cbn [ofUndefined]. eapply get_set_same; eauto. }
    rewrite H1. cbn [ofUndefined]. eapply get_set_same; eauto. }
  split; [exact L|]. intros i x Hx. rewrite (G i x Hx), !Z.sub_0_r.
  reflexivity.
Qed.

(** The copy loop of [normalizeAudio] on one channel. *)
Lemma copy_channel (oldData : list Machine.number) :
  let result :=
    forRange 0 (Z.of_nat (List.length oldData))
      (fun i newData => set newData i (ofUndefined (get oldData i)))
      (repeat (zero : Machine.number) (List.length oldData)) in
  result = oldData.
Proof.
  cbv zeta.
  destruct (forRange_pointwise
              (fun i newData => set newData i (ofUndefined (get oldData i)))
              0 (fun i _ => ofUndefined (get oldData i))
              0 (Z.of_nat (List.length oldData))
              (repeat zero (List.length oldData))) as (L & G).
  { intros. apply length_set. }
  { intros. apply get_set_other. lia. }
  { intros i d x _ _ Hx. rewrite Z.add_0_r in *. eapply get_set_same; eauto. }
  rewrite repeat_length in L. apply get_ext. intros i.
  destruct (Z_lt_dec i 0) as [Hneg|Hpos];
    [rewrite !get_out_of_range by lia; reflexivity|].
  destruct (Z_lt_dec i (Z.of_nat (List.length oldData))) as [Hin|Hout];
    [|rewrite !get_out_of_range by lia; reflexivity].
  rewrite (G i zero) by (apply get_repeat; lia).
  destruct (get_in_range oldData i ltac:(lia)) as (x & Hx).
  rewrite Z.sub_0_r, Hx. cbn [ofUndefined].
  destruct (Z.leb_spec 0 i), (Z.ltb_spec i (Z.of_nat (List.length oldData)));
    try lia; reflexivity.
Qed.

(** The copy pass of [normalizeAudio] rebuilds the buffer it is given. *)
Lemma copy_pass (buffer : AudioBuffer.t Machine.number) :
  AudioBuffer.wf buffer ->
  forRange 0 (Z.of_nat (AudioBuffer.numberOfChannels buffer))
    (fun channel newBuffer =>
       AudioBuffer.setChannelData newBuffer channel
         (forRange 0
            (Z.of_nat (List.length (AudioBuffer.getChannelData buffer channel)))
            (fun i newData =>
               set newData i
                 (ofUndefined (get (AudioBuffer.getChannelData buffer channel) i)))
            (AudioBuffer.getChannelData newBuffer channel)))
    (AudioBuffer.createBuffer (AudioBuffer.numberOfChannels buffer)
       (Z.of_nat (AudioBuffer.length buffer)) (AudioBuffer.sampleRate buffer))
  = buffer.
Proof.
  intros Hwf.
  match goal with
  | |- forRange 0 _ _ ?nb = _ =>
      destruct (forEachChannel
        (fun channel newData =>
           forRange 0
             (Z.of_nat (List.length (AudioBuffer.getChannelData buffer channel)))
             (fun i newData =>
                set newData i
                  (ofUndefined (get (AudioBuffer.getChannelData buffer channel) i)))
             newData)
        (AudioBuffer.numberOfChannels buffer) nb) as (Hsr & Hlen & Hn & Hch)
  end.
  { unfold AudioBuffer.createBuffer, AudioBuffer.numberOfChannels.
    cbn [AudioBuffer.channelData]. apply repeat_length. }
  set (out := forRange 0 _ _ _) in *.
  assert (Hcd : AudioBuffer.channelData out = AudioBuffer.channelData buffer).
  { apply channelData_ext; [exact Hn|]. intros channel Hc.
    rewrite (Hch channel Hc), getChannelData_createBuffer by assumption.
    pose proof (getChannelData_wf buffer channel Hwf Hc) as Hl.
    rewrite Nat2Z.id, <- Hl. apply copy_channel. }
  cbn [AudioBuffer.createBuffer AudioBuffer.sampleRate AudioBuffer.length] in *.
  rewrite Nat2Z.id in Hlen.
  destruct out as [sr len cd], buffer as [sr' len' cd'].
  cbn [AudioBuffer.sampleRate AudioBuffer.length AudioBuffer.channelData] in *.
  congruence.
Qed.

(** The scaling pass of [normalizeAudio], sample by sample. *)
Lemma scaling_pass (buffer : AudioBuffer.t Machine.number)
  (startSample endSample : Z) (normalizationFactor : Machine.number) :
  let out :=
    forRange 0 (Z.of_nat (AudioBuffer.numberOfChannels buffer))
      (fun channel newBuffer =>
         AudioBuffer.setChannelData newBuffer channel
           (forRange startSample endSample
              (fun i newData =>
                 let newData :=
                   set newData i
                     (Machine.store o
                        (Machine.mul o (ofUndefined (get newData i))
                           normalizationFactor)) in
                 set newData i
                   (Machine.store o
                      (Machine.clamp (ofUndefined (get newData i)))))
              (AudioBuffer.getChannelData newBuffer channel)))
      buffer in
  AudioBuffer.length out = AudioBuffer.length buffer /\
  AudioBuffer.numberOfChannels out = AudioBuffer.numberOfChannels buffer /\
  AudioBuffer.sampleRate out = AudioBuffer.sampleRate buffer /\
  forall channel i a,
    get (AudioBuffer.getChannelData buffer channel) i = Some a ->
    get (AudioBuffer.getChannelData out channel) i
    = Some (if (startSample <=? i)%Z && (i <? endSample)%Z
            then Machine.store o
                   (Machine.clamp
                      (Machine.store o (Machine.mul o a normalizationFactor)))
            else a).
Proof.
  cbv zeta.
  destruct (forEachChannel
    (fun (channel : Z) newData =>
       forRange startSample endSample
         (fun i newData =>
            set
              (set newData i
                 (Machine.store o
                    (Machine.mul o (ofUndefined (get newData i))
                       normalizationFactor))) i
              (Machine.store o
                 (Machine.clamp
                    (ofUndefined
                       (get
                          (set newData i
                             (Machine.store o
                                (Machine.mul o (ofUndefined (get newData i))
                                   normalizationFactor))) i)))))
         newData)
    (AudioBuffer.numberOfChannels buffer) buffer eq_refl)
    as (Fsr & Flen & Fn & Fch).
  set (result := forRange 0 _ _ buffer) in *.
  split; [exact Flen|]. split; [exact Fn|]. split; [exact Fsr|].
  intros channel i a Hx.
  pose proof (sample_channel _ _ _ _ Hx) as Hc. rewrite (Fch channel Hc).
  destruct (normalize_channel (AudioBuffer.getChannelData buffer channel)
              startSample endSample normalizationFactor) as (_ & G).
  cbv zeta in G. exact (G i a Hx).
Qed.

(** The analysis loop on samples of which one is NaN: the sum of squares is
    NaN, and the running maximum is a number that bounds the numbers
    read. *)
Lemma analyse_nan (samples : list Machine.number) (sumSquares : Machine.number)
  (sampleCount : Z) (maxAmplitude : R) :
  exists sumSquares' maxAmplitude',
    fold_left (analyse o) samples
      (sumSquares, sampleCount, Machine.Fin maxAmplitude)
    = (sumSquares', (sampleCount + Z.of_nat (List.length samples))%Z,
       Machine.Fin maxAmplitude') /\
    maxAmplitude <= maxAmplitude' /\
    (sumSquares = Machine.Nan -> sumSquares' = Machine.Nan) /\
    (In Machine.Nan samples -> sumSquares' = Machine.Nan) /\
    (forall x, In (Machine.Fin x) samples -> Rabs x <= maxAmplitude').
Proof.
  revert sumSquares sampleCount maxAmplitude.
  induction samples as [|a l IH]; intros s c m.
  - exists s, m. cbn [fold_left List.length In].
    split; [apply (f_equal2 pair); [apply (f_equal2 pair); [reflexivity | lia]
                                   |reflexivity]|].
    split; [lra|]. repeat split; tauto.
  - cbn [fold_left analyse]. destruct a as [x|].
    + cbn [Machine.Math_abs Machine.mul Machine.gt].
      assert (E : exists m1, (if (if Rlt_dec m (Rabs x) then true else false)
                   then Machine.Fin (Rabs x)
                   else Machine.Fin m) = Machine.Fin m1 /\
                  m <= m1 /\ Rabs x <= m1).
      { destruct (Rlt_dec m (Rabs x)); eexists; split; try reflexivity; lra. }
      destruct E as (m1 & -> & M1 & M2).
      destruct (IH (Machine.add o s (Machine.Fin (Machine.double o (x * x))))
                  (c + 1)%Z m1) as (s' & m' & E & M & N1 & N2 & B).
      exists s', m'. rewrite E.
      split; [apply (f_equal2 pair); [apply (f_equal2 pair);
                [reflexivity | cbn [List.length]; lia] | reflexivity]|].
      split; [lra|]. split; [intros ->; apply N1; reflexivity|].
      split.
      * intros [H|H]; [discriminate | exact (N2 H)].
      * intros y [H|H]; [injection H as <-; lra | exact (B y H)].
    + cbn [Machine.Math_abs Machine.mul Machine.gt].
      destruct (IH (Machine.add o s Machine.Nan) (c + 1)%Z m)
        as (s' & m' & E & M & N1 & N2 & B).
      exists s', m'. rewrite E.
      split; [apply (f_equal2 pair); [apply (f_equal2 pair);
                [reflexivity | cbn [List.length]; lia] | reflexivity]|].
      split; [lra|].
      assert (Hn : s' = Machine.Nan) by (apply N1; destruct s; reflexivity).
      split; [intros _; exact Hn|]. split; [intros _; exact Hn|].
      intros y [H|H]; [discriminate | exact (B y H)].
Qed.

(** When the range reads NaN and a number that is not 0, every sample of
    the range becomes NaN. *)
Lemma normalizeAudio_reads_nan (rnd : Q -> Q)
  (buffer : AudioBuffer.t Machine.number) (startTime endTime : Q)
  (targetLevel : option R) (x : R) :
  AudioBuffer.wf buffer ->
  (1 <= AudioBuffer.length buffer)%nat ->
  let startSample := Qfloor (rnd (startTime * AudioBuffer.sampleRate buffer)%Q) in
  let endSample := Qfloor (rnd (endTime * AudioBuffer.sampleRate buffer)%Q) in
  In Machine.Nan (readSamples buffer startSample endSample) ->
  In (Machine.Fin x) (readSamples buffer startSample endSample) ->
  x <> 0 ->
  exists out,
    Machine.normalizeAudio o rnd buffer startTime endTime targetLevel
    = Machine.Normal out /\
    forall channel i a,
      get (AudioBuffer.getChannelData buffer channel) i = Some a ->
      (startSample <= i < endSample)%Z ->
      get (AudioBuffer.getChannelData out channel) i = Some Machine.Nan.
Proof.
  intros Hwf Hlen startSample endSample Hnan Hx Hx0.
  unfold Machine.normalizeAudio, Machine.createBuffer.
  destruct (Z.ltb_spec (Z.of_nat (AudioBuffer.length buffer)) 1) as [Hlt|_];
    [lia|].
  cbv zeta. fold startSample endSample.
  rewrite (copy_pass buffer Hwf).
  pose proof (analysis_pass buffer startSample endSample) as HA.
  cbv zeta in HA. rewrite HA. clear HA.
  destruct (analyse_nan (readSamples buffer startSample endSample)
              (Machine.Fin 0) 0 0) as (s' & m' & E & M & _ & N & B).
  rewrite E, (N Hnan). specialize (B x Hx).
  assert (Hm : m' <> 0).
  { pose proof (Rabs_pos_lt x Hx0). lra. }
  cbn [Machine.isZero]. destruct (Req_dec_T m' 0) as [H0|_]; [contradiction|].
  assert (Hcount : (0 + Z.of_nat (List.length
                      (readSamples buffer startSample endSample)))%Z <> 0%Z).
  { destruct (readSamples buffer startSample endSample);
      [destruct Hnan | cbn [List.length]; lia]. }
  destruct (Z.eqb_spec
              (0 + Z.of_nat (List.length
                      (readSamples buffer startSample endSample))) 0)
    as [H0|_]; [contradiction|].
  cbn [orb Machine.div Machine.sqrt_number Machine.mul Machine.gt].
  eexists. split; [reflexivity|].
  intros channel i a Hget Hi.
  destruct (scaling_pass buffer startSample endSample Machine.Nan)
    as (_ & _ & _ & G).
  cbv zeta in G. rewrite (G channel i a Hget).
  destruct (Z.leb_spec startSample i), (Z.ltb_spec i endSample); try lia.
  cbn [andb]. destruct a; reflexivity.
Qed.

Lemma roundedSumOfSquares_nonneg (xs : list R) (s : R) :
  (forall x, 0 <= x -> 0 <= Machine.double o x) ->
  0 <= s ->
  0 <= fold_left
         (fun sum x => Machine.double o (sum + Machine.double o (x * x)))
         xs s.
Proof.
  intros Hd. revert s. induction xs as [|x xs IH]; intros s Hs; simpl; auto.
  apply IH. apply Hd.
  pose proof (Hd (x * x) ltac:(nra)). lra.
Qed.

(** C5, amended: [normalizeAudio] on a buffer that has a frame, when the
    samples that the range [[startSample, endSample)] reads, all channels
    one after the other, are the numbers [xs]; the omitted target level is
    -3; each operation is rounded as the program rounds it.  The call
    returns a buffer of the same frame count, channel count and sample
    rate.  If the peak absolute value of [xs] is 0 the samples are those of
    the input.  Otherwise (the computed RMS not being 0) the gain is
    [targetLinear / RMS], replaced by [targetLinear / peak] when
    [peak * (targetLinear / RMS) > targetLinear], and capped at
    [10^(30/20)]; every sample of the range becomes its product with the
    gain, stored, clipped to [[-1, 1]] and stored again, and every other
    sample is copied. *)
Theorem normalizeAudio_samples (rnd : Q -> Q)
  (buffer : AudioBuffer.t Machine.number) (startTime endTime : Q)
  (targetLevel : option R) (xs : list R) :
  AudioBuffer.wf buffer ->
  (1 <= AudioBuffer.length buffer)%nat ->
  (forall x, 0 <= x -> 0 <= Machine.double o x) ->
  let targetDb := match targetLevel with
                  | Some level => level
                  | None => -3
                  end in
  let startSample := Qfloor (rnd (startTime * AudioBuffer.sampleRate buffer)%Q) in
  let endSample := Qfloor (rnd (endTime * AudioBuffer.sampleRate buffer)%Q) in
  readSamples buffer startSample endSample = map Machine.Fin xs ->
  exists out,
    Machine.normalizeAudio o rnd buffer startTime endTime targetLevel
    = Machine.Normal out /\
    AudioBuffer.length out = AudioBuffer.length buffer /\
    AudioBuffer.numberOfChannels out = AudioBuffer.numberOfChannels buffer /\
    AudioBuffer.sampleRate out = AudioBuffer.sampleRate buffer /\
    (peak xs = 0 ->
     AudioBuffer.channelData out = AudioBuffer.channelData buffer) /\
    (peak xs <> 0 -> roundedRms o xs <> 0 ->
     forall channel i a,
       get (AudioBuffer.getChannelData buffer channel) i = Some a ->
       ((startSample <= i < endSample)%Z ->
        get (AudioBuffer.getChannelData out channel) i
        = Some (normalized o (roundedGain o targetDb xs) a)) /\
       (~ (startSample <= i < endSample)%Z ->
        get (AudioBuffer.getChannelData out channel) i = Some a)).
Proof.
  intros Hwf Hlen Hd targetDb startSample endSample Hread.
  unfold Machine.normalizeAudio, Machine.createBuffer.
  destruct (Z.ltb_spec (Z.of_nat (AudioBuffer.length buffer)) 1) as [Hlt|_];
    [lia|].
  cbv zeta. fold targetDb startSample endSample.
  rewrite (copy_pass buffer Hwf).
  pose proof (analysis_pass buffer startSample endSample) as HA.
  cbv zeta in HA. rewrite HA. clear HA.
  rewrite Hread, analyse_fold by lra.
  rewrite Rmax_right by apply peak_nonneg. rewrite Z.add_0_l.
  fold (roundedSumOfSquares o xs).
  cbn [Machine.isZero].
  destruct (Req_dec_T (peak xs) 0) as [Hp|Hp].
  { cbn [orb]. eexists. split; [reflexivity|].
    repeat split; auto; intros; congruence. }
  assert (Hcount : Z.of_nat (List.length xs) <> 0%Z).
  { destruct xs; [exfalso; apply Hp; reflexivity | simpl; lia]. }
  destruct (Z.eqb_spec (Z.of_nat (List.length xs)) 0) as [E|_];
    [congruence|].
  cbn [orb Machine.div Machine.sqrt_number].
  assert (Hss : 0 <= Machine.double o
                       (roundedSumOfSquares o xs
                        / IZR (Z.of_nat (List.length xs)))).
  { apply Hd. apply Rmult_le_pos.
    - apply roundedSumOfSquares_nonneg; [assumption | lra].
    - left. apply Rinv_0_lt_compat. apply IZR_lt. lia. }
  destruct (Rlt_dec _ 0) as [Hneg|_]; [lra|].
  fold (roundedRms o xs).
  cbn [Machine.div Machine.mul].
  match goal with
  | |- context [ if Machine.gt ?a ?b then ?c else ?d ] =>
      replace (if Machine.gt a b then c else d)
        with (Machine.Fin (roundedGain o targetDb xs))
  end.
  2:{ unfold roundedGain. cbv zeta. cbn [Machine.gt].
      destruct (Rlt_dec (Machine.Math_pow o 10 (Machine.double o (targetDb / 20))) _);
        cbn [Machine.gt]; destruct (Rlt_dec _ _); reflexivity. }
  eexists. split; [reflexivity|].
  destruct (scaling_pass buffer startSample endSample
              (Machine.Fin (roundedGain o targetDb xs)))
    as (Flen & Fn & Fsr & G).
  cbv zeta in Flen, Fn, Fsr, G.
  split; [exact Flen|]. split; [exact Fn|]. split; [exact Fsr|].
  split; [intros; congruence|]. intros _ _ channel i a Hx.
  rewrite (G channel i a Hx).
  destruct (Z.leb_spec startSample i), (Z.ltb_spec i endSample);
    cbn [andb]; split; intros; try lia; reflexivity.
Qed.

End RoundedNormalize.

Section NormalizeExamples.

Import TypedArray.

Local Open Scope R_scope.

Lemma twoHalves_wf : AudioBuffer.wf twoHalves.
Proof. repeat constructor. Qed.

(** C5 as stated fails for a range that ends past the buffer: of two
    frames of amplitude 0.5 the range [[1, 3)] reads the second frame and,
    beyond the array, one undefined; the peak is 0.5, the sum of squares is
    NaN, and the sample of the range becomes NaN, which is not the clipped
    product of 0.5 and a gain.  (So it is with every arithmetic, by
    [normalizeAudio_reads_nan].) *)
Lemma normalizeAudio_past_the_end :
  exists out,
    Machine.normalizeAudio Machine.exact Double.round twoHalves 1 3 None
    = Machine.Normal out /\
    get (AudioBuffer.getChannelData twoHalves 0) 1 = Some (Machine.Fin 0.5) /\
    get (AudioBuffer.getChannelData out 0) 1 = Some Machine.Nan.
Proof.
  destruct (normalizeAudio_reads_nan Machine.exact Double.round twoHalves 1 3
              None 0.5 twoHalves_wf) as (out & Hout & Hnan).
  - cbn. lia.
  - vm_compute. right. left. reflexivity.
  - vm_compute. left. reflexivity.
  - lra.
  - exists out. split; [exact Hout|]. split; [reflexivity|].
    apply (Hnan 0%Z 1%Z (Machine.Fin 0.5)); [reflexivity|].
    vm_compute. split; [intros H; discriminate H | reflexivity].
Qed.

Lemma normalizeAudio_samples_witness :
  exists out,
    Machine.normalizeAudio Machine.exact Double.round toneNumbers 0 2 None
    = Machine.Normal out /\
    AudioBuffer.length out = 4%nat.
Proof.
  destruct (normalizeAudio_samples Machine.exact Double.round toneNumbers 0 2
              None [0.5; 0.5; 0.5; 0.5] toneNumbers_wf)
    as (out & Hout & Hlen & _).
  - cbn. lia.
  - intros x Hx. exact Hx.
  - vm_compute. reflexivity.
  - exists out. split; [exact Hout | exact Hlen].
Defined.

End NormalizeExamples.

Section RealExamples.

Import AudioChunkingEditor.

Lemma toneBuffer_wf : AudioBuffer.wf toneBuffer.
Proof. repeat constructor. Qed.

End RealExamples.

(** * Further properties of the code *)

(** ** Chunk lists: contiguity *)

Section Contiguity.

Import ChunkManager.

Lemma contiguous_start (a a' b : Q) (cs : list Chunk) :
  a == a' -> contiguous a cs b -> contiguous a' cs b.
Proof.
  intros E. destruct cs as [|c cs]; cbn [contiguous].
  - intros H. now rewrite <- E.
  - intros (H1 & H2 & H3). repeat split; auto. now rewrite <- E.
Qed.

Lemma contiguous_end (a b b' : Q) (cs : list Chunk) :
  b == b' -> contiguous a cs b -> contiguous a cs b'.
Proof.
  intros E. revert a. induction cs as [|c cs IH]; cbn [contiguous]; intros a.
  - intros H. now rewrite <- E.
  - intros (H1 & H2 & H3). repeat split; auto.
Qed.

Lemma contiguous_app (a b : Q) (l1 l2 : list Chunk) :
  contiguous a (l1 ++ l2) b <->
  exists m, contiguous a l1 m /\ contiguous m l2 b.
Proof.
  revert a. induction l1 as [|c l1 IH]; intros a; cbn [app contiguous].
  - split.
    + intros H. exists a. split; [reflexivity | exact H].
    + intros (m & E & H). apply (contiguous_start m); [now symmetry | exact H].
  - rewrite IH. split.
    + intros (H1 & H2 & m & H3 & H4). exists m. tauto.
    + intros (m & (H1 & H2 & H3) & H4). eauto.
Qed.

(** X1: [splitAtPosition] keeps the covered time: the total covered duration
    is unchanged whether or not the split succeeds, a list that is
    contiguous from [a] to [b] stays contiguous from [a] to [b], and a
    successful split adds exactly one chunk. *)
Theorem splitAtPosition_keeps_coverage (splitTime : Q) (m : t) :
  let m' := snd (splitAtPosition splitTime m) in
  totalChunkDuration (chunks m') == totalChunkDuration (chunks m) /\
  (forall a b, contiguous a (chunks m) b -> contiguous a (chunks m') b) /\
  (fst (splitAtPosition splitTime m) = true ->
   List.length (chunks m') = S (List.length (chunks m))).
Proof.
  cbv zeta.
  destruct (findIndex (fun chunk => (splitTime >? start chunk)
                                    && (splitTime <? end_ chunk)) (chunks m))
    as [i|] eqn:Hi.
  - destruct (splitAtPosition_found _ _ _ Hi)
      as (before & c & after & Hl & (Hc1 & Hc2) & _ & Heq).
    rewrite Heq, Hl. cbn [fst snd chunks]. split; [|split].
    + rewrite !totalChunkDuration_sum.
      assert (Happ : forall l1 l2,
        sumOver (fun c => end_ c - start c) (l1 ++ l2)
        == sumOver (fun c => end_ c - start c) l1
           + sumOver (fun c => end_ c - start c) l2).
      { induction l1 as [|x l1 IH]; intros l2; simpl; [lra|].
        rewrite IH. lra. }
      rewrite !Happ. cbn [sumOver start end_]. lra.
    + intros a b. rewrite !contiguous_app.
      intros (mid & H1 & H2). exists mid. split; [exact H1|].
      cbn [contiguous start end_] in *. destruct H2 as (E & _ & H3).
      split; [exact E|]. split; [lra|]. split; [reflexivity|].
      split; [lra | exact H3].
    + intros _. rewrite !length_app. cbn [List.length]. lia.
  - unfold splitAtPosition. rewrite Hi. cbn [fst snd].
    split; [reflexivity|]. split; [auto | discriminate].
Qed.

End Contiguity.

Section DeleteContiguity.

Import ChunkManager.

Lemma remapTime_proper (s e x y : Q) :
  x == y -> remapTime s e x == remapTime s e y.
Proof. intros E. unfold remapTime. js_cases; lra. Qed.

(** Each chunk is mapped boundary by boundary; a chunk is removed exactly
    when its two boundaries fall together. *)
Lemma deleteTimeRange_chunk_remap (s e : Q) (c : Chunk) :
  s <= e -> start c <= end_ c ->
  match deleteTimeRange_chunk s e c with
  | Some c' =>
      start c' == remapTime s e (start c) /\
      end_ c' == remapTime s e (end_ c) /\
      start c' <= end_ c'
  | None => remapTime s e (start c) == remapTime s e (end_ c)
  end.
Proof.
  intros Hse Hc. unfold deleteTimeRange_chunk, remapTime.
  js_cases; cbn [start end_]; try (split; [|split]); lra.
Qed.

Lemma deleteTimeRange_contiguous_remap (s e a b : Q) (cs : list Chunk) :
  s <= e -> contiguous a cs b ->
  contiguous (remapTime s e a)
    (filterNull (map (deleteTimeRange_chunk s e) cs)) (remapTime s e b).
Proof.
  intros Hse. revert a. induction cs as [|c cs IH]; intros a;
    cbn [contiguous map filterNull].
  - apply remapTime_proper.
  - intros (Ha & Hc & Hrest). specialize (IH _ Hrest).
    pose proof (deleteTimeRange_chunk_remap s e c Hse Hc) as Hr.
    destruct (deleteTimeRange_chunk s e c) as [c'|]; cbn [filterNull contiguous].
    + destruct Hr as (R1 & R2 & R3). split; [|split; [exact R3|]].
      * rewrite R1. now apply remapTime_proper.
      * apply (contiguous_start (remapTime s e (end_ c))); [now symmetry | exact IH].
    + apply (contiguous_start (remapTime s e (end_ c))); [|exact IH].
      rewrite <- Hr. symmetry. now apply remapTime_proper.
Qed.

(** X2: [deleteTimeRange] closes the gap it makes where its subtractions
    are exact: chunks that are contiguous from [a] to [b] are, after
    [deleteTimeRange(s, e)] with [a <= s <= e <= b], contiguous from [a] to
    [b - (e - s)]; with any rounding the id counter is not touched. *)
Theorem deleteTimeRange_keeps_contiguity (rnd : Q -> Q) (s e a b : Q) (m : t) :
  a <= s -> s <= e -> e <= b ->
  contiguous a (chunks m) b ->
  (Forall (exact_shift rnd s e) (chunks m) ->
   contiguous a (chunks (Machine.deleteTimeRange rnd s e m)) (b - (e - s))) /\
  nextChunkId (Machine.deleteTimeRange rnd s e m) = nextChunkId m.
Proof.
  intros Has Hse Heb Hc. split; [|reflexivity]. intros Hx.
  cbn [Machine.deleteTimeRange chunks].
  apply (contiguous_same _ _ _
           (filterNull (map (deleteTimeRange_chunk s e) (chunks m)))).
  { apply machine_deleteTimeRange_agrees; [|exact Hx].
    eapply contiguous_starts_first; eauto. }
  pose proof (deleteTimeRange_contiguous_remap s e a b (chunks m) Hse Hc) as H.
  apply (contiguous_start (remapTime s e a)).
  - unfold remapTime. js_cases; lra.
  - apply (contiguous_end _ (remapTime s e b)); [|exact H].
    unfold remapTime. js_cases; lra.
Qed.

Lemma deleteTimeRange_keeps_contiguity_witness :
  contiguous 0 (chunks (Machine.deleteTimeRange Double.round 2 5 scenario))
    (10 - (5 - 2)).
Proof.
  apply (deleteTimeRange_keeps_contiguity Double.round 2 5 0 10 scenario).
  - vm_compute; discriminate.
  - vm_compute; discriminate.
  - vm_compute; discriminate.
  - cbn. repeat split; try reflexivity; vm_compute; discriminate.
  - exact scenario_exact_shift.
Defined.






End DeleteContiguity.

(** ** The editor: deleting *)

Section EditorDelete.

Context {A : Type} {ZeroA : Zero A} {FalsyA : Falsy A}.

Import AudioChunkingEditor.


End EditorDelete.

Section EditorDeleteExamples.

Import AudioChunkingEditor.


End EditorDeleteExamples.

(** ** The editor: silence *)

Section Silence.

Context {A : Type} {ZeroA : Zero A} {FalsyA : Falsy A}.

Import TypedArray AudioChunkingEditor.





End Silence.

Section SilenceExample.

Import AudioChunkingEditor.


End SilenceExample.

(** ** The editor: resizing the selection *)

Section Resize.

Context {A : Type}.

Import AudioChunkingEditor.


End Resize.

Section ResizeExample.

Import AudioChunkingEditor.


End ResizeExample.

(** ** Time and pixel: the two directions *)

Section PixelWalks.

Import ChunkManager WaveformRenderer.

Variables (visibleStart visibleEnd total width : Q).

Hypothesis total_pos : 0 < total.
Hypothesis width_pos : 0 < width.

Lemma chunkWidth_pos (d : Q) : 0 < d -> 0 < width * (d / total).
Proof.
  intros Hd. apply Qmult_lt_0_compat; [exact width_pos|].
  apply Qlt_shift_div_l; [exact total_pos | lra].
Qed.

Lemma progress_unit (x d : Q) : 0 < d -> 0 <= x -> x <= d -> 0 <= x / d <= 1.
Proof.
  intros Hd H0 H1. split.
  - apply Qle_shift_div_l; [exact Hd | lra].
  - apply Qle_shift_div_r; [exact Hd | lra].
Qed.

(** The pixel of a time that a chunk owns is not left of where the walk
    started. *)
Lemma walkChunks_not_left (time : Q) (cs : list Chunk) (currentX : Q) :
  Forall (clipped_nonempty visibleStart visibleEnd) cs ->
  (exists c, In c cs /\ owns visibleStart visibleEnd time c) ->
  currentX <= walkChunks time visibleStart visibleEnd total width cs currentX.
Proof.
  intros Hne. revert currentX.
  induction Hne as [|c cs Hc Hcs IH]; intros currentX (o & Ho & Hown);
    [destruct Ho|].
  cbn [walkChunks]. cbv zeta. unfold clipped_nonempty in Hc.
  set (chunkStart := Qmax (start c) visibleStart) in *.
  set (chunkEnd := Qmin (end_ c) visibleEnd) in *.
  pose proof (chunkWidth_pos (chunkEnd - chunkStart) ltac:(lra)) as Hw.
  set (w := width * ((chunkEnd - chunkStart) / total)) in *.
  destruct (Qgeb_spec time chunkStart) as [H1|H1];
    [destruct (Qleb_spec time chunkEnd) as [H2|H2]|]; cbn [andb].
  - pose proof (progress_unit (time - chunkStart) (chunkEnd - chunkStart)
                  ltac:(lra) ltac:(lra) ltac:(lra)) as (P0 & P1).
    set (q := (time - chunkStart) / (chunkEnd - chunkStart)) in *.
    nra.
  - assert (Hrest : exists c', In c' cs /\ owns visibleStart visibleEnd time c').
    { destruct Ho as [<- | Ho]; [|eauto].
      destruct Hown as (O1 & O2). fold chunkEnd in O2. lra. }
    pose proof (IH (currentX + w + gapWidth) Hrest) as I1.
    set (p := walkChunks _ _ _ _ _ cs _) in *.
    unfold gapWidth in I1. lra.
  - assert (Hrest : exists c', In c' cs /\ owns visibleStart visibleEnd time c').
    { destruct Ho as [<- | Ho]; [|eauto].
      destruct Hown as (O1 & O2). fold chunkStart in O1. lra. }
    pose proof (IH (currentX + w + gapWidth) Hrest) as I1.
    set (p := walkChunks _ _ _ _ _ cs _) in *.
    unfold gapWidth in I1. lra.
Qed.

(** The walk back from a pixel ends at the start of the visible range or
    at or after the start of the visible part of a chunk. *)
Lemma walkPixels_result (pixelX : Q) (cs : list Chunk) (currentX : Q) :
  Forall (clipped_nonempty visibleStart visibleEnd) cs ->
  let result :=
    walkPixels pixelX visibleStart visibleEnd total width cs currentX in
  result = visibleStart \/
  exists c, In c cs /\ Qmax (start c) visibleStart <= result.
Proof.
  intros Hne. revert currentX.
  induction Hne as [|c cs Hc Hcs IH]; intros currentX; cbv zeta;
    [left; reflexivity|].
  cbn [walkPixels]. cbv zeta. unfold clipped_nonempty in Hc.
  set (chunkStart := Qmax (start c) visibleStart) in *.
  set (chunkEnd := Qmin (end_ c) visibleEnd) in *.
  pose proof (chunkWidth_pos (chunkEnd - chunkStart) ltac:(lra)) as Hw.
  set (w := width * ((chunkEnd - chunkStart) / total)) in *.
  destruct (Qgeb_spec pixelX currentX) as [G1|G1];
    [destruct (Qleb_spec pixelX (currentX + w)) as [G2|G2]|]; cbn [andb].
  - right. exists c. split; [left; reflexivity|].
    pose proof (progress_unit (pixelX - currentX) w Hw ltac:(lra) ltac:(lra))
      as (P0 & P1).
    fold chunkStart. nra.
  - destruct (IH (currentX + w + gapWidth)) as [E | (c' & Hc' & Hown)];
      [left; exact E | right; exists c'; split; [right; exact Hc' | exact Hown]].
  - destruct (IH (currentX + w + gapWidth)) as [E | (c' & Hc' & Hown)];
      [left; exact E | right; exists c'; split; [right; exact Hc' | exact Hown]].
Qed.

End PixelWalks.

Section TimeAndPixel.

Import ChunkManager WaveformRenderer.

Lemma totalVisible_grows (visibleStart visibleEnd : Q) (cs : list Chunk) :
  Forall (clipped_nonempty visibleStart visibleEnd) cs ->
  forall acc,
    acc <= fold_left (fun total chunk =>
                        let chunkStart := Qmax (start chunk) visibleStart in
                        let chunkEnd := Qmin (end_ chunk) visibleEnd in
                        total + (chunkEnd - chunkStart)) cs acc /\
    (cs <> [] ->
     acc < fold_left (fun total chunk =>
                        let chunkStart := Qmax (start chunk) visibleStart in
                        let chunkEnd := Qmin (end_ chunk) visibleEnd in
                        total + (chunkEnd - chunkStart)) cs acc).
Proof.
  cbv zeta.
  induction 1 as [|c cs Hc Hcs IH]; intros acc; cbn [fold_left].
  - split; [lra | congruence].
  - unfold clipped_nonempty in Hc.
    destruct (IH (acc + (Qmin (end_ c) visibleEnd - Qmax (start c) visibleStart)))
      as (I1 & _).
    split; [|intros _]; lra.
Qed.

Lemma visible_clipped (visibleStart visibleEnd : Q) (cs : list Chunk) :
  visibleStart < visibleEnd ->
  Forall (fun c => start c < end_ c) cs ->
  Forall (clipped_nonempty visibleStart visibleEnd)
    (filter (fun chunk =>
               (end_ chunk >? visibleStart) && (start chunk <? visibleEnd)) cs).
Proof.
  intros Hv Hcs. apply Forall_forall. intros c Hc.
  apply filter_In in Hc. destruct Hc as (Hin & Htest).
  rewrite Forall_forall in Hcs. specialize (Hcs c Hin).
  apply andb_true_iff in Htest. destruct Htest as (T1 & T2).
  destruct (Qgtb_spec (end_ c) visibleStart) as [G1|G1]; [|discriminate].
  destruct (Qltb_spec (start c) visibleEnd) as [G2|G2]; [|discriminate].
  unfold clipped_nonempty. Qminmax; lra.
Qed.

(** X8: where the chunks are not empty, the visible range is not empty and
    the canvas is wider than the gaps, a time that lies in a visible chunk
    is drawn at a pixel that is not negative: it is never answered with the
    sentinel -1. *)
Theorem owned_time_has_pixel (time : Q) (r : WaveformRenderer.t) :
  Forall (fun c => start c < end_ c) (WaveformRenderer.chunks r) ->
  fst (getVisibleTimeRange r) < snd (getVisibleTimeRange r) ->
  room_for_gaps r ->
  (exists c, In c (visibleChunksOf r) /\
             owns (fst (getVisibleTimeRange r)) (snd (getVisibleTimeRange r))
                  time c) ->
  0 <= getPixelPositionForTime time r.
Proof.
  unfold room_for_gaps, visibleChunksOf, getPixelPositionForTime.
  destruct (getVisibleTimeRange r) as [visibleStart visibleEnd]. cbn [fst snd].
  intros Hcs Hv Hroom Hown.
  pose proof (visible_clipped visibleStart visibleEnd _ Hv Hcs) as Hclip.
  set (visibleChunks := filter _ (WaveformRenderer.chunks r)) in *.
  assert (Hne : visibleChunks <> []).
  { destruct Hown as (c & Hin & _). intros E. rewrite E in Hin. destruct Hin. }
  assert (Hin : (time <? visibleStart) || (time >? visibleEnd) = false).
  { destruct Hown as (c & _ & O1 & O2).
    destruct (Qltb_spec time visibleStart); destruct (Qgtb_spec time visibleEnd);
      try reflexivity; exfalso; revert O1 O2; Qminmax; lra. }
  rewrite Hin.
  assert (Hlen : (List.length visibleChunks =? 0)%nat = false).
  { destruct visibleChunks; [congruence | reflexivity]. }
  rewrite Hlen. cbv zeta.
  destruct (totalVisible_grows visibleStart visibleEnd visibleChunks Hclip 0)
    as (_ & Htotal).
  specialize (Htotal Hne). cbv zeta in Htotal.
  apply walkChunks_not_left; [exact Htotal | lra | exact Hclip | exact Hown].
Qed.

(** X9: under the same conditions on the renderer,
    [getTimeFromPixelPosition] sends every pixel, also one outside the
    canvas or in a gap, to a time that is not before the visible range: the
    start of the range, or a time at or after the start of the visible part
    of a chunk. *)
Theorem getTimeFromPixelPosition_visible (pixelX : Q) (r : WaveformRenderer.t) :
  Forall (fun c => start c < end_ c) (WaveformRenderer.chunks r) ->
  fst (getVisibleTimeRange r) < snd (getVisibleTimeRange r) ->
  room_for_gaps r ->
  fst (getVisibleTimeRange r) <= getTimeFromPixelPosition pixelX r /\
  (getTimeFromPixelPosition pixelX r = fst (getVisibleTimeRange r) \/
   exists c, In c (visibleChunksOf r) /\
             Qmax (start c) (fst (getVisibleTimeRange r))
             <= getTimeFromPixelPosition pixelX r).
Proof.
  unfold room_for_gaps, visibleChunksOf, getTimeFromPixelPosition.
  destruct (getVisibleTimeRange r) as [visibleStart visibleEnd]. cbn [fst snd].
  intros Hcs Hv Hroom.
  pose proof (visible_clipped visibleStart visibleEnd _ Hv Hcs) as Hclip.
  set (visibleChunks := filter _ (WaveformRenderer.chunks r)) in *.
  destruct (List.length visibleChunks =? 0)%nat eqn:Hlen.
  { split; [lra | left; reflexivity]. }
  assert (Hne : visibleChunks <> []).
  { intros E. rewrite E in Hlen. discriminate. }
  cbv zeta.
  destruct (totalVisible_grows visibleStart visibleEnd visibleChunks Hclip 0)
    as (_ & Htotal).
  specialize (Htotal Hne). cbv zeta in Htotal.
  match goal with
  | |- context [walkPixels pixelX visibleStart visibleEnd ?T ?W visibleChunks 0] =>
      pose proof (walkPixels_result visibleStart visibleEnd T W Htotal
                    ltac:(lra) pixelX visibleChunks 0 Hclip) as Hres;
      cbv zeta in Hres;
      set (result := walkPixels pixelX visibleStart visibleEnd T W visibleChunks 0)
        in *
  end.
  split; [|exact Hres].
  destruct Hres as [E | (c & Hc & O1)]; [rewrite E; lra|].
  revert O1. Qminmax; lra.
Qed.

End TimeAndPixel.

Section TimeAndPixelExample.

Import ChunkManager WaveformRenderer.

Lemma twoChunkRenderer_chunks :
  Forall (fun c => start c < end_ c) (WaveformRenderer.chunks twoChunkRenderer).
Proof. repeat constructor. Qed.

Lemma owned_time_has_pixel_witness :
  getPixelPositionForTime 3 twoChunkRenderer == 79 /\
  0 <= getPixelPositionForTime 3 twoChunkRenderer.
Proof.
  split; [reflexivity|].
  apply (owned_time_has_pixel 3 twoChunkRenderer).
  - exact twoChunkRenderer_chunks.
  - reflexivity.
  - reflexivity.
  - exists (mkChunk 2 4 2). split; [right; left; reflexivity|].
    split; vm_compute; discriminate.
Defined.

Lemma getTimeFromPixelPosition_visible_witness :
  0 <= getTimeFromPixelPosition 52 twoChunkRenderer.
Proof.
  apply (getTimeFromPixelPosition_visible 52 twoChunkRenderer).
  - exact twoChunkRenderer_chunks.
  - reflexivity.
  - reflexivity.
Defined.

End TimeAndPixelExample.

(** ** Zoom and scroll *)

Section Zoom.

Import ChunkManager WaveformRenderer.

Lemma visibleDuration_bounds (d z : Q) :
  0 <= d -> 0 < z -> 0 <= d / z /\ (1 <= z -> d / z <= d).
Proof.
  intros Hd Hz. split.
  - apply Qle_shift_div_l; [exact Hz | lra].
  - intros H1. apply Qle_shift_div_r; [exact Hz | nra].
Qed.

(** [updateScrollWidth] writes the canvas width only. *)
Lemma updateScrollWidth_canvas_only (clientWidth : option Q)
  (r : WaveformRenderer.t) :
  zoomLevel (updateScrollWidth clientWidth r) = zoomLevel r /\
  zoomOffset (updateScrollWidth clientWidth r) = zoomOffset r /\
  WaveformRenderer.chunks (updateScrollWidth clientWidth r)
    = WaveformRenderer.chunks r /\
  audioBuffer_duration (updateScrollWidth clientWidth r)
    = audioBuffer_duration r.
Proof.
  unfold updateScrollWidth.
  destruct clientWidth; destruct (audioBuffer_duration r) eqn:E;
    try destruct (zoomLevel r >? 1); cbn; rewrite ?E; repeat split.
Qed.


(** X10: [clampZoomOffset] on a loaded renderer with a positive zoom level.
    Afterwards the offset lies between 0 and the largest offset
    [max(0, duration - duration / zoomLevel)] as the program computes it,
    the visible range starts at or after 0 and ends at or before the end of
    the buffer, and clamping a second time changes nothing more.  Only the
    offset is written. *)
Theorem clampZoomOffset_window (r : WaveformRenderer.t) (d : Q) :
  audioBuffer_duration r = Some d ->
  0 <= d ->
  0 < zoomLevel r ->
  let r' := clampZoomOffset r in
  0 <= zoomOffset r' <= Qmax 0 (d - d / zoomLevel r) /\
  0 <= fst (getVisibleTimeRange r') /\
  snd (getVisibleTimeRange r') <= d /\
  zoomOffset (clampZoomOffset r') == zoomOffset r' /\
  WaveformRenderer.chunks r' = WaveformRenderer.chunks r /\
  zoomLevel r' = zoomLevel r /\
  audioBuffer_duration r' = audioBuffer_duration r /\
  canvas_width r' = canvas_width r.
Proof.
  intros Hd Hd0 Hz. cbv zeta.
  unfold getVisibleTimeRange, clampZoomOffset. rewrite Hd.
  cbn [audioBuffer_duration zoomLevel zoomOffset fst snd
       WaveformRenderer.chunks canvas_width].
  rewrite ?Hd.
  cbn [audioBuffer_duration zoomLevel zoomOffset fst snd
       WaveformRenderer.chunks canvas_width].
  destruct (visibleDuration_bounds d (zoomLevel r) Hd0 Hz) as (Hv & _).
  set (v := d / zoomLevel r) in *.
  repeat match goal with |- _ /\ _ => split end; try reflexivity;
    Qminmax; lra.
Qed.

(** X11: on a loaded renderer zoomed in beyond 1 with a canvas of positive
    width, [getTimeFromMousePosition] gives a time within the buffer, the
    time 0 for a pointer at or left of 0 and a later or equal time for a
    pointer further right; [getPixelPositionForTimeZoomed] gives a pixel
    within the canvas, never the sentinel -1: the pixel 0 for a time at or
    before 0 and a pixel further right or equal for a later time. *)
Theorem zoomed_conversions_bounds (r : WaveformRenderer.t) (d : Q) :
  audioBuffer_duration r = Some d ->
  0 < d ->
  1 < zoomLevel r ->
  0 < canvas_width r ->
  (forall mouseX,
     0 <= getTimeFromMousePosition mouseX r <= d /\
     (mouseX <= 0 -> getTimeFromMousePosition mouseX r == 0)) /\
  (forall x1 x2, x1 <= x2 ->
     getTimeFromMousePosition x1 r <= getTimeFromMousePosition x2 r) /\
  (forall time,
     0 <= getPixelPositionForTimeZoomed time r <= canvas_width r /\
     (time <= 0 -> getPixelPositionForTimeZoomed time r == 0)) /\
  (forall t1 t2, t1 <= t2 ->
     getPixelPositionForTimeZoomed t1 r <= getPixelPositionForTimeZoomed t2 r).
Proof.
  intros Hd Hd0 Hz Hw.
  unfold getPixelPositionForTimeZoomed, getTimeFromMousePosition. rewrite Hd.
  destruct (Qleb_spec (zoomLevel r) 1) as [Hle|_]; [lra|]. cbv zeta.
  assert (Hdiv : forall x y, 0 < y -> x / y * y == x) by (intros; field; lra).
  split; [|split; [|split]].
  - intros mouseX.
    set (clampedX := Qmax 0 (Qmin (canvas_width r) mouseX)).
    assert (Hc : 0 <= clampedX <= canvas_width r)
      by (unfold clampedX; Qminmax; lra).
    destruct (progress_unit clampedX (canvas_width r) Hw (proj1 Hc) (proj2 Hc))
      as (P0 & P1).
    split; [split; nra|].
    intros Hneg. assert (E : clampedX == 0) by (unfold clampedX; Qminmax; lra).
    pose proof (Hdiv clampedX (canvas_width r) Hw). nra.
  - intros x1 x2 Hx.
    set (c1 := Qmax 0 (Qmin (canvas_width r) x1)).
    set (c2 := Qmax 0 (Qmin (canvas_width r) x2)).
    assert (Hc : c1 <= c2) by (unfold c1, c2; Qminmax; lra).
    pose proof (Hdiv c1 (canvas_width r) Hw).
    pose proof (Hdiv c2 (canvas_width r) Hw).
    assert (c1 / canvas_width r <= c2 / canvas_width r) by nra.
    nra.
  - intros time.
    set (q := Qmax 0 (Qmin 1 (time / d))).
    assert (Hq : 0 <= q <= 1) by (unfold q; Qminmax; lra).
    split; [split; nra|].
    intros Hneg. pose proof (Hdiv time d Hd0).
    assert (time / d <= 0) by nra.
    assert (E : q == 0) by (unfold q; Qminmax; lra). nra.
  - intros t1 t2 Ht.
    pose proof (Hdiv t1 d Hd0). pose proof (Hdiv t2 d Hd0).
    assert (t1 / d <= t2 / d) by nra.
    set (q1 := Qmax 0 (Qmin 1 (t1 / d))).
    set (q2 := Qmax 0 (Qmin 1 (t2 / d))).
    assert (Hq : q1 <= q2) by (unfold q1, q2; Qminmax; lra).
    nra.
Qed.


End Zoom.

Section ZoomLimits.

Import ChunkManager WaveformRenderer.

(** [clampZoomOffset] writes the offset only. *)
Lemma clampZoomOffset_offset_only (r : WaveformRenderer.t) :
  zoomLevel (clampZoomOffset r) = zoomLevel r /\
  WaveformRenderer.chunks (clampZoomOffset r) = WaveformRenderer.chunks r /\
  audioBuffer_duration (clampZoomOffset r) = audioBuffer_duration r /\
  canvas_width (clampZoomOffset r) = canvas_width r.
Proof.
  unfold clampZoomOffset. destruct (audioBuffer_duration r) eqn:E; cbn;
    rewrite ?E; repeat split.
Qed.

(** The zoom level [handleZoom] leaves behind. *)
Lemma handleZoom_zoomLevel (direction : Q) (centerX clientWidth : option Q)
  (r : WaveformRenderer.t) (d : Q) :
  audioBuffer_duration r = Some d ->
  let newZoom :=
    if direction >? 0 then Qmin maxZoom (zoomLevel r * zoomStep)
    else Qmax minZoom (zoomLevel r / zoomStep) in
  (newZoom == zoomLevel r ->
   handleZoom direction centerX clientWidth r = r) /\
  (~ newZoom == zoomLevel r ->
   zoomLevel (handleZoom direction centerX clientWidth r) = newZoom).
Proof.
  intros Hd. cbv zeta. unfold handleZoom. rewrite Hd.
  set (newZoom := if direction >? 0 then Qmin maxZoom (zoomLevel r * zoomStep)
                  else Qmax minZoom (zoomLevel r / zoomStep)).
  destruct (Qeq_bool newZoom (zoomLevel r)) eqn:Hsame.
  - split; [reflexivity|]. intros Hne. apply Qeq_bool_iff in Hsame. tauto.
  - split.
    + intros He. apply Qeq_bool_neq in Hsame. tauto.
    + intros _.
      match goal with
      | |- context [clampZoomOffset ?x] => set (r2 := x)
      end.
      destruct (updateScrollWidth_canvas_only clientWidth (clampZoomOffset r2))
        as (S1 & _).
      destruct (clampZoomOffset_offset_only r2) as (C1 & _).
      rewrite S1, C1. reflexivity.
Qed.

(** X13: [zoomIn] and [zoomOut] on a loaded renderer whose zoom level lies
    between [minZoom] and [maxZoom].  At [maxZoom], [zoomIn] changes
    nothing, and below it [zoomIn] raises the zoom level; at [minZoom],
    [zoomOut] changes nothing, and above it [zoomOut] lowers the zoom
    level. *)
Theorem zoom_stops_at_the_limits (clientWidth : option Q)
  (r : WaveformRenderer.t) (d : Q) :
  audioBuffer_duration r = Some d ->
  minZoom <= zoomLevel r <= maxZoom ->
  (zoomLevel r == maxZoom -> zoomIn clientWidth r = r) /\
  (zoomLevel r < maxZoom -> zoomLevel r < zoomLevel (zoomIn clientWidth r)) /\
  (zoomLevel r == minZoom -> zoomOut clientWidth r = r) /\
  (minZoom < zoomLevel r -> zoomLevel (zoomOut clientWidth r) < zoomLevel r).
Proof.
  intros Hd Hz. unfold zoomIn, zoomOut.
  destruct (handleZoom_zoomLevel 1 None clientWidth r d Hd) as (In1 & In2).
  destruct (handleZoom_zoomLevel (-1) None clientWidth r d Hd) as (Out1 & Out2).
  cbv zeta in In1, In2, Out1, Out2.
  change (1 >? 0) with true in In1, In2.
  change (-1 >? 0) with false in Out1, Out2.
  cbv iota in In1, In2, Out1, Out2.
  unfold minZoom, maxZoom, zoomStep in *.
  assert (E : zoomLevel r / (12 # 10) == zoomLevel r * (10 # 12))
    by (field; lra).
  set (down := zoomLevel r / (12 # 10)) in *.
  split; [|split; [|split]].
  - intros Hmax. apply In1. Qminmax; lra.
  - intros Hlt. rewrite In2; Qminmax; lra.
  - intros Hmin. apply Out1. Qminmax; lra.
  - intros Hgt. rewrite Out2; Qminmax; lra.
Qed.

(** X14: [handleHorizontalScroll] on a loaded renderer zoomed in beyond 1,
    for a container of positive width.  The new offset lies between 0 and
    [duration - duration / zoomLevel]; for a scroll position within the
    scrollable width it is that fraction of the largest offset, so the left
    end gives offset 0 and the right end the largest offset.  Nothing but
    the offset changes. *)
Theorem handleHorizontalScroll_offset (scrollLeft containerWidth : Q)
  (r : WaveformRenderer.t) (d : Q) :
  audioBuffer_duration r = Some d ->
  0 <= d ->
  1 < zoomLevel r ->
  0 < containerWidth ->
  let r' := handleHorizontalScroll scrollLeft containerWidth r in
  let maxScroll := containerWidth * zoomLevel r - containerWidth in
  let maxOffset := d - d / zoomLevel r in
  0 <= zoomOffset r' <= maxOffset /\
  (0 <= scrollLeft <= maxScroll ->
   zoomOffset r' == scrollLeft / maxScroll * maxOffset) /\
  zoomOffset (handleHorizontalScroll 0 containerWidth r) == 0 /\
  zoomOffset (handleHorizontalScroll maxScroll containerWidth r) == maxOffset /\
  zoomLevel r' = zoomLevel r /\
  WaveformRenderer.chunks r' = WaveformRenderer.chunks r /\
  audioBuffer_duration r' = audioBuffer_duration r /\
  canvas_width r' = canvas_width r.
Proof.
  intros Hd Hd0 Hz Hw. cbv zeta. unfold handleHorizontalScroll. rewrite Hd.
  destruct (Qleb_spec (zoomLevel r) 1) as [Hle|_]; [lra|]. cbv zeta.
  assert (Hms : 0 < containerWidth * zoomLevel r - containerWidth) by nra.
  set (maxScroll := containerWidth * zoomLevel r - containerWidth) in *.
  destruct (Qgtb_spec maxScroll 0) as [_|Hno]; [|lra].
  destruct (visibleDuration_bounds d (zoomLevel r) Hd0 ltac:(lra)) as (V0 & V1).
  specialize (V1 ltac:(lra)).
  unfold clampZoomOffset.
  cbn [audioBuffer_duration zoomLevel zoomOffset WaveformRenderer.chunks
       canvas_width].
  rewrite ?Hd.
  cbn [audioBuffer_duration zoomLevel zoomOffset WaveformRenderer.chunks
       canvas_width].
  set (v := d / zoomLevel r) in *.
  assert (E0 : 0 / maxScroll == 0) by (field; lra).
  assert (E1 : maxScroll / maxScroll == 1) by (field; lra).
  set (q0 := 0 / maxScroll) in *. set (q1 := maxScroll / maxScroll) in *.
  split; [|split; [|split; [|split; [|split; [|split; [|split]]]]]];
    try reflexivity; try exact Hd.
  - Qminmax; split; lra.
  - intros (S0 & S1).
    destruct (progress_unit scrollLeft maxScroll Hms S0 S1) as (P0 & P1).
    set (q := scrollLeft / maxScroll) in *.
    Qminmax; nra.
  - Qminmax; nra.
  - Qminmax; nra.
Qed.

End ZoomLimits.

Section ZoomExamples.

Import ChunkManager WaveformRenderer.

Lemma clampZoomOffset_window_witness :
  0 <= zoomOffset (clampZoomOffset zoomedRenderer) <= Qmax 0 (4 - 4 / 2).
Proof.
  apply (clampZoomOffset_window zoomedRenderer 4).
  - reflexivity.
  - vm_compute; discriminate.
  - reflexivity.
Defined.

Lemma zoomed_conversions_bounds_witness :
  0 <= getTimeFromMousePosition 52 zoomedRenderer <= 4.
Proof.
  destruct (zoomed_conversions_bounds zoomedRenderer 4) as (H & _);
    try reflexivity.
  apply (H 52).
Defined.


Lemma zoom_stops_at_the_limits_witness :
  zoomLevel twoChunkRenderer
  < zoomLevel (zoomIn (Some 104) twoChunkRenderer).
Proof.
  apply (zoom_stops_at_the_limits (Some 104) twoChunkRenderer 4).
  - reflexivity.
  - split; vm_compute; discriminate.
  - reflexivity.
Defined.

Lemma handleHorizontalScroll_offset_witness :
  0 <= zoomOffset (handleHorizontalScroll 52 104 zoomedRenderer) <= 4 - 4 / 2.
Proof.
  apply (handleHorizontalScroll_offset 52 104 zoomedRenderer 4).
  - reflexivity.
  - vm_compute; discriminate.
  - reflexivity.
  - reflexivity.
Defined.

End ZoomExamples.

(** ** The effects never raise a sample above what they are given *)

Section FadeBound.

Import TypedArray AudioChunkingEditor.

Local Open Scope R_scope.

Lemma scaled_by_unit (x m : R) :
  0 <= m <= 1 -> Rabs (x * m) <= Rabs x /\ 0 <= x * (x * m).
Proof.
  intros (M0 & M1). split.
  - rewrite Rabs_mult, (Rabs_pos_eq m M0).
    pose proof (Rabs_pos x). nra.
  - nra.
Qed.

(** X15: [applyFadeEffect] on a loaded buffer, for any type string.  No
    sample grows in absolute value and none changes sign: every sample of
    the new buffer is the old sample times a factor between 0 and 1.  The
    range selection and the chunk selection are cleared; the chunks, the
    seek position and the paused time are kept, and the renderer is given a
    buffer of the old duration. *)
Theorem applyFadeEffect_never_amplifies (ed : AudioChunkingEditor.t R)
  (buffer : AudioBuffer.t R) (startTime endTime : Q) (type : string) :
  audioBuffer ed = Some buffer ->
  AudioBuffer.wf buffer ->
  let ed' := applyFadeEffect startTime endTime type ed in
  exists newBuffer,
    audioBuffer ed' = Some newBuffer /\
    (forall channel i x,
       get (AudioBuffer.getChannelData buffer channel) i = Some x ->
       exists m,
         0 <= m <= 1 /\
         get (AudioBuffer.getChannelData newBuffer channel) i = Some (x * m) /\
         Rabs (x * m) <= Rabs x /\ 0 <= x * (x * m)) /\
    selection ed' = (0%Q, 0%Q) /\
    ChunkManager.selectedChunk (chunkManager ed') = None /\
    ChunkManager.chunks (chunkManager ed') = ChunkManager.chunks (chunkManager ed) /\
    ChunkManager.nextChunkId (chunkManager ed')
    = ChunkManager.nextChunkId (chunkManager ed) /\
    seekPosition ed' = seekPosition ed /\
    pausedAtTime ed' = pausedAtTime ed /\
    WaveformRenderer.audioBuffer_duration (waveformRenderer ed')
    = Some (AudioBuffer.duration buffer) /\
    WaveformRenderer.chunks (waveformRenderer ed')
    = WaveformRenderer.chunks (waveformRenderer ed).
Proof.
  intros Hbuf Hwf. cbv zeta. unfold applyFadeEffect. rewrite Hbuf.
  destruct (applyFadeEffect_newBuffer_samples buffer startTime endTime type Hwf)
    as (Hsr & Hlen & Hn & Hsamples).
  cbv zeta in Hsr, Hlen, Hn, Hsamples.
  set (newBuffer := applyFadeEffect_newBuffer buffer startTime endTime type) in *.
  exists newBuffer.
  cbn [audioBuffer selection chunkManager seekPosition pausedAtTime
       waveformRenderer ChunkManager.selectedChunk ChunkManager.chunks
       ChunkManager.nextChunkId WaveformRenderer.generateWaveform
       WaveformRenderer.audioBuffer_duration WaveformRenderer.chunks].
  split; [reflexivity|]. split.
  - intros channel i x Hx. rewrite (Hsamples channel i x Hx).
    destruct ((_ <=? i)%Z && (i <? _)%Z).
    + exists (fadeMultiplier type
                (Qfloor (startTime * AudioBuffer.sampleRate buffer))
                (Qfloor (endTime * AudioBuffer.sampleRate buffer)) i).
      assert (Hm : 0 <= fadeMultiplier type
                (Qfloor (startTime * AudioBuffer.sampleRate buffer))
                (Qfloor (endTime * AudioBuffer.sampleRate buffer)) i <= 1)
        by apply fadeCurve_unit.
      split; [exact Hm|]. split; [reflexivity|]. apply scaled_by_unit, Hm.
    + exists 1. split; [lra|]. split; [f_equal; lra|].
      apply scaled_by_unit. lra.
  - repeat split.
    unfold AudioBuffer.duration. rewrite Hsr, Hlen. reflexivity.
Qed.

End FadeBound.

Section FadeBoundExample.

Import TypedArray AudioChunkingEditor.

Lemma applyFadeEffect_never_amplifies_witness :
  selection (applyFadeEffect 0 2 "out" toneEditor) = (0, 0).
Proof.
  destruct (applyFadeEffect_never_amplifies toneEditor toneBuffer 0 2 "out"
              eq_refl toneBuffer_wf) as (newBuffer & _ & _ & Hsel & _).
  exact Hsel.
Defined.

End FadeBoundExample.


(** ** A click on a chunk and the time under the pointer *)

Section ClickAndTime.

Import ChunkManager WaveformRenderer.

Lemma Qmax_left (x y : Q) : y <= x -> Qmax x y = x.
Proof.
  intros H. unfold Qmax, GenericMinMax.gmax.
  destruct (x ?= y) eqn:E; try reflexivity.
  apply Qlt_alt in E. lra.
Qed.

Lemma Qmin_left (x y : Q) : x <= y -> Qmin x y = x.
Proof.
  intros H. unfold Qmin, GenericMinMax.gmin.
  destruct (x ?= y) eqn:E; try reflexivity.
  apply Qgt_alt in E. lra.
Qed.

Lemma shown_whole_visible (visibleStart visibleEnd : Q) (cs : list Chunk) :
  Forall (shown_whole visibleStart visibleEnd) cs ->
  filter (fun chunk =>
            (end_ chunk >? visibleStart) && (start chunk <? visibleEnd)) cs
  = cs.
Proof.
  induction 1 as [|c cs (H1 & H2 & H3) Hcs IH]; cbn [filter]; [reflexivity|].
  destruct (Qgtb_spec (end_ c) visibleStart); [|lra].
  destruct (Qltb_spec (start c) visibleEnd); [|lra].
  cbn [andb]. now rewrite IH.
Qed.

Lemma shown_whole_total (visibleStart visibleEnd : Q) (cs : list Chunk) :
  Forall (shown_whole visibleStart visibleEnd) cs ->
  forall acc,
    fold_left (fun total chunk =>
                 let chunkStart := Qmax (start chunk) visibleStart in
                 let chunkEnd := Qmin (end_ chunk) visibleEnd in
                 total + (chunkEnd - chunkStart)) cs acc
    = fold_left (fun sum chunk => sum + (end_ chunk - start chunk)) cs acc.
Proof.
  induction 1 as [|c cs (H1 & H2 & H3) Hcs IH]; intros acc; cbn [fold_left];
    [reflexivity|].
  cbv zeta. rewrite (Qmax_left _ _ H1), (Qmin_left _ _ H3). apply IH.
Qed.

Lemma shown_whole_clipped (visibleStart visibleEnd : Q) (cs : list Chunk) :
  Forall (shown_whole visibleStart visibleEnd) cs ->
  Forall (clipped_nonempty visibleStart visibleEnd) cs.
Proof.
  apply Forall_impl. intros c (H1 & H2 & H3). unfold clipped_nonempty.
  now rewrite (Qmax_left _ _ H1), (Qmin_left _ _ H3).
Qed.

(** The two walks stop at the same chunk. *)
Lemma selectWalk_owner (visibleStart visibleEnd total width pixelX : Q)
  (cs : list Chunk) :
  0 < total -> 0 < width ->
  Forall (shown_whole visibleStart visibleEnd) cs ->
  forall currentX c,
    selectWalk pixelX total width cs currentX = Some c ->
    In c cs /\
    start c <= walkPixels pixelX visibleStart visibleEnd total width cs currentX.
Proof.
  intros Htotal Hwidth.
  induction 1 as [|c0 cs (H1 & H2 & H3) Hcs IH]; intros currentX c;
    cbn [selectWalk walkPixels]; [discriminate|].
  cbv zeta. rewrite (Qmax_left _ _ H1), (Qmin_left _ _ H3).
  pose proof (chunkWidth_pos total width Htotal Hwidth
                (end_ c0 - start c0) ltac:(lra)) as Hw.
  set (w := width * ((end_ c0 - start c0) / total)) in *.
  destruct (Qgeb_spec pixelX currentX) as [G1|G1];
    [destruct (Qleb_spec pixelX (currentX + w)) as [G2|G2]|]; cbn [andb].
  - intros E. injection E as <-. split; [left; reflexivity|].
    destruct (progress_unit (pixelX - currentX) w Hw ltac:(lra) ltac:(lra))
      as (P0 & P1).
    set (q := (pixelX - currentX) / w) in *. nra.
  - intros E. destruct (IH _ _ E) as (I1 & I2). split; [right; exact I1|].
    exact I2.
  - intros E. destruct (IH _ _ E) as (I1 & I2). split; [right; exact I1|].
    exact I2.
Qed.

(** X17: the chunk manager and the renderer lay the chunks out alike.
    Where the renderer shows the manager's chunks whole (each within the
    visible range and not empty) on a canvas as wide as the container and
    wider than the gaps, the chunk that [selectChunkAtPosition] returns for
    a pixel is one of the chunks, becomes the selected chunk, and is the
    chunk in which [getTimeFromPixelPosition] places the same pixel: the
    time it gives is at or after the start of that chunk.  The chunk list
    and the id counter are not changed by the selection. *)
Theorem click_selects_owner (pixelX containerWidth : Q) (m : ChunkManager.t)
  (r : WaveformRenderer.t) (c : Chunk) :
  WaveformRenderer.chunks r = ChunkManager.chunks m ->
  canvas_width r = containerWidth ->
  Forall (shown_whole (fst (getVisibleTimeRange r)) (snd (getVisibleTimeRange r)))
         (ChunkManager.chunks m) ->
  Qmax 0 (inject_Z (Z.of_nat (List.length (ChunkManager.chunks m))) - 1)
    * gapWidth < containerWidth ->
  fst (selectChunkAtPosition pixelX containerWidth m) = Some c ->
  In c (ChunkManager.chunks m) /\
  selectedChunk (snd (selectChunkAtPosition pixelX containerWidth m)) = Some c /\
  ChunkManager.chunks (snd (selectChunkAtPosition pixelX containerWidth m))
  = ChunkManager.chunks m /\
  nextChunkId (snd (selectChunkAtPosition pixelX containerWidth m))
  = nextChunkId m /\
  start c <= getTimeFromPixelPosition pixelX r.
Proof.
  intros Hchunks Hwidth. unfold getTimeFromPixelPosition.
  destruct (getVisibleTimeRange r) as [visibleStart visibleEnd].
  cbn [fst snd]. intros Hshown Hroom.
  rewrite Hchunks, (shown_whole_visible _ _ _ Hshown).
  unfold selectChunkAtPosition.
  destruct (Nat.leb_spec (List.length (ChunkManager.chunks m)) 1) as [Hle|Hgt];
    [discriminate|].
  destruct (Nat.eqb_spec (List.length (ChunkManager.chunks m)) 0) as [E|_];
    [lia|].
  pose proof (shown_whole_total _ _ _ Hshown 0) as Hsame.
  cbv zeta in Hsame. cbv zeta. rewrite Hsame, Hwidth.
  fold (totalChunkDuration (ChunkManager.chunks m)).
  assert (Htotal : 0 < totalChunkDuration (ChunkManager.chunks m)).
  { destruct (totalVisible_grows visibleStart visibleEnd _
                (shown_whole_clipped _ _ _ Hshown) 0) as (_ & Hpos).
    cbv zeta in Hpos. rewrite Hsame in Hpos.
    apply Hpos. destruct (ChunkManager.chunks m); [simpl in Hgt; lia|discriminate]. }
  destruct (selectWalk pixelX _ _ (ChunkManager.chunks m) 0) as [c'|] eqn:Hwalk;
    cbn [fst snd]; [|discriminate].
  intros E. injection E as ->.
  match type of Hwalk with
  | selectWalk _ _ ?W _ _ = _ =>
      assert (HW : 0 < W) by (unfold gapWidth in Hroom; lra)
  end.
  destruct (selectWalk_owner visibleStart visibleEnd _ _ pixelX
              (ChunkManager.chunks m) Htotal HW Hshown 0 c Hwalk)
    as (Hin & Hown).
  split; [exact Hin|]. split; [reflexivity|]. split; [reflexivity|].
  split; [reflexivity | exact Hown].
Qed.

End ClickAndTime.

Section ClickAndTimeExample.

Import ChunkManager WaveformRenderer.

Lemma click_selects_owner_witness :
  2 <= getTimeFromPixelPosition 79 twoChunkRenderer.
Proof.
  apply (click_selects_owner 79 104 twoChunkManager twoChunkRenderer
           (mkChunk 2 4 2)).
  - reflexivity.
  - reflexivity.
  - repeat constructor; vm_compute; discriminate.
  - reflexivity.
  - reflexivity.
Defined.

End ClickAndTimeExample.

(** ** The chunk selection across a deletion *)

Section SelectionAcrossDeletion.

Import ChunkManager.





End SelectionAcrossDeletion.

Section SelectionAcrossDeletionExample.

Import ChunkManager.


End SelectionAcrossDeletionExample.

(** ** Deleting a range selection *)

Section DeleteRange.

Import AudioChunkingEditor.

Context {A : Type} {ZeroA : Zero A} {FalsyA : Falsy A}.

Lemma Qminmax_swap (a b : Q) :
  ~ a == b ->
  Qmin a b = Qmin b a /\ Qmax a b = Qmax b a /\ Qmin a b < Qmax a b.
Proof.
  intros Hne. unfold Qmin, Qmax, GenericMinMax.gmin, GenericMinMax.gmax.
  destruct (Qcompare_spec a b) as [E1|E1|E1];
    destruct (Qcompare_spec b a) as [E2|E2|E2];
    try (exfalso; apply Hne; lra); try (exfalso; lra);
    repeat split; try reflexivity; lra.
Qed.

Lemma Qeq_bool_false (a b : Q) : ~ a == b -> Qeq_bool a b = false.
Proof.
  intros Hne. destruct (Qeq_bool a b) eqn:E; [|reflexivity].
  apply Qeq_bool_iff in E. tauto.
Qed.

(** X19: [delete] with a range selection whose ends differ.  The range
    deleted is the one from the smaller end to the larger, so a selection
    dragged right to left deletes what the same selection dragged left to
    right deletes.  When [deleteAudioRange] returns, the buffer, the
    chunks, the renderer and the paused time are those it leaves for that
    range, and the selection is cleared; when it ends with the host's
    exception, so does [delete], and the selection stays.  A selected chunk
    is not looked at. *)
Theorem delete_range_either_direction (rnd : Q -> Q) (a b : Q)
  (ed : AudioChunkingEditor.t A) :
  ~ a == b ->
  let lo := Qmin a b in
  let hi := Qmax a b in
  let forward := Machine.delete rnd (withSelection (a, b) ed) in
  let backward := Machine.delete rnd (withSelection (b, a) ed) in
  lo < hi /\
  forward = backward /\
  forward = match Machine.deleteAudioRange rnd lo hi ed with
            | Machine.Normal ed' => Machine.Normal (withSelection (0, 0) ed')
            | Machine.NotSupportedError => Machine.NotSupportedError
            end.
Proof.
  intros Hne. cbv zeta.
  destruct (Qminmax_swap a b Hne) as (Emin & Emax & Hlt).
  split; [exact Hlt|].
  unfold Machine.delete. cbn [withSelection selection fst snd].
  rewrite (Qeq_bool_false a b Hne).
  rewrite (Qeq_bool_false b a) by (intros E; apply Hne; symmetry; exact E).
  cbn [negb]. rewrite <- Emin, <- Emax.
  unfold Machine.deleteAudioRange, withSelection.
  cbn [audioBuffer seekPosition selection chunkManager waveformRenderer
       pausedAtTime].
  destruct ed as [[buffer|] seek sel cm wr paused];
    cbn [audioBuffer seekPosition selection chunkManager waveformRenderer
         pausedAtTime]; [|split; reflexivity].
  destruct (Machine.deleteAudioRange_newBuffer rnd buffer (Qmin a b) (Qmax a b));
    split; reflexivity.
Qed.

End DeleteRange.

Section DeleteRangeExample.

Import AudioChunkingEditor.

Lemma delete_range_either_direction_witness :
  Machine.delete Double.round (withSelection (1 # 2, 3 # 2) demoEditor)
  = Machine.delete Double.round (withSelection (3 # 2, 1 # 2) demoEditor).
Proof.
  apply (delete_range_either_direction Double.round (1 # 2) (3 # 2) demoEditor).
  vm_compute. discriminate.
Defined.

(** With every frame selected the host refuses the empty buffer: [delete]
    ends with the exception and the selection is not cleared. *)
Example delete_everything :
  Machine.delete Double.round (withSelection (0, 2) demoEditor)
  = Machine.NotSupportedError.
Proof. vm_compute. reflexivity. Qed.

End DeleteRangeExample.

(** ** The undo copySnapshot history *)

Section History.

Import HistoryManager.

Context {Snapshot : Type} (copySnapshot : Snapshot -> Snapshot).

Lemma slice0_firstn {A : Type} (n : Z) (l : list A) :
  (0 <= n)%Z -> slice0 n l = firstn (Z.to_nat n) l.
Proof.
  intros H. unfold slice0. destruct (Z.ltb_spec n 0); [lia | reflexivity].
Qed.

Lemma length_extended (state : Entry Snapshot) (action : string) (now : Z)
  (h : HistoryManager.t Snapshot) :
  consistent h ->
  Z.of_nat (List.length (extended copySnapshot state action now h))
  = (currentIndex h + 2)%Z.
Proof.
  intros Hc. unfold extended. rewrite length_app, length_firstn. cbn [List.length].
  destruct Hc as [(E & I) | (I & L)]; [rewrite E, I; reflexivity | lia].
Qed.

Lemma saveState_cases (state : Entry Snapshot) (action : string) (now : Z)
  (h : HistoryManager.t Snapshot) :
  consistent h ->
  saveState copySnapshot state action now h
  = if (currentIndex h + 2 >? maxHistorySize)%Z
    then mk (tl (extended copySnapshot state action now h)) (currentIndex h)
    else mk (extended copySnapshot state action now h) (currentIndex h + 1).
Proof.
  intros Hc. unfold HistoryManager.saveState. cbv zeta.
  assert (H0 : (0 <= currentIndex h + 1)%Z)
    by (destruct Hc as [(_ & I) | (I & _)]; lia).
  rewrite (slice0_firstn _ _ H0).
  cbn [snapshot HistoryManager.deepCopyState].
  fold (extended copySnapshot state action now h).
  rewrite (length_extended state action now h Hc).
  destruct (currentIndex h + 2 >? maxHistorySize)%Z; [|reflexivity].
  f_equal. lia.
Qed.

Lemma length_tl {A : Type} (l : list A) :
  List.length (tl l) = (List.length l - 1)%nat.
Proof. destruct l; simpl; lia. Qed.

Lemma get_tl {A : Type} (l : list A) (i : Z) :
  (0 <= i)%Z -> TypedArray.get (tl l) i = TypedArray.get l (i + 1).
Proof.
  intros H. unfold TypedArray.get.
  destruct (Z.ltb_spec i 0); [lia|]. destruct (Z.ltb_spec (i + 1) 0); [lia|].
  replace (Z.to_nat (i + 1)) with (S (Z.to_nat i)) by lia.
  destruct l; [now destruct (Z.to_nat i) | reflexivity].
Qed.

Lemma get_app_last {A : Type} (l : list A) (x : A) :
  TypedArray.get (l ++ [x]) (Z.of_nat (List.length l)) = Some x.
Proof.
  unfold TypedArray.get.
  destruct (Z.ltb_spec (Z.of_nat (List.length l)) 0); [lia|].
  rewrite Nat2Z.id, nth_error_app2 by lia. now rewrite Nat.sub_diag.
Qed.

Lemma get_firstn_app {A : Type} (l rest : list A) (n : nat) (i : Z) :
  (0 <= i < Z.of_nat n)%Z -> (Z.of_nat n <= Z.of_nat (List.length l))%Z ->
  TypedArray.get (firstn n l ++ rest) i = TypedArray.get l i.
Proof.
  intros Hi Hn. unfold TypedArray.get. destruct (Z.ltb_spec i 0); [lia|].
  rewrite nth_error_app1 by (rewrite length_firstn; lia).
  rewrite nth_error_firstn.
  destruct (Nat.ltb_spec (Z.to_nat i) n); [reflexivity | lia].
Qed.

(** X20: the history and its index always fit.  [new] and [clear] give a
    consistent history; [saveState] keeps it consistent, leaves the index on
    the last entry, which carries the given action and time, and never
    keeps more than [maxHistorySize] entries; on a consistent history
    [undo] and [redo] return (they do not read an entry that is not there),
    keep the history consistent and do not change the list of entries. *)
Theorem history_stays_consistent (h : HistoryManager.t Snapshot)
  (state : Entry Snapshot) (action : string) (now : Z) :
  consistent (@new Snapshot) /\
  consistent (clear h) /\
  (consistent h ->
   let h' := saveState copySnapshot state action now h in
   consistent h' /\
   currentIndex h' = (Z.of_nat (List.length (history h')) - 1)%Z /\
   canRedo h' = false /\
   TypedArray.get (history h') (currentIndex h')
   = Some (mkEntry (copySnapshot (snapshot state)) (Some action) (Some now)) /\
   (Z.of_nat (List.length (history h')) <= maxHistorySize)%Z) /\
  (consistent h ->
   (exists value,
      undo copySnapshot h = Returned value (after (undo copySnapshot h))) /\
   (exists value,
      redo copySnapshot h = Returned value (after (redo copySnapshot h))) /\
   consistent (after (undo copySnapshot h)) /\
   consistent (after (redo copySnapshot h)) /\
   history (after (undo copySnapshot h)) = history h /\
   history (after (redo copySnapshot h)) = history h).
Proof.
  split; [left; split; reflexivity|].
  split; [left; split; reflexivity|].
  split.
  - intros Hc. cbv zeta. rewrite (saveState_cases state action now h Hc).
    pose proof (length_extended state action now h Hc) as Hlen.
    assert (Hidx : (-1 <= currentIndex h)%Z)
      by (destruct Hc as [(_ & I) | (I & _)]; lia).
    assert (Hmax : (Z.of_nat (List.length (history h)) <= maxHistorySize)%Z).
    { destruct Hc as [(E & _) | (_ & L)];
        [rewrite E; unfold maxHistorySize; cbn; lia | exact L]. }
    assert (Hlt : (currentIndex h < Z.of_nat (List.length (history h)))%Z).
    { destruct Hc as [(E & I) | (I & _)]; [rewrite E, I; cbn; lia | lia]. }
    assert (Hlast : forall l (x : Entry Snapshot),
               TypedArray.get (l ++ [x]) (Z.of_nat (List.length l)) = Some x).
    { intros l x. unfold TypedArray.get.
      destruct (Z.ltb_spec (Z.of_nat (List.length l)) 0); [lia|].
      rewrite Nat2Z.id, nth_error_app2 by lia.
      now rewrite Nat.sub_diag. }
    unfold maxHistorySize in *.
    destruct (Z.gtb_spec (currentIndex h + 2) 50) as [Hfull|Hroom];
      cbn [history currentIndex]; unfold canRedo; cbn [history currentIndex].
    + assert (Hi : currentIndex h = 49%Z) by lia.
      rewrite length_tl.
      assert (Hn : List.length (extended copySnapshot state action now h) = 51%nat) by lia.
      rewrite Hn. cbn [Nat.sub].
      split; [right; cbn [history currentIndex]; rewrite length_tl, Hn;
              unfold maxHistorySize; cbn; lia|].
      split; [lia|]. split; [apply Z.ltb_ge; lia|]. split; [|lia].
      unfold extended in *.
      set (kept := firstn (Z.to_nat (currentIndex h + 1)) (history h)) in *.
      assert (Hk : List.length kept = 50%nat).
      { rewrite length_app in Hn. cbn [List.length] in Hn. lia. }
      destruct kept as [|k0 kept']; [discriminate|].
      cbn [app tl]. cbn [List.length] in Hk.
      replace (currentIndex h) with (Z.of_nat (List.length kept')) by lia.
      apply Hlast.
    + split; [right; unfold maxHistorySize; cbn [history currentIndex]; lia|].
      split; [lia|]. split; [apply Z.ltb_ge; lia|].
      split; [|lia].
      unfold extended in *.
      set (kept := firstn (Z.to_nat (currentIndex h + 1)) (history h)) in *.
      assert (Hk : Z.of_nat (List.length kept) = (currentIndex h + 1)%Z).
      { rewrite length_app in Hlen. cbn [List.length] in Hlen. lia. }
      rewrite <- Hk. apply Hlast.
  - intros Hc.
    assert (Hundo : exists value,
                      undo copySnapshot h
                      = Returned value (after (undo copySnapshot h)) /\
                    consistent (after (undo copySnapshot h)) /\
                    history (after (undo copySnapshot h)) = history h).
    { unfold HistoryManager.undo, canUndo.
      destruct (Z.gtb_spec (currentIndex h) 0) as [Hpos|Hno]; cbn [negb].
      - destruct Hc as [(_ & I) | (I & L)]; [lia|].
        cbv zeta. cbn [history currentIndex].
        destruct (get_in_range (history h) (currentIndex h - 1) ltac:(lia))
          as (x & ->).
        destruct (get_in_range (history h) (currentIndex h - 1 + 1) ltac:(lia))
          as (y & ->).
        eexists. split; [reflexivity|]. cbn [after history currentIndex].
        split; [right; cbn [history currentIndex]; lia | reflexivity].
      - eexists. split; [reflexivity|]. split; [exact Hc | reflexivity]. }
    assert (Hredo : exists value,
                      redo copySnapshot h
                      = Returned value (after (redo copySnapshot h)) /\
                    consistent (after (redo copySnapshot h)) /\
                    history (after (redo copySnapshot h)) = history h).
    { unfold HistoryManager.redo, canRedo.
      destruct (Z.ltb_spec (currentIndex h)
                  (Z.of_nat (List.length (history h)) - 1)) as [Hmore|Hno];
        cbn [negb].
      - assert (Hidx : (-1 <= currentIndex h)%Z)
          by (destruct Hc as [(_ & I) | (I & _)]; lia).
        assert (Hmax : (Z.of_nat (List.length (history h)) <= maxHistorySize)%Z).
        { destruct Hc as [(E & _) | (_ & L)];
        [rewrite E; unfold maxHistorySize; cbn; lia | exact L]. }
        cbv zeta. cbn [history currentIndex].
        destruct (get_in_range (history h) (currentIndex h + 1) ltac:(lia))
          as (x & ->).
        eexists. split; [reflexivity|]. cbn [after history currentIndex].
        split; [right; cbn [history currentIndex]; lia | reflexivity].
      - eexists. split; [reflexivity|]. split; [exact Hc | reflexivity]. }
    destruct Hundo as (v1 & U1 & U2 & U3), Hredo as (v2 & R1 & R2 & R3).
    split; [eauto|]. split; [eauto|]. tauto.
Qed.

End History.

Section HistoryRoundTrips.

Import HistoryManager.

Context {Snapshot : Type} (copySnapshot : Snapshot -> Snapshot).

(** X21: [saveState] on a consistent history that has a current entry,
    then [undo], then [redo].  The undo returns a copy of the entry that
    was current before the save, also when the save dropped the oldest
    entry; the redo returns a copy of the saved entry and leaves the
    history as the save left it. *)
Theorem saveState_undo_redo (h : HistoryManager.t Snapshot)
  (state : Entry Snapshot) (action : string) (now : Z) :
  consistent h ->
  (0 <= currentIndex h)%Z ->
  let saved := saveState copySnapshot state action now h in
  let entry := mkEntry (copySnapshot (snapshot state)) (Some action) (Some now) in
  exists previous,
    TypedArray.get (history h) (currentIndex h) = Some previous /\
    undo copySnapshot saved
    = Returned (Some (deepCopyState copySnapshot previous))
               (after (undo copySnapshot saved)) /\
    redo copySnapshot (after (undo copySnapshot saved))
    = Returned (Some (deepCopyState copySnapshot entry)) saved.
Proof.
  intros Hc Hidx. cbv zeta.
  destruct Hc as [(_ & I) | (I & L)]; [lia|].
  assert (Hc : consistent h) by (right; split; assumption).
  destruct (get_in_range (history h) (currentIndex h) I) as (previous & Hprev).
  exists previous. split; [exact Hprev|].
  rewrite (saveState_cases copySnapshot state action now h Hc).
  pose proof (length_extended copySnapshot state action now h Hc) as Hlen.
  assert (Hold : TypedArray.get (extended copySnapshot state action now h)
                   (currentIndex h) = Some previous).
  { unfold extended. rewrite get_firstn_app by lia. exact Hprev. }
  assert (Hnew : TypedArray.get (extended copySnapshot state action now h)
                   (currentIndex h + 1)
                 = Some (mkEntry (copySnapshot (snapshot state)) (Some action)
                           (Some now))).
  { unfold extended.
    assert (Hk : Z.of_nat (List.length
                   (firstn (Z.to_nat (currentIndex h + 1)) (history h)))
                 = (currentIndex h + 1)%Z) by (rewrite length_firstn; lia).
    set (kept := firstn (Z.to_nat (currentIndex h + 1)) (history h)) in *.
    rewrite <- Hk. apply get_app_last. }
  unfold maxHistorySize in *.
  destruct (Z.gtb_spec (currentIndex h + 2) 50) as [Hfull|Hroom].
  - unfold HistoryManager.undo, HistoryManager.redo, canUndo, canRedo.
    cbn [history currentIndex after].
    destruct (Z.gtb_spec (currentIndex h) 0) as [_|Hno]; [|lia]. cbn [negb].
    cbv zeta. cbn [history currentIndex].
    rewrite !get_tl by lia.
    replace (currentIndex h - 1 + 1)%Z with (currentIndex h) by lia.
    rewrite Hold, Hnew. cbn [after history currentIndex].
    split; [reflexivity|].
    rewrite length_tl.
    destruct (Z.ltb_spec (currentIndex h - 1)
                (Z.of_nat (List.length (extended copySnapshot state action now h)
                           - 1) - 1)) as [_|Hno]; [|lia].
    cbn [negb]. rewrite get_tl by lia.
    replace (currentIndex h - 1 + 1 + 1)%Z with (currentIndex h + 1)%Z by lia.
    rewrite Hnew. do 2 f_equal. lia.
  - unfold HistoryManager.undo, HistoryManager.redo, canUndo, canRedo.
    cbn [history currentIndex after].
    destruct (Z.gtb_spec (currentIndex h + 1) 0) as [_|Hno]; [|lia]. cbn [negb].
    cbv zeta. cbn [history currentIndex].
    replace (currentIndex h + 1 - 1)%Z with (currentIndex h) by lia.
    rewrite Hold, Hnew. cbn [after history currentIndex].
    split; [reflexivity|].
    destruct (Z.ltb_spec (currentIndex h)
                (Z.of_nat (List.length (extended copySnapshot state action now h))
                 - 1)) as [_|Hno]; [|lia].
    cbn [negb]. rewrite Hnew. reflexivity.
Qed.

(** X22: on a consistent history, [redo] takes back an [undo] and [undo]
    takes back a [redo]: where [canUndo()] holds, [undo] followed by [redo]
    returns a copy of the entry that was current and restores the history
    and its index; where [canRedo()] holds, [redo] followed by [undo] does
    the same.  Where [canUndo()] or [canRedo()] does not hold, the call
    returns null and changes nothing. *)
Theorem undo_redo_inverse (h : HistoryManager.t Snapshot) :
  consistent h ->
  (canUndo h = true ->
   exists current,
     TypedArray.get (history h) (currentIndex h) = Some current /\
     redo copySnapshot (after (undo copySnapshot h))
     = Returned (Some (deepCopyState copySnapshot current)) h) /\
  (canRedo h = true ->
   (0 <= currentIndex h)%Z ->
   exists current,
     TypedArray.get (history h) (currentIndex h) = Some current /\
     undo copySnapshot (after (redo copySnapshot h))
     = Returned (Some (deepCopyState copySnapshot current)) h) /\
  (canUndo h = false -> undo copySnapshot h = Returned None h) /\
  (canRedo h = false -> redo copySnapshot h = Returned None h).
Proof.
  intros Hc. split; [|split; [|split]].
  - intros Hu. unfold canUndo in Hu. apply Z.gtb_lt in Hu.
    destruct Hc as [(_ & I) | (I & L)]; [lia|].
    destruct (get_in_range (history h) (currentIndex h) I) as (current & Hcur).
    destruct (get_in_range (history h) (currentIndex h - 1) ltac:(lia))
      as (previous & Hprev).
    exists current. split; [exact Hcur|].
    unfold HistoryManager.undo, canUndo.
    destruct (Z.gtb_spec (currentIndex h) 0) as [_|Hno]; [|lia]. cbn [negb].
    cbv zeta. cbn [history currentIndex].
    replace (currentIndex h - 1 + 1)%Z with (currentIndex h) by lia.
    rewrite Hprev, Hcur. cbn [after].
    unfold HistoryManager.redo, canRedo. cbn [history currentIndex].
    destruct (Z.ltb_spec (currentIndex h - 1)
                (Z.of_nat (List.length (history h)) - 1)) as [_|Hno]; [|lia].
    cbn [negb]. cbv zeta. cbn [history currentIndex].
    replace (currentIndex h - 1 + 1)%Z with (currentIndex h) by lia.
    rewrite Hcur. destruct h; reflexivity.
  - intros Hr Hidx. unfold canRedo in Hr. apply Z.ltb_lt in Hr.
    destruct (get_in_range (history h) (currentIndex h) ltac:(lia))
      as (current & Hcur).
    destruct (get_in_range (history h) (currentIndex h + 1) ltac:(lia))
      as (next & Hnext).
    exists current. split; [exact Hcur|].
    unfold HistoryManager.redo, canRedo.
    destruct (Z.ltb_spec (currentIndex h)
                (Z.of_nat (List.length (history h)) - 1)) as [_|Hno]; [|lia].
    cbn [negb]. cbv zeta. cbn [history currentIndex].
    rewrite Hnext. cbn [after].
    unfold HistoryManager.undo, canUndo. cbn [history currentIndex].
    destruct (Z.gtb_spec (currentIndex h + 1) 0) as [_|Hno]; [|lia].
    cbn [negb]. cbv zeta. cbn [history currentIndex].
    replace (currentIndex h + 1 - 1)%Z with (currentIndex h) by lia.
    rewrite Hcur, Hnext. destruct h; reflexivity.
  - intros Hu. unfold HistoryManager.undo. now rewrite Hu.
  - intros Hr. unfold HistoryManager.redo. now rewrite Hr.
Qed.

End HistoryRoundTrips.

Section HistoryExamples.

Import HistoryManager.

Lemma loadedHistory_consistent : consistent loadedHistory.
Proof. right. cbn. unfold maxHistorySize. lia. Qed.

Lemma undoneHistory_consistent : consistent undoneHistory.
Proof. right. cbn. unfold maxHistorySize. lia. Qed.

Lemma history_stays_consistent_witness :
  consistent (saveState (fun s : Z => s) (mkEntry 8%Z None None) "split" 200
                loadedHistory).
Proof.
  destruct (history_stays_consistent (fun s : Z => s) loadedHistory
              (mkEntry 8%Z None None) "split" 200) as (_ & _ & Hsave & _).
  exact (proj1 (Hsave loadedHistory_consistent)).
Defined.

Lemma saveState_undo_redo_witness :
  exists previous,
    TypedArray.get (history loadedHistory) (currentIndex loadedHistory)
    = Some previous /\
    undo (fun s : Z => s)
      (saveState (fun s : Z => s) (mkEntry 8%Z None None) "split" 200
         loadedHistory)
    = Returned (Some (deepCopyState (fun s : Z => s) previous)) undoneHistory.
Proof.
  destruct (saveState_undo_redo (fun s : Z => s) loadedHistory
              (mkEntry 8%Z None None) "split" 200 loadedHistory_consistent
              ltac:(cbn; lia)) as (previous & Hprev & Hundo & _).
  exists previous. split; [exact Hprev | exact Hundo].
Defined.

Lemma undo_redo_inverse_witness :
  undo (fun s : Z => s) (after (redo (fun s : Z => s) undoneHistory))
  = Returned (Some (mkEntry 7%Z (Some "load"%string) (Some 100%Z)))
             undoneHistory.
Proof.
  destruct (undo_redo_inverse (fun s : Z => s) undoneHistory
              undoneHistory_consistent) as (_ & Hredo & _).
  destruct (Hredo eq_refl ltac:(cbn; lia)) as (current & Hcur & Hback).
  injection Hcur as <-. exact Hback.
Defined.

End HistoryExamples.

(** ** The buffers the player builds *)

Section PlayerBuffers.

Import TypedArray ChunkManager AudioPlayer.

Context {A : Type} {ZeroA : Zero A} {FalsyA : Falsy A}.

Lemma nth_error_zrange (a b : Z) (n : nat) :
  nth_error (zrange a b) n
  = if (Z.of_nat n <? b - a)%Z then Some (a + Z.of_nat n)%Z else None.
Proof.
  destruct (Z.ltb_spec (Z.of_nat n) (b - a)) as [Hlt|Hge].
  - rewrite (nth_error_nth' _ 0%Z) by (rewrite length_zrange; lia).
    now rewrite nth_zrange by lia.
  - apply nth_error_None. rewrite length_zrange. lia.
Qed.

Lemma get_map_zrange {B : Type} (f : Z -> B) (a b j : Z) :
  get (map f (zrange a b)) j
  = if (0 <=? j)%Z && (j <? b - a)%Z then Some (f (a + j)%Z) else None.
Proof.
  unfold get. destruct (Z.ltb_spec j 0) as [Hneg|Hpos].
  - destruct (Z.leb_spec 0 j); [lia | reflexivity].
  - destruct (Z.leb_spec 0 j); [|lia]. cbn [andb].
    rewrite nth_error_map, nth_error_zrange, Z2Nat.id by lia.
    destruct (j <? b - a)%Z; reflexivity.
Qed.

(** A loop that stores [f i] at every index [i] of a fresh array builds the
    list of the [f i]. *)
Lemma fill_loop (f : Z -> A) (n : Z) :
  forRange 0 n (fun i newData => set newData i (f i))
    (repeat zero (Z.to_nat n))
  = map f (zrange 0 n).
Proof.
  destruct (forRange_pointwise
              (fun i newData => set newData i (f i)) 0 (fun i _ => f i) 0 n
              (repeat zero (Z.to_nat n))) as (Hlen & Hget).
  - intros i d _ _. apply length_set.
  - intros i d j _ _ Hj. apply get_set_other. lia.
  - intros i d x _ _ Hx. rewrite Z.add_0_r in *. eapply get_set_same, Hx.
  - apply get_ext. intros j. rewrite get_map_zrange.
    destruct (Z.leb_spec 0 j) as [H0|H0];
      [destruct (Z.ltb_spec j (n - 0)) as [H1|H1]|]; cbn [andb].
    + rewrite (Hget j zero) by (apply get_repeat; lia).
      rewrite Z.sub_0_r.
      destruct (Z.leb_spec 0 j); [|lia]. destruct (Z.ltb_spec j n); [|lia].
      reflexivity.
    + apply get_out_of_range. rewrite Hlen, repeat_length. lia.
    + apply get_out_of_range. lia.
Qed.

Lemma zrange_shift (a b : Z) :
  zrange a b = map (fun i => (a + i)%Z) (zrange 0 (b - a)).
Proof.
  unfold zrange. rewrite map_map, Z.sub_0_r. apply map_ext. intros k. lia.
Qed.

(** The copy loop of [createChunkBuffer], on one channel. *)
Lemma createChunkBuffer_channel (rnd : Q -> Q) (sampleRate : Q)
  (oldData : list A) (chunk : Chunk) :
  forRange 0 (chunkFrames rnd sampleRate chunk)
    (fun i newData =>
       set newData i
         (orZero (get oldData (Qfloor (rnd (start chunk * sampleRate)) + i))))
    (repeat zero (Z.to_nat (chunkFrames rnd sampleRate chunk)))
  = framesOf rnd sampleRate oldData chunk.
Proof.
  rewrite (fill_loop
             (fun i => orZero (get oldData
                                 (Qfloor (rnd (start chunk * sampleRate)) + i)))).
  unfold framesOf, chunkFrames. cbv zeta.
  rewrite (zrange_shift (Qfloor (rnd (start chunk * sampleRate)))
             (Qfloor (rnd (end_ chunk * sampleRate)))), map_map.
  reflexivity.
Qed.

(** X23: [createChunkBuffer], with
    [frameCount = floor(end * sampleRate) - floor(start * sampleRate)].
    When [frameCount] is below 1 the call ends with the host's exception;
    otherwise the buffer built has the sample rate and the channel count of
    the original and [frameCount] frames, and every channel is exactly the
    chunk's frame range read from the original ([oldData[k] || 0]). *)
Theorem createChunkBuffer_frames (rnd : Q -> Q) (audioBuffer : AudioBuffer.t A)
  (chunk : Chunk) :
  let sampleRate := AudioBuffer.sampleRate audioBuffer in
  let channels := AudioBuffer.numberOfChannels audioBuffer in
  let frameCount := chunkFrames rnd sampleRate chunk in
  ((frameCount < 1)%Z ->
   Machine.createChunkBuffer rnd audioBuffer chunk = Machine.NotSupportedError) /\
  ((1 <= frameCount)%Z ->
   exists chunkBuffer,
     Machine.createChunkBuffer rnd audioBuffer chunk
     = Machine.Normal chunkBuffer /\
     AudioBuffer.sampleRate chunkBuffer = sampleRate /\
     AudioBuffer.numberOfChannels chunkBuffer = channels /\
     Z.of_nat (AudioBuffer.length chunkBuffer) = frameCount /\
     AudioBuffer.wf chunkBuffer /\
     forall channel, (0 <= channel < Z.of_nat channels)%Z ->
       AudioBuffer.getChannelData chunkBuffer channel
       = framesOf rnd sampleRate
           (AudioBuffer.getChannelData audioBuffer channel) chunk).
Proof.
  intros sampleRate channels frameCount.
  unfold Machine.createChunkBuffer, Machine.createBuffer. cbv zeta.
  fold sampleRate channels.
  change (Qfloor (rnd (end_ chunk * sampleRate)%Q)
          - Qfloor (rnd (start chunk * sampleRate)%Q))%Z with frameCount.
  destruct (Z.ltb_spec frameCount 1) as [Hlt|Hge]; split; try lia;
    intros _; [reflexivity|].
  eexists. split; [reflexivity|].
  match goal with
  | |- context [ forRange 0 _ _ ?nb ] =>
      destruct (forEachChannel
        (fun channel newData =>
           forRange 0 frameCount
             (fun i newData =>
                set newData i
                  (orZero
                     (get (AudioBuffer.getChannelData audioBuffer channel)
                        (Qfloor (rnd (start chunk * sampleRate)) + i))))
             newData)
        channels nb) as (Fsr & Flen & Fn & Fch);
        [unfold AudioBuffer.numberOfChannels, AudioBuffer.createBuffer;
         cbn [AudioBuffer.channelData]; apply repeat_length|]
  end.
  cbv zeta in Fsr, Flen, Fn, Fch.
  set (result := forRange 0 (Z.of_nat channels) _ _) in *.
  cbn [AudioBuffer.createBuffer AudioBuffer.sampleRate AudioBuffer.length]
    in Fsr, Flen.
  assert (Hch : forall channel, (0 <= channel < Z.of_nat channels)%Z ->
            AudioBuffer.getChannelData result channel
            = framesOf rnd sampleRate
                (AudioBuffer.getChannelData audioBuffer channel) chunk).
  { intros channel Hc. rewrite (Fch channel Hc).
    rewrite getChannelData_createBuffer by exact Hc.
    apply createChunkBuffer_channel. }
  split; [exact Fsr|]. split; [exact Fn|].
  split; [rewrite Flen; lia|].
  split; [|exact Hch].
  apply wf_channels. rewrite Fn. intros channel Hc.
  rewrite (Hch channel Hc), length_framesOf, Flen. reflexivity.
Qed.

End PlayerBuffers.

Section PlayerBuffersExample.

Import ChunkManager.

Example createChunkBuffer_demo :
  Machine.createChunkBuffer Double.round demoBuffer (mkChunk (1 # 4) 2 2)
  = Machine.Normal (AudioBuffer.mk 2 4 [[Num 1; Num 2; Num 3; Num 4]]) /\
  Machine.createChunkBuffer Double.round demoBuffer (mkChunk (1 # 8) (1 # 4) 2)
  = Machine.NotSupportedError.
Proof. split; vm_compute; reflexivity. Qed.

End PlayerBuffersExample.

(** ** The playback clock and the transport *)

Section PlayerClock.

Import ChunkManager AudioPlayer.

Context {A : Type} {ZeroA : Zero A} {FalsyA : Falsy A}.


Lemma In_insertByStart (chunk x : Chunk) (sorted : list Chunk) :
  In x (insertByStart chunk sorted) <-> x = chunk \/ In x sorted.
Proof.
  induction sorted as [|y sorted IH]; cbn [insertByStart].
  - cbn. intuition congruence.
  - destruct (start chunk <? start y); cbn [In]; [intuition congruence|].
    rewrite IH. intuition congruence.
Qed.

Lemma insertByStart_sorted (chunk : Chunk) (sorted : list Chunk) :
  StronglySorted byStart sorted ->
  StronglySorted byStart (insertByStart chunk sorted).
Proof.
  induction 1 as [|y sorted Hs IH Hy]; cbn [insertByStart].
  - repeat constructor.
  - destruct (Qltb_spec (start chunk) (start y)) as [Hlt|Hge].
    + constructor; [constructor; assumption|].
      constructor; [unfold byStart; lra|].
      eapply Forall_impl; [|exact Hy]. unfold byStart. intros z Hz. lra.
    + constructor; [exact IH|].
      apply Forall_forall. intros z Hz. apply In_insertByStart in Hz.
      destruct Hz as [-> | Hz]; [unfold byStart; lra|].
      rewrite Forall_forall in Hy. now apply Hy.
Qed.

Lemma sortByStart_spec (chunks : list Chunk) :
  StronglySorted byStart (sortByStart chunks) /\
  (forall x, In x (sortByStart chunks) <-> In x chunks) /\
  List.length (sortByStart chunks) = List.length chunks.
Proof.
  unfold sortByStart.
  assert (H : forall acc,
            StronglySorted byStart acc ->
            StronglySorted byStart
              (fold_left (fun sorted chunk => insertByStart chunk sorted)
                 chunks acc) /\
            (forall x, In x (fold_left (fun sorted chunk =>
                                          insertByStart chunk sorted) chunks acc)
                       <-> In x chunks \/ In x acc) /\
            List.length (fold_left (fun sorted chunk =>
                                      insertByStart chunk sorted) chunks acc)
            = (List.length chunks + List.length acc)%nat).
  { induction chunks as [|c chunks IH]; intros acc Hacc; cbn [fold_left].
    - split; [exact Hacc|]. split; [cbn; tauto | reflexivity].
    - destruct (IH (insertByStart c acc) (insertByStart_sorted c acc Hacc))
        as (I1 & I2 & I3).
      split; [exact I1|]. split.
      + intros x. rewrite I2, In_insertByStart. cbn [In]. intuition congruence.
      + rewrite I3. cbn [List.length].
        assert (Hl : List.length (insertByStart c acc)
                     = Datatypes.S (List.length acc)).
        { clear. induction acc as [|y acc IHa]; cbn [insertByStart];
            [reflexivity|].
          destruct (start c <? start y); cbn [List.length]; [reflexivity|].
          now rewrite IHa. }
        rewrite Hl. lia. }
  destruct (H [] (SSorted_nil _)) as (H1 & H2 & H3).
  split; [exact H1|]. split; [|rewrite H3; cbn; lia].
  intros x. rewrite H2. cbn. tauto.
Qed.

(** X26: [stop] and [seekToTime] of the player.  [stop] with a list of
    chunks that is not empty leaves the paused position at the start of a
    chunk of the list, and no chunk of the list starts earlier; with no
    chunks it leaves it at 0.  [seekToTime] leaves it at the given time
    clamped to the buffer (between 0 and the duration) and returns whether
    the player was playing.  Both leave the player not playing. *)
Theorem stop_and_seek (chunks : list Chunk) (time : Q)
  (audioBuffer : AudioBuffer.t A) (p : AudioPlayer.t A) :
  (chunks <> [] ->
   exists firstChunk,
     In firstChunk chunks /\
     pausedAtTime (stop chunks p) = start firstChunk /\
     forall c, In c chunks -> start firstChunk <= start c) /\
  pausedAtTime (stop [] p) = 0 /\
  isPlaying (stop chunks p) = false /\
  playingChunks (stop chunks p) = None /\
  currentlyPlayingChunk (stop chunks p) = None /\
  (0 <= AudioBuffer.duration audioBuffer ->
   0 <= pausedAtTime (snd (seekToTime time audioBuffer p))
     <= AudioBuffer.duration audioBuffer) /\
  (0 <= time <= AudioBuffer.duration audioBuffer ->
   pausedAtTime (snd (seekToTime time audioBuffer p)) == time) /\
  fst (seekToTime time audioBuffer p) = isPlaying p /\
  isPlaying (snd (seekToTime time audioBuffer p)) = false.
Proof.
  split; [|split; [reflexivity|]].
  - intros Hne. unfold stop. cbn [pausedAtTime].
    destruct (sortByStart_spec chunks) as (Hsorted & Hin & Hlen).
    destruct chunks as [|c0 chunks0] eqn:Echunks; [congruence|].
    rewrite <- Echunks in *. 
    assert (Hpos : (0 <? List.length chunks)%nat = true).
    { rewrite Echunks. reflexivity. }
    rewrite Hpos.
    destruct (sortByStart chunks) as [|firstChunk rest] eqn:Es.
    { rewrite Echunks in Hlen. discriminate. }
    exists firstChunk. split; [apply Hin; left; reflexivity|].
    split; [reflexivity|]. intros c Hc. apply Hin in Hc.
    inversion Hsorted as [|? ? _ Hall]; subst.
    destruct Hc as [<- | Hc]; [lra|].
    rewrite Forall_forall in Hall. exact (Hall c Hc).
  - split; [reflexivity|]. split; [reflexivity|]. split; [reflexivity|].
    unfold seekToTime. cbn [fst snd pausedAtTime isPlaying].
    split; [intros Hd; Qminmax; lra|].
    split; [intros (H0 & H1); Qminmax; lra|].
    split; reflexivity.
Qed.

End PlayerClock.

Section PlayAll.

Import ChunkManager AudioPlayer.

Context {A : Type} {ZeroA : Zero A} {FalsyA : Falsy A}.



End PlayAll.

Section PlayerExamples.

Import ChunkManager AudioPlayer.


(** With the paused position at the end of the last chunk nothing is left
    to play: the frame count is 0, which the host refuses. *)
Example playAllChunks_at_the_end :
  playAllFrames demoBuffer [mkChunk 0 2 1]
    (AudioPlayer.mk None false 0 2 None None 0 false 0 0 : AudioPlayer.t f32)
  = 0%Z.
Proof. reflexivity. Qed.

End PlayerExamples.

(** ** The WAV export *)

Section Wav.

Import TypedArray WavExport.

Lemma quantize_code (x : f32) :
  ofNaN (Math_round (times (Math_max (Num (-1)) (Math_min (Num 1) x)) 32767))
  = quantize x.
Proof. destruct x; reflexivity. Qed.

Lemma byteOf_range (value k : Z) : (0 <= byteOf value k < 256)%Z.
Proof.
  unfold byteOf. change 255%Z with (Z.ones 8). rewrite Z.land_ones by lia.
  apply Z.mod_pos_bound. reflexivity.
Qed.

Lemma byteOf_low (value : Z) : byteOf value 0 = (value mod 256)%Z.
Proof.
  unfold byteOf. change 255%Z with (Z.ones 8).
  rewrite Z.land_ones, Z.shiftr_0_r by lia. reflexivity.
Qed.

Lemma byteOf_high (value : Z) : byteOf value 1 = ((value / 256) mod 256)%Z.
Proof.
  unfold byteOf. change 255%Z with (Z.ones 8).
  rewrite Z.land_ones, Z.shiftr_div_pow2 by lia. reflexivity.
Qed.

(** Two bytes written by [setInt16] read back as the integer, when it fits
    16 bits. *)
Lemma signed16_bytes (value : Z) :
  (-32768 <= value < 32768)%Z ->
  signed16 (byteOf value 0) (byteOf value 1) = value.
Proof.
  intros H. unfold signed16. cbv zeta.
  rewrite byteOf_low, byteOf_high.
  assert (E : (value mod 256 + 256 * ((value / 256) mod 256)
               = value mod (256 * 256))%Z).
  { symmetry. apply Z.rem_mul_r; lia. }
  rewrite E. change (256 * 256)%Z with 65536%Z.
  destruct (Z_lt_dec value 0) as [Hneg|Hpos].
  - assert (Em : (value mod 65536 = value + 65536)%Z).
    { symmetry. apply (Z.mod_unique _ _ (-1)); lia. }
    rewrite Em. destruct (Z.ltb_spec (value + 65536) 32768); lia.
  - rewrite Z.mod_small by lia.
    destruct (Z.ltb_spec value 32768); lia.
Qed.

Lemma quantize_range (x : f32) : (-32767 <= quantize x <= 32767)%Z.
Proof.
  destruct x as [q|]; cbn [quantize]; [|lia].
  set (sample := Qmax (-1) (Qmin 1 q)).
  assert (Hs : -1 <= sample <= 1) by (unfold sample; Qminmax; lra).
  split.
  - assert (H : (-32767 <= Qfloor (sample * 32767 + (1 # 2)))%Z).
    { change (-32767)%Z with (Qfloor (inject_Z (-32767))) at 1.
      - apply Qfloor_resp_le.
        change (inject_Z (-32767)) with (-32767). lra. }
    exact H.
  - assert (H : (Qfloor (sample * 32767 + (1 # 2)) <= Qfloor (32767 + (1 # 2)))%Z).
    { apply Qfloor_resp_le. lra. }
    assert (E : Qfloor (32767 + (1 # 2)) = 32767%Z) by reflexivity.
    lia.
Qed.

(** One [setInt16] inside the view. *)
Lemma setInt16_spec (view : list Z) (offset value : Z) :
  (0 <= offset)%Z -> (offset + 1 < Z.of_nat (List.length view))%Z ->
  List.length (setInt16 view offset value) = List.length view /\
  get (setInt16 view offset value) offset = Some (byteOf value 0) /\
  get (setInt16 view offset value) (offset + 1) = Some (byteOf value 1) /\
  forall j, j <> offset -> j <> (offset + 1)%Z ->
            get (setInt16 view offset value) j = get view j.
Proof.
  intros H0 H1. unfold setInt16. cbv zeta.
  destruct (get_in_range view offset ltac:(lia)) as (a & Ha).
  destruct (get_in_range view (offset + 1) ltac:(lia)) as (b & Hb).
  split; [now rewrite !length_set|]. split; [|split].
  - rewrite get_set_other by lia. eapply get_set_same, Ha.
  - eapply get_set_same. rewrite get_set_other by lia. exact Hb.
  - intros j J0 J1. now rewrite !get_set_other by lia.
Qed.

Lemma sample_loop (buffer : AudioBuffer.t f32) (view0 : list Z) :
  let length := Z.of_nat (AudioBuffer.length buffer) in
  let channels := Z.of_nat (AudioBuffer.numberOfChannels buffer) in
  Z.of_nat (List.length view0) = (44 + 2 * (length * channels))%Z ->
  written buffer view0 (length * channels)
    (forRange 0 length
       (fun i st =>
          forRange 0 channels
            (fun channel '(view, offset) =>
               let sample :=
                 Math_max (Num (-1))
                   (Math_min (Num 1)
                      (ofUndefined
                         (get (AudioBuffer.getChannelData buffer channel) i))) in
               let int16Sample := Math_round (times sample 32767) in
               (setInt16 view offset (ofNaN int16Sample), (offset + 2)%Z))
            st)
       (view0, 44%Z)).
Proof.
  intros length channels Hsize.
  assert (Hlen0 : (0 <= length)%Z) by (unfold length; lia).
  assert (Hch0 : (0 <= channels)%Z) by (unfold channels; lia).
  apply (forRange_invariant
           (fun i st => written buffer view0 (i * channels) st)
           0 length _ (view0, 44%Z) Hlen0).
  - unfold written. cbn [fst snd]. split; [lia|]. split; [reflexivity|].
    split; [reflexivity|]. intros k' Hk'. lia.
  - intros i st Hi Hst.
    replace ((i + 1) * channels)%Z with (i * channels + channels)%Z by lia.
    apply (forRange_invariant
             (fun c st => written buffer view0 (i * channels + c) st)
             0 channels _ st Hch0).
    + now rewrite Z.add_0_r.
    + intros c [view offset] Hc (Hoff & Hl & Hhead & Hdone).
      cbn [fst snd] in Hoff, Hl, Hhead, Hdone. cbv zeta.
      rewrite quantize_code. fold (sampleAt buffer i c).
      assert (Hin : (offset + 1 < Z.of_nat (List.length view))%Z).
      { rewrite Hl, Hsize, Hoff. nia. }
      destruct (setInt16_spec view offset
                  (quantize (sampleAt buffer i c)) ltac:(lia) Hin)
        as (S1 & S2 & S3 & S4).
      unfold written. cbn [fst snd]. fold channels.
      split; [lia|]. split; [congruence|]. split.
      * intros j Hj. rewrite S4 by lia. apply Hhead, Hj.
      * intros k' Hk'.
        destruct (Z.eq_dec k' (i * channels + c)) as [->|Hne].
        -- assert (Ed : ((i * channels + c) / channels = i)%Z).
           { symmetry. apply (Z.div_unique _ _ _ c); lia. }
           assert (Em : ((i * channels + c) mod channels = c)%Z).
           { symmetry. apply (Z.mod_unique _ _ i); lia. }
           rewrite Ed, Em, <- Hoff. split; [exact S2 | exact S3].
        -- rewrite !S4 by lia. apply Hdone. lia.
Qed.

End Wav.

Section WavHeader.

Import TypedArray WavExport.

(** The header writes, on a zero-filled view. *)
Lemma header_writes (n : nat)
  (riffSize channels sampleRate byteRate blockAlign dataSize : Z) :
  setUint32
    (writeString
       (setUint16
          (setUint16
             (setUint32
                (setUint32
                   (setUint16
                      (setUint16
                         (setUint32
                            (writeString
                               (writeString
                                  (setUint32
                                     (writeString (repeat 0%Z (44 + n)) 0 "RIFF")
                                     4 riffSize)
                                  8 "WAVE")
                               12 "fmt ")
                            16 16)
                         20 1)
                      22 channels)
                   24 sampleRate)
                28 byteRate)
             32 blockAlign)
          34 16)
       36 "data")
    40 dataSize
  = (asciiCodes "RIFF" ++ le32 riffSize ++ asciiCodes "WAVE"
     ++ asciiCodes "fmt " ++ le32 16 ++ le16 1 ++ le16 channels
     ++ le32 sampleRate ++ le32 byteRate ++ le16 blockAlign ++ le16 16
     ++ asciiCodes "data" ++ le32 dataSize)
    ++ repeat 0%Z n.
Proof. reflexivity. Qed.

End WavHeader.

Section WavTheorems.

Import TypedArray WavExport.

Lemma firstn_get_ext {X : Type} (n : nat) (l1 l2 : list X) :
  (forall j, (0 <= j < Z.of_nat n)%Z -> get l1 j = get l2 j) ->
  firstn n l1 = firstn n l2.
Proof.
  intros H. apply nth_error_ext. intros k. rewrite !nth_error_firstn.
  destruct (Nat.ltb_spec k n) as [Hk|Hk]; [|reflexivity].
  specialize (H (Z.of_nat k) ltac:(lia)). unfold get in H.
  destruct (Z.ltb_spec (Z.of_nat k) 0); [lia|].
  now rewrite Nat2Z.id in H.
Qed.

(** [audioBufferToWav] is the header followed by zeros, with the samples
    written over the zeros. *)
Lemma audioBufferToWav_written (buffer : AudioBuffer.t f32) :
  let length := Z.of_nat (AudioBuffer.length buffer) in
  let channels := Z.of_nat (AudioBuffer.numberOfChannels buffer) in
  exists st,
    audioBufferToWav buffer = fst st /\
    written buffer
      (wavHeader buffer ++ repeat 0%Z (Z.to_nat (length * (channels * 2))))
      (length * channels) st.
Proof.
  intros length channels. unfold audioBufferToWav. cbv zeta.
  fold length channels. change (16 / 8)%Z with 2%Z.
  assert (Hd : (0 <= length * (channels * 2))%Z)
    by (apply Z.mul_nonneg_nonneg; unfold length, channels; lia).
  assert (Hn : Z.to_nat (44 + length * (channels * 2))
               = (44 + Z.to_nat (length * (channels * 2)))%nat) by lia.
  rewrite Hn, header_writes.
  replace (44 + length * (channels * 2) - 8)%Z
    with (36 + length * (channels * 2))%Z by lia.
  eexists. split; [reflexivity|].
  apply sample_loop. fold length channels.
  rewrite length_app, repeat_length.
  match goal with
  | |- context [ (List.length ?header + _)%nat ] =>
      change (List.length header) with 44%nat
  end.
  lia.
Qed.

(** X28: the layout of the file [audioBufferToWav] builds, for any buffer.
    The file has 44 bytes and two bytes per sample of every channel; its
    first 44 bytes are the canonical WAV header: "RIFF", the file size less
    8, "WAVE", "fmt ", the chunk size 16, the format 1 (PCM), the channel
    count, the sample rate, the byte rate, the block size of two bytes per
    channel, 16 bits per sample, "data" and the size of the data, the
    numbers little-endian.  The sample loop does not write into the
    header. *)
Theorem audioBufferToWav_layout (buffer : AudioBuffer.t f32) :
  let length := Z.of_nat (AudioBuffer.length buffer) in
  let channels := Z.of_nat (AudioBuffer.numberOfChannels buffer) in
  Z.of_nat (List.length (audioBufferToWav buffer))
  = (44 + 2 * (length * channels))%Z /\
  firstn 44 (audioBufferToWav buffer) = wavHeader buffer /\
  List.length (wavHeader buffer) = 44%nat /\
  firstn 4 (audioBufferToWav buffer) = [82; 73; 70; 70]%Z.
Proof.
  intros length channels.
  destruct (audioBufferToWav_written buffer)
    as (st & -> & (Hoff & Hl & Hhead & Hdone)).
  fold length channels in Hl, Hhead.
  set (view0 := wavHeader buffer
                ++ repeat 0%Z (Z.to_nat (length * (channels * 2)))) in *.
  assert (Hfirst : firstn 44 (fst st) = wavHeader buffer).
  { rewrite (firstn_get_ext 44 (fst st) view0) by exact Hhead.
    unfold view0.
    change 44%nat with (List.length (wavHeader buffer) + 0)%nat.
    rewrite firstn_app_2. cbn [firstn]. apply app_nil_r. }
  split.
  - rewrite Hl. unfold view0. rewrite length_app, repeat_length.
    change (List.length (wavHeader buffer)) with 44%nat.
    assert (Hd : (0 <= length * (channels * 2))%Z)
      by (apply Z.mul_nonneg_nonneg; unfold length, channels; lia).
    lia.
  - split; [exact Hfirst|]. split; [reflexivity|].
    change 4%nat with (Nat.min 4 44).
    rewrite <- firstn_firstn, Hfirst. reflexivity.
Qed.

(** X29: the samples of the file [audioBufferToWav] builds.  The sample of
    frame [i] and channel [c] occupies the two bytes at offset
    [44 + 2 * (i * channels + c)], so the frames follow one another with
    their channels interleaved.  Read as a signed little-endian 16-bit
    integer, the two bytes are the sample clamped to [-1, 1], times 32767,
    rounded to the nearest integer (halves up), and 0 for a NaN; the value
    lies between -32767 and 32767. *)
Theorem audioBufferToWav_samples (buffer : AudioBuffer.t f32) (i channel : Z) :
  let channels := Z.of_nat (AudioBuffer.numberOfChannels buffer) in
  (0 <= i < Z.of_nat (AudioBuffer.length buffer))%Z ->
  (0 <= channel < channels)%Z ->
  let offset := (44 + 2 * (i * channels + channel))%Z in
  let value := quantize (sampleAt buffer i channel) in
  exists lo hi,
    get (audioBufferToWav buffer) offset = Some lo /\
    get (audioBufferToWav buffer) (offset + 1) = Some hi /\
    (0 <= lo < 256)%Z /\ (0 <= hi < 256)%Z /\
    signed16 lo hi = value /\
    (-32767 <= value <= 32767)%Z.
Proof.
  intros channels Hi Hc offset value.
  destruct (audioBufferToWav_written buffer)
    as (st & -> & (Hoff & Hl & Hhead & Hdone)).
  fold channels in Hdone.
  destruct (Hdone (i * channels + channel)%Z ltac:(nia)) as (D0 & D1).
  assert (Ed : ((i * channels + channel) / channels = i)%Z).
  { symmetry. apply (Z.div_unique _ _ _ channel); lia. }
  assert (Em : ((i * channels + channel) mod channels = channel)%Z).
  { symmetry. apply (Z.mod_unique _ _ i); lia. }
  rewrite Ed, Em in D0, D1. fold value in D0, D1.
  pose proof (quantize_range (sampleAt buffer i channel)) as Hrange.
  fold value in Hrange.
  exists (byteOf value 0), (byteOf value 1).
  split; [exact D0|]. split; [exact D1|].
  split; [apply byteOf_range|]. split; [apply byteOf_range|].
  split; [apply signed16_bytes; lia | exact Hrange].
Qed.

End WavTheorems.

Section WavExample.

Import TypedArray WavExport.

Lemma audioBufferToWav_samples_witness :
  exists lo hi,
    get (audioBufferToWav clippingBuffer) 48 = Some lo /\
    get (audioBufferToWav clippingBuffer) 49 = Some hi /\
    signed16 lo hi = (-16383)%Z.
Proof.
  destruct (audioBufferToWav_samples clippingBuffer 2 0
              ltac:(cbn; lia) ltac:(cbn; lia))
    as (lo & hi & H0 & H1 & _ & _ & Hv & _).
  exists lo, hi. split; [exact H0|]. split; [exact H1 | exact Hv].
Defined.

End WavExample.

(** ** The renderer follows the editor *)

Section EditorInSync.

Import AudioChunkingEditor.

Context {A : Type} {ZeroA : Zero A} {FalsyA : Falsy A}.

Lemma in_sync_deleteAudioRange (startTime endTime : Q)
  (ed : AudioChunkingEditor.t A) :
  in_sync ed -> in_sync (deleteAudioRange startTime endTime ed).
Proof.
  intros Hsync. unfold deleteAudioRange.
  destruct (audioBuffer ed) as [buffer|] eqn:Hbuf; [|exact Hsync].
  split; [reflexivity|]. cbn [audioBuffer waveformRenderer].
  intros b [= <-]. reflexivity.
Qed.

(** X30: the edits keep the renderer in step with the editor.  If the
    renderer shows the chunk manager's chunks and knows the duration of the
    loaded buffer, it still does after [splitAtPosition], [delete],
    [deleteAudioRange], [applySilenceEffect], [applyFadeEffect],
    [applyNormalizeEffect], [handleResizeMove] and [endSelection].
    [endSelection] leaves the selection with its start at or before its
    end, the same two ends as before, and puts the seek position and the
    paused time at its start. *)
Theorem edits_keep_renderer_in_sync (ed : AudioChunkingEditor.t A)
  (edR : AudioChunkingEditor.t R) (startTime endTime : Q) (type : string)
  (isResizing : bool) (resizeHandle : option string) (x : Q) :
  (in_sync ed ->
   in_sync (splitAtPosition ed) /\
   in_sync (delete ed) /\
   in_sync (deleteAudioRange startTime endTime ed) /\
   in_sync (applySilenceEffect startTime endTime ed) /\
   in_sync (handleResizeMove isResizing resizeHandle x ed) /\
   in_sync (endSelection ed)) /\
  (in_sync edR ->
   in_sync (applyFadeEffect startTime endTime type edR) /\
   in_sync (applyNormalizeEffect startTime endTime edR)) /\
  fst (selection (endSelection ed)) <= snd (selection (endSelection ed)) /\
  (selection (endSelection ed) = selection ed \/
   selection (endSelection ed) = (snd (selection ed), fst (selection ed))) /\
  seekPosition (endSelection ed) = fst (selection (endSelection ed)) /\
  pausedAtTime (endSelection ed) = fst (selection (endSelection ed)).
Proof.
  split; [|split].
  - intros Hsync. pose proof Hsync as (Hchunks & Hdur).
    split; [|split; [|split; [|split; [|split]]]].
    + unfold splitAtPosition.
      destruct (audioBuffer ed) as [buffer|] eqn:Hbuf; [|exact Hsync].
      destruct (ChunkManager.splitAtPosition (seekPosition ed) (chunkManager ed))
        as [success cm].
      destruct success; cbn [negb]; [|exact Hsync].
      split; [reflexivity|]. cbn [audioBuffer waveformRenderer].
      intros b Hb. apply Hdur. rewrite ?Hbuf. exact Hb.
    + unfold delete.
      destruct (negb (Qeq_bool (fst (selection ed)) (snd (selection ed)))).
      * match goal with
        | |- context [deleteAudioRange ?s ?e ed] =>
            pose proof (in_sync_deleteAudioRange s e ed Hsync) as (D1 & D2)
        end.
        split; [exact D1 | exact D2].
      * destruct (ChunkManager.selectedChunk (chunkManager ed)) as [sel|];
          [|exact Hsync].
        destruct (List.length (ChunkManager.chunks (chunkManager ed)) <=? 1)%nat;
          [exact Hsync|].
        match goal with
        | |- context [deleteAudioRange ?s ?e ed] =>
            pose proof (in_sync_deleteAudioRange s e ed Hsync) as (D1 & D2)
        end.
        split; [exact D1 | exact D2].
    + apply in_sync_deleteAudioRange, Hsync.
    + unfold applySilenceEffect.
      destruct (audioBuffer ed) as [buffer|] eqn:Hbuf; [|exact Hsync].
      split; [exact Hchunks|]. cbn [audioBuffer waveformRenderer].
      intros b [= <-]. reflexivity.
    + unfold handleResizeMove. destruct isResizing; cbn [negb]; [|exact Hsync].
      destruct (audioBuffer ed) as [buffer|] eqn:Hbuf; [|exact Hsync].
      split; [exact Hchunks|]. cbn [audioBuffer waveformRenderer].
      intros b Hb. apply Hdur. rewrite ?Hbuf. exact Hb.
    + split; [exact Hchunks | exact Hdur].
  - intros (Hchunks & Hdur). split.
    + unfold applyFadeEffect.
      destruct (audioBuffer edR) as [buffer|] eqn:Hbuf;
        [|split; [exact Hchunks|]; rewrite Hbuf; discriminate].
      split; [exact Hchunks|]. cbn [audioBuffer waveformRenderer].
      intros b [= <-]. reflexivity.
    + unfold applyNormalizeEffect.
      destruct (audioBuffer edR) as [buffer|] eqn:Hbuf;
        [|split; [exact Hchunks|]; rewrite Hbuf; discriminate].
      split; [exact Hchunks|]. cbn [audioBuffer waveformRenderer].
      intros b [= <-]. reflexivity.
  - unfold endSelection. cbn [selection seekPosition pausedAtTime].
    destruct (Qgtb_spec (fst (selection ed)) (snd (selection ed))) as [Hgt|Hle];
      cbn [fst snd].
    + split; [lra|]. split; [right; reflexivity|]. split; reflexivity.
    + split; [lra|]. split; [left; reflexivity|]. split; reflexivity.
Qed.

End EditorInSync.

Section EditorInSyncExample.

Import AudioChunkingEditor.

Lemma shortenedEditor_in_sync : in_sync shortenedEditor.
Proof. split; [reflexivity|]. intros b [= <-]. reflexivity. Qed.

Lemma edits_keep_renderer_in_sync_witness :
  in_sync (applySilenceEffect 0 1 shortenedEditor).
Proof.
  destruct (edits_keep_renderer_in_sync shortenedEditor toneEditor 0 1 "in"
              false None 0) as (Hgeneric & _).
  destruct (Hgeneric shortenedEditor_in_sync) as (_ & _ & _ & Hsilence & _).
  exact Hsilence.
Defined.

End EditorInSyncExample.
